(** * dc-build: the clinic discovery, deduplication and classification pipeline

    A shallow embedding of the collection script ([collectState], [main],
    [acceptByDermHeuristics]), of [lib/googlePlaces.ts] ([fetchWithBackoff],
    [searchDermClinics], [searchDermClinicsText], [generateGridPoints]) and of
    the open-now resolver of [app/api/clinics/route.ts]
    ([calculateOpenNowFromWeekdayText]).

    JavaScript strings are sequences of UTF-16 code units; numbers that take
    part in floating-point arithmetic are IEEE binary64 values, modelled with
    the reference implementation of [SpecFloat]. *)

From Stdlib Require Import ZArith NArith List Bool Lia String Ascii SpecFloat
  DecimalString.
From stdpp Require Import gmap list.
Import ListNotations.


(* ===================================================================== *)
(** ** JavaScript strings *)
(* ===================================================================== *)

(** A string is the list of its UTF-16 code units. *)
Abbreviation jsstring := (list N).

Module JsString.

(** String literals of the source that are pure ASCII. *)
Definition js (s : string) : jsstring :=
  List.map N_of_ascii (list_ascii_of_string s).

(** [String.prototype.startsWith]. *)
Fixpoint startsWith (s p : jsstring) {struct p} : bool :=
  match p with
  | [] => true
  | x :: p' =>
      match s with
      | [] => false
      | y :: s' => N.eqb y x && startsWith s' p'
      end
  end.

(** [String.prototype.includes]: [t] occurs in [s] at some index. *)
Fixpoint includes (s t : jsstring) : bool :=
  startsWith s t ||
  match s with
  | [] => false
  | _ :: s' => includes s' t
  end.

(** [String.prototype.toLowerCase], code unit by code unit.  The letters A-Z
    are mapped to a-z.  Outside ASCII only the two code points whose lower
    case reaches the ASCII range are mapped (KELVIN SIGN to k, and LATIN
    CAPITAL LETTER I WITH DOT ABOVE to i followed by COMBINING DOT ABOVE);
    every other code unit is kept, which does not change whether an ASCII
    term occurs in the result.  The function stands for the method where the
    source tests a lower-cased text for ASCII terms; the name of the file of
    a state, which [toLowerCase] also enters, is left to the platform
    ([Collector.outPath]). *)
Definition lowerUnit (c : N) : jsstring :=
  if (65 <=? c)%N && (c <=? 90)%N then [(c + 32)%N]
  else if (c =? 8490)%N then [107%N]
  else if (c =? 304)%N then [105%N; 775%N]
  else [c].

Definition toLowerCase (s : jsstring) : jsstring :=
  List.flat_map lowerUnit s.

(** [String.prototype.toUpperCase] on the ASCII letters, where the source
    applies it (the AM/PM markers captured by the hours pattern). *)
Definition upperUnit (c : N) : N :=
  if (97 <=? c)%N && (c <=? 122)%N then (c - 32)%N else c.

Definition toUpperCase (s : jsstring) : jsstring := List.map upperUnit s.

(** [Array.prototype.join]. *)
Fixpoint join (sep : jsstring) (l : list jsstring) : jsstring :=
  match l with
  | [] => []
  | [x] => x
  | x :: rest => x ++ sep ++ join sep rest
  end.

(** Strict equality of two strings. *)
Definition eqb (a b : jsstring) : bool := bool_decide (a = b).

(** Decimal rendering of a natural number, as template literals print it. *)
Definition decimal (n : N) : jsstring :=
  js (NilZero.string_of_uint (N.to_uint n)).

(** Truthiness of a possibly missing string: [undefined], [null] and the
    empty string are falsy. *)
Definition truthy (o : option jsstring) : bool :=
  match o with
  | Some (_ :: _) => true
  | _ => false
  end.

(** [x || ''] for a possibly missing string. *)
Definition orEmpty (o : option jsstring) : jsstring := default [] o.

End JsString.

Import JsString.
Arguments js s%_string.

(* ===================================================================== *)
(** ** Exceptions *)
(* ===================================================================== *)

(** The outcome of a computation that may throw; the payload of [Throw] is
    the message of the [Error]. *)
Inductive exc (A : Type) : Type :=
| Ok (a : A)
| Throw (msg : jsstring).
Arguments Ok {A} a.
Arguments Throw {A} msg.

(* ===================================================================== *)
(** ** The dermatology classifier of the collection script *)
(* ===================================================================== *)

(** One [addressComponents] entry of the upstream payload. *)
Record AddressComponent := {
  ac_types : list jsstring;
  shortText : option jsstring;
  longText : option jsstring
}.

(** A raw upstream result (a Candidate).  A field that the payload may omit
    is an [option]. *)
Record Place := {
  id : option jsstring;
  displayName : option jsstring;          (* displayName?.text *)
  formattedAddress : option jsstring;
  addressComponents : option (list AddressComponent);
  location : option (spec_float * spec_float);
  primaryType : option jsstring;
  types : option (list jsstring);
  websiteUri : option jsstring;
  openNow : option bool;                  (* currentOpeningHours?.openNow *)
  regularOpeningHours : option (option (list jsstring))
                                          (* its weekdayDescriptions *)
}.

Module Classifier.

Definition excludeTerms : list jsstring :=
  [ js "dental"; js "dentist"; js "orthodont"; js "oral surgery";
    js "veterinary"; js "animal clinic"; js "pet clinic";
    js "massage"; js "spa resort"; js "day spa"; js "nail salon" ].

Definition coreTerms : list jsstring :=
  [ js "dermatology"; js "dermatologist"; js "dermatologic" ].

Definition relatedTerms : list jsstring :=
  [ js "skin clinic"; js "skin center"; js "skin care clinic";
    js "skin doctor"; js "skin specialist"; js "skin health";
    js "medical dermatology"; js "cosmetic dermatology";
    js "laser dermatology"; js "aesthetic dermatology";
    js "mohs surgery"; js "skin cancer" ].

Definition nameOf (p : Place) : jsstring := toLowerCase (orEmpty (displayName p)).
Definition websiteOf (p : Place) : jsstring := toLowerCase (orEmpty (websiteUri p)).
Definition typesOf (p : Place) : jsstring :=
  toLowerCase (join (js " ") (default [] (types p))).

(** [`${name} ${website} ${types}`] *)
Definition searchText (p : Place) : jsstring :=
  nameOf p ++ js " " ++ websiteOf p ++ js " " ++ typesOf p.

Definition acceptByDermHeuristics (p : Place) : bool :=
  let name := nameOf p in
  let website := websiteOf p in
  let types := typesOf p in
  let searchText := searchText p in
  (* RULE 1 *)
  if existsb (includes searchText) excludeTerms then false
  (* RULE 2 *)
  else if includes types (js "skin_care_clinic") then true
  (* RULE 3 *)
  else if existsb (includes searchText) coreTerms then true
  (* RULE 4 *)
  else if existsb (fun term => includes name term || includes website term)
            relatedTerms then true
  else
    (* RULE 5 *)
    let hasDerm := includes searchText (js "derm") in
    let hasSkin := includes name (js "skin") || includes website (js "skin") in
    let medicalContext :=
      includes types (js "doctor") ||
      includes types (js "health") ||
      includes searchText (js "medical") ||
      includes searchText (js "clinic") ||
      includes searchText (js "center") in
    if (hasDerm || hasSkin) && medicalContext then
      let isStore :=
        includes types (js "store") ||
        includes types (js "beauty_supply_store") ||
        includes searchText (js "beauty supply") ||
        includes searchText (js "cosmetics store") in
      negb isStore
    (* RULE 6 *)
    else false.

(** The exclude list and the core list as the specification words them. *)
Definition spec_excludeTerms : list jsstring :=
  [ js "dental"; js "dentist"; js "orthodontic"; js "oral surgery";
    js "veterinary"; js "animal"; js "pet"; js "massage";
    js "spa-resort"; js "day-spa"; js "nail-salon" ].

Definition spec_coreTerms : list jsstring :=
  [ js "dermatology"; js "dermatologist"; js "dermatologic"; js "derma" ].

(** A candidate that carries only a display name and type tags. *)
Definition named (name : string) (tys : list jsstring) : Place :=
  {| id := None; displayName := Some (js name); formattedAddress := None;
     addressComponents := None; location := None; primaryType := None;
     types := Some tys; websiteUri := None; openNow := None;
     regularOpeningHours := None |}.
Arguments named name%_string tys.

End Classifier.

Import Classifier.

(* ===================================================================== *)
(** ** The upstream places-search service *)
(* ===================================================================== *)

Module Upstream.

(** The [places] member of a response body: an array whose elements are
    places (or [null]), or some other value that is neither [undefined] nor
    an array. *)
Inductive JsPlaces :=
| PlacesArray (l : list (option Place))
| PlacesOther.

Record Page := {
  places : option JsPlaces;
  nextPageToken : option jsstring
}.

(** What [fetch] does with one request: the promise rejects, or it resolves
    to a response with a status; [body = None] is a body that [json()]
    cannot parse. *)
Inductive Reply :=
| Rejected (msg : jsstring)
| Http (status : N) (statusText : jsstring) (body : option Page).

(** [Response.ok] *)
Definition ok (status : N) : bool := (200 <=? status)%N && (status <=? 299)%N.

End Upstream.

Import Upstream.

(* ===================================================================== *)
(** ** The canonical entity *)
(* ===================================================================== *)

(** The fields of a stored clinic that the pipeline computes.  The remaining
    members of the source objects (rating, phone numbers, option flags,
    photos, ...) are copied from the payload as they are. *)
Record Clinic := {
  place_id : option jsstring;
  display_name : option jsstring;
  formatted_address : option jsstring;
  c_location : option (spec_float * spec_float);
  primary_type : option jsstring;
  c_types : list jsstring;
  website : option jsstring;
  current_open_now : option bool;
  opening_hours : option (option bool * option (list jsstring));
  city : option jsstring;
  state_code : option jsstring;
  postal_code : option jsstring;
  last_fetched_at : jsstring
}.

Record AddressParts := {
  ap_state_code : option jsstring;
  ap_city : option jsstring;
  ap_postal_code : option jsstring
}.

(** [fromAddressComponents], the same in both files. *)
Definition fromAddressComponents (components : list AddressComponent) : AddressParts :=
  let get (t : jsstring) :=
    List.find (fun c => existsb (JsString.eqb t) (ac_types c)) components in
  {| ap_state_code := get (js "administrative_area_level_1") ≫= shortText;
     ap_city :=
       match get (js "locality") ≫= longText with
       | Some x => Some x
       | None => get (js "postal_town") ≫= longText
       end;
     ap_postal_code := get (js "postal_code") ≫= longText |}.

(* ===================================================================== *)
(** ** The collection script *)
(* ===================================================================== *)

Module Collector.

(** The environment-driven settings.  A cap of [0] is "no cap". *)
Record Config := {
  QPS : Z;
  NEXT_PAGE_DELAY_MS : Z;
  MAX_REQUESTS : nat;
  MAX_CLINICS_PER_STATE : nat;
  MAX_CLINICS_GLOBAL : nat
}.

(** What the script receives from outside: the answer of the service to the
    [n]-th request of the run, the current date, and the path of the file of
    a state, [path.join(OUT_DIR, `${stateCode.toLowerCase()}.json`)], as the
    platform computes it: the lower-casing is that of the full Unicode
    tables, and [path.join] normalizes the segments of the name. *)
Record Env := {
  upstream : nat -> jsstring -> option jsstring -> Reply;
  today : jsstring;
  outPath : jsstring -> jsstring
}.

Record Payload := {
  pl_state : jsstring;
  pl_total : nat;
  pl_clinics : list Clinic
}.

(** The module-level variables, the time slept, and the files written under
    [data/clinics], by their paths; the file system is taken to accept the
    writes. *)
Record Globals := {
  REQUESTS : nat;
  GLOBAL_CLINICS : nat;
  slept : list Z;
  files : gmap jsstring Payload
}.

Definition initial : Globals :=
  {| REQUESTS := 0; GLOBAL_CLINICS := 0; slept := []; files := ∅ |}.

Definition SLEEP (ms : Z) (g : Globals) : Globals :=
  {| REQUESTS := REQUESTS g; GLOBAL_CLINICS := GLOBAL_CLINICS g;
     slept := slept g ++ [ms]; files := files g |}.

(** [Math.ceil(1000 / QPS)] for a whole, positive [QPS]. *)
Definition gateDelay (cfg : Config) : Z := (1000 + QPS cfg - 1) / QPS cfg.

Definition gate (cfg : Config) (g : Globals) : Globals :=
  SLEEP (gateDelay cfg)
    {| REQUESTS := S (REQUESTS g); GLOBAL_CLINICS := GLOBAL_CLINICS g;
       slept := slept g; files := files g |}.

Definition searchTextOnce (cfg : Config) (env : Env) (query : jsstring)
    (pageToken : option jsstring) (g : Globals) : exc Page * Globals :=
  let n := REQUESTS g in
  let g := gate cfg g in
  let token := if truthy pageToken then pageToken else None in
  match upstream env n query token with
  | Rejected msg => (Throw msg, g)
  | Http status _ body =>
      if negb (ok status) then
        (Throw (js "searchText failed: " ++ decimal status), g)
      else
        match body with
        | None => (Throw (js "Unexpected token in JSON"), g)
        | Some data => (Ok data, g)
        end
  end.

Definition toClinic (env : Env) (p : Place) : Clinic :=
  let ac := fromAddressComponents (default [] (addressComponents p)) in
  {| place_id := id p;
     display_name := displayName p;
     formatted_address := formattedAddress p;
     c_location := location p;
     primary_type := primaryType p;
     c_types := default [] (types p);
     website := websiteUri p;
     current_open_now := openNow p;
     opening_hours :=
       match regularOpeningHours p with
       | Some wd => Some (openNow p, Some (default [] wd))
       | None => None
       end;
     city := ap_city ac;
     state_code := ap_state_code ac;
     postal_code := ap_postal_code ac;
     last_fetched_at := today env |}.

(** The variables local to one [collectState] call. *)
Record Local := {
  seen : gset jsstring;
  clinics : list Clinic
}.

(** How the [for (const p of places)] loop was left. *)
Inductive Exit :=
| Completed
| Broke
| Thrown (msg : jsstring).

(** The guarded block of the inner loop (the candidate has been accepted):
    a new identifier is recorded and its clinic stored, and the result says
    whether that happened. *)
Definition add (env : Env) (p : Place) (l : Local) : Local * bool :=
  match id p with
  | Some i =>
      if truthy (Some i) && negb (bool_decide (i ∈ seen l)) then
        ({| seen := {[ i ]} ∪ seen l; clinics := clinics l ++ [toClinic env p] |}, true)
      else (l, false)
  | None => (l, false)
  end.

Fixpoint forPlaces (cfg : Config) (env : Env) (places : list (option Place))
    (l : Local) (g : Globals) : Local * Globals * Exit :=
  match places with
  | [] => (l, g, Completed)
  | None :: _ =>
      (l, g, Thrown (js "Cannot read properties of null (reading 'displayName')"))
  | Some p :: rest =>
      if negb (acceptByDermHeuristics p) then forPlaces cfg env rest l g
      else
        let '(l', inserted) := add env p l in
        if inserted then
          let g' := {| REQUESTS := REQUESTS g; GLOBAL_CLINICS := S (GLOBAL_CLINICS g);
                       slept := slept g; files := files g |} in
          if negb (MAX_CLINICS_PER_STATE cfg =? 0) &&
             (MAX_CLINICS_PER_STATE cfg <=? length (clinics l')) then
            (l', g', Broke)
          else if negb (MAX_CLINICS_GLOBAL cfg =? 0) &&
                  (MAX_CLINICS_GLOBAL cfg <=? GLOBAL_CLINICS g') then
            (l', g', Thrown (js "Global clinic cap hit"))
          else forPlaces cfg env rest l' g'
        else forPlaces cfg env rest l' g
  end.

(** The [do ... while (pageToken)] loop of one query; [fuel] bounds the
    number of pages, and [None] says that the loop was still running when
    the fuel ran out. *)
Fixpoint pagesLoop (fuel : nat) (cfg : Config) (env : Env) (q : jsstring)
    (pageToken : option jsstring) (pagesForQuery : nat)
    (l : Local) (g : Globals) : option (exc Local * Globals) :=
  match fuel with
  | O => None
  | S fuel' =>
      match searchTextOnce cfg env q pageToken g with
      | (Throw msg, g1) => Some (Throw msg, g1)
      | (Ok data, g1) =>
          match default (PlacesArray []) (places data) with
          | PlacesOther => Some (Throw (js "places is not iterable"), g1)
          | PlacesArray ps =>
              let pagesForQuery := S pagesForQuery in
              match forPlaces cfg env ps l g1 with
              | (_, g2, Thrown msg) => Some (Throw msg, g2)
              | (l2, g2, _) =>
                  (* the [pageToken = undefined] of the per-state cap is
                     overwritten here *)
                  let pageToken :=
                    if truthy (nextPageToken data) then nextPageToken data else None in
                  if truthy pageToken then
                    pagesLoop fuel' cfg env q pageToken pagesForQuery l2
                      (SLEEP (NEXT_PAGE_DELAY_MS cfg) g2)
                  else Some (Ok l2, g2)
              end
          end
      end
  end.

Definition queriesOf (stateCode : jsstring) : list jsstring :=
  [ js "dermatology clinic in " ++ stateCode;
    js "dermatologist in " ++ stateCode;
    js "skin clinic in " ++ stateCode ].

Fixpoint forQueries (fuel : nat) (cfg : Config) (env : Env) (qs : list jsstring)
    (l : Local) (g : Globals) : option (exc Local * Globals) :=
  match qs with
  | [] => Some (Ok l, g)
  | q :: rest =>
      match pagesLoop fuel cfg env q None 0 l g with
      | None => None
      | Some (Throw msg, g') => Some (Throw msg, g')
      | Some (Ok l', g') => forQueries fuel cfg env rest l' g'
      end
  end.

Definition writeFile (env : Env) (stateCode : jsstring) (l : Local) (g : Globals)
    : Globals :=
  {| REQUESTS := REQUESTS g; GLOBAL_CLINICS := GLOBAL_CLINICS g; slept := slept g;
     files := <[ outPath env stateCode :=
                 {| pl_state := stateCode; pl_total := length (clinics l);
                    pl_clinics := clinics l |} ]> (files g) |}.

Definition collectState (fuel : nat) (cfg : Config) (env : Env)
    (stateCode : jsstring) (g : Globals) : option (exc unit * Globals) :=
  let l := {| seen := ∅; clinics := [] |} in
  match forQueries fuel cfg env (queriesOf stateCode) l g with
  | None => None
  | Some (Throw msg, g') => Some (Throw msg, g')
  | Some (Ok l', g') => Some (Ok tt, writeFile env stateCode l' g')
  end.

(** The [for (const st of states)] loop of [main], with its [try]/[catch]. *)
Fixpoint main (fuel : nat) (cfg : Config) (env : Env) (states : list jsstring)
    (g : Globals) : option Globals :=
  match states with
  | [] => Some g
  | st :: rest =>
      match collectState fuel cfg env st g with
      | None => None
      | Some (Ok _, g') => main fuel cfg env rest g'
      | Some (Throw m, g') =>
          let msg := if truthy (Some m) then m else js "Error" in
          if includes msg (js "Global clinic cap hit") ||
             includes msg (js "Daily request cap hit")
          then Some g'
          else main fuel cfg env rest g'
      end
  end.

(** The settings with another maximum of requests. *)
Definition withMaxRequests (m : nat) (cfg : Config) : Config :=
  {| QPS := QPS cfg; NEXT_PAGE_DELAY_MS := NEXT_PAGE_DELAY_MS cfg;
     MAX_REQUESTS := m;
     MAX_CLINICS_PER_STATE := MAX_CLINICS_PER_STATE cfg;
     MAX_CLINICS_GLOBAL := MAX_CLINICS_GLOBAL cfg |}.

(** Every clinic that the run has written, over all files. *)
Definition stored (g : Globals) : list Clinic :=
  (map_to_list (files g)).*2 ≫= pl_clinics.

(** No two stored clinics of the call share an identifier, and every stored
    identifier has been recorded as seen. *)
Definition distinct (l : Local) : Prop :=
  NoDup (place_id <$> clinics l) /\
  forall i, Some i ∈ place_id <$> clinics l -> i ∈ seen l.

End Collector.

(* ===================================================================== *)
(** ** Numbers *)
(* ===================================================================== *)

(** JavaScript numbers are IEEE 754 binary64 values. *)
Module Num.

Definition prec : Z := 53.
Definition emax : Z := 1024.

Abbreviation num := spec_float.

Definition ofZ (z : Z) : num := binary_normalize prec emax z 0 false.
Definition add : num -> num -> num := SFadd prec emax.
Definition mul : num -> num -> num := SFmul prec emax.
Definition div : num -> num -> num := SFdiv prec emax.
Definition leb : num -> num -> bool := SFleb.

(** The decimal literal with digits [m] and [d] decimals, that is the
    double nearest to [m / 10^d]; both are exact doubles for the literals of
    the source, so one correctly rounded division gives it. *)
Definition lit (m : Z) (d : nat) : num := div (ofZ m) (ofZ (10 ^ Z.of_nat d)).

(** [Math.round]: the nearest integer, ties towards +infinity; values with a
    non-negative exponent are integers already, and a result of zero keeps
    the sign of the argument. *)
Definition round (x : num) : num :=
  match x with
  | S754_finite s m e =>
      if (0 <=? e)%Z then x
      else
        let sm := if s then Z.neg m else Z.pos m in
        let z := ((2 * sm + 2 ^ (- e)) / 2 ^ (1 - e))%Z in
        binary_normalize prec emax z 0 s
  | _ => x
  end.

(** [x || 0] on a number: zero and NaN are falsy. *)
Definition orZero (x : num) : num :=
  match x with
  | S754_zero _ | S754_nan => ofZ 0
  | _ => x
  end.

End Num.

(* ===================================================================== *)
(** ** Grid generation *)
(* ===================================================================== *)

Record Location := { lat : spec_float; lng : spec_float }.

Record Bounds := {
  minLat : spec_float;
  maxLat : spec_float;
  minLng : spec_float;
  maxLng : spec_float
}.

Module Grid.

Definition round6 (n : spec_float) : spec_float :=
  Num.div (Num.round (Num.mul n (Num.lit 1000000 0))) (Num.lit 1000000 0).

(** The inner [for] loop, one row of the grid. *)
Fixpoint lngLoop (fuel : nat) (bounds : Bounds) (stepDeg la lng : spec_float)
    (points : list Location) : option (list Location) :=
  match fuel with
  | O => None
  | S fuel' =>
      if Num.leb lng (Num.add (maxLng bounds) (Num.lit 1 9)) then
        lngLoop fuel' bounds stepDeg la (Num.add lng stepDeg)
          (points ++ [{| lat := round6 la; lng := round6 lng |}])
      else Some points
  end.

(** The outer [for] loop; [rowFuel] is the fuel of each row. *)
Fixpoint latLoop (fuel rowFuel : nat) (bounds : Bounds) (stepDeg la : spec_float)
    (points : list Location) : option (list Location) :=
  match fuel with
  | O => None
  | S fuel' =>
      if Num.leb la (Num.add (maxLat bounds) (Num.lit 1 9)) then
        match lngLoop rowFuel bounds stepDeg la (minLng bounds) points with
        | None => None
        | Some points' =>
            latLoop fuel' rowFuel bounds stepDeg (Num.add la stepDeg) points'
        end
      else Some points
  end.

(** [fuel] bounds the number of iterations of each loop; [None] says that a
    loop was still running when it ran out. *)
Definition generateGridPoints (fuel : nat) (bounds : Bounds) (stepDeg : spec_float)
    : option (list Location) :=
  latLoop fuel fuel bounds stepDeg (minLat bounds) [].

(** The bounding box of the specification's example, its step, and the nine
    points of the 3 x 3 grid, written with decimal literals. *)
Definition specBox : Bounds :=
  {| minLat := Num.lit 30 0; maxLat := Num.lit 306 1;
     minLng := Num.lit (-90) 0; maxLng := Num.lit (-894) 1 |}.

Definition specStep : spec_float := Num.lit 3 1.

Definition specGrid : list Location :=
  la ← [Num.lit 30 0; Num.lit 303 1; Num.lit 306 1];
  ln ← [Num.lit (-90) 0; Num.lit (-897) 1; Num.lit (-894) 1];
  [{| lat := la; lng := ln |}].

(** *** Values with six decimals *)








End Grid.

(* ===================================================================== *)
(** ** lib/googlePlaces.ts *)
(* ===================================================================== *)

Module GooglePlaces.

Definition QPS_TARGET : Z := 3.
Definition MIN_INTERVAL_MS : Z := (1000 + QPS_TARGET - 1) / QPS_TARGET.

Inductive Rank := POPULARITY | DISTANCE.

Inductive Request :=
| SearchNearby (center : Location) (radius : Z) (rank : Rank)
| SearchText (query : jsstring) (pageToken : option jsstring).

(** What the module receives from outside: the answer of the service to the
    [n]-th [fetch] of the process and the time it takes, the random numbers,
    the API key of the environment, the current date, and the timers:
    [wake k t ms] is what [Date.now()] reads when the [k]-th timer of the
    process fires, a timer of [ms] milliseconds set when the clock read [t].
    That is about [t + ms]; a timer may fire late, and by the reading of
    [Date.now()] it may fire early. *)
Record Host := {
  upstream : nat -> Request -> Reply;
  latency : nat -> Z;
  random : nat -> Z;
  apiKey : option jsstring;
  today : jsstring;
  wake : nat -> Z -> Z -> Z
}.

(** The clock, the module-level [lastCallAt], the number of [fetch] calls
    made, and the sleeps in order. *)
Record Net := {
  clock : Z;
  lastCallAt : Z;
  calls : nat;
  sleeps : list Z
}.

Record Response := {
  status : N;
  statusText : jsstring;
  body : option Page
}.

(** Computations over [Net] that may throw; [None] is a loop that was still
    running when its fuel ran out. *)
Definition M (A : Type) : Type := Net -> option (exc A * Net).

Definition ret {A} (a : A) : M A := fun st => Some (Ok a, st).
Definition throw {A} (msg : jsstring) : M A := fun st => Some (Throw msg, st).
Definition bind {A B} (m : M A) (f : A -> M B) : M B :=
  fun st =>
    match m st with
    | None => None
    | Some (Throw msg, st') => Some (Throw msg, st')
    | Some (Ok a, st') => f a st'
    end.
Definition lift {A} (r : exc A) : M A :=
  match r with
  | Ok a => ret a
  | Throw msg => throw msg
  end.
(** [try { m } catch { return a }] *)
Definition catch {A} (m : M A) (a : A) : M A :=
  fun st =>
    match m st with
    | None => None
    | Some (Throw _, st') => Some (Ok a, st')
    | Some (Ok x, st') => Some (Ok x, st')
    end.

Arguments bind : simpl never.

Notation "x <- m ;; k" := (bind m (fun x => k))
  (at level 100, m at next level, right associativity).
Notation "m ;;; k" := (bind m (fun _ => k))
  (at level 100, right associativity).

Definition sleep (host : Host) (ms : Z) : M unit := fun st =>
  Some (Ok tt, {| clock := wake host (length (sleeps st)) (clock st) ms;
                  lastCallAt := lastCallAt st;
                  calls := calls st; sleeps := sleeps st ++ [ms] |}).

Definition now : M Z := fun st => Some (Ok (clock st), st).

Definition getLastCallAt : M Z := fun st => Some (Ok (lastCallAt st), st).

(** [lastCallAt = Date.now()] *)
Definition stamp : M unit := fun st =>
  Some (Ok tt, {| clock := clock st; lastCallAt := clock st;
                  calls := calls st; sleeps := sleeps st |}).

(** [Math.floor(Math.random() * 250)] *)
Definition jitter (host : Host) : M Z := fun st =>
  Some (Ok (random host (calls st) mod 250)%Z, st).

Definition fetch (host : Host) (req : Request) : M Response := fun st =>
  let n := calls st in
  let st' := {| clock := clock st + Z.max 0 (latency host n);
                lastCallAt := lastCallAt st;
                calls := S n; sleeps := sleeps st |} in
  match upstream host n req with
  | Rejected msg => Some (Throw msg, st')
  | Http s t b => Some (Ok {| status := s; statusText := t; body := b |}, st')
  end.

Definition retryable (s : N) : bool :=
  (s =? 429)%N || ((500 <=? s)%N && (s <? 600)%N).

(** The [while (true)] loop of [fetchWithBackoff]. *)
Fixpoint backoffLoop (fuel : nat) (host : Host) (req : Request)
    (maxRetries attempt : nat) : M Response :=
  match fuel with
  | O => fun _ => None
  | S fuel' =>
      res <- fetch host req ;;
      stamp ;;;
      if ok (status res) then ret res
      else if retryable (status res) && (attempt <? maxRetries) then
        let base := 500%Z in
        let backoff := (base * 2 ^ Z.of_nat attempt)%Z in
        j <- jitter host ;;
        sleep host (backoff + j) ;;;
        backoffLoop fuel' host req maxRetries (attempt + 1)
      else ret res
  end.

(** The loop fetches at most [maxRetries + 1] times, which is the fuel it is
    given. *)
Definition fetchWithBackoff (host : Host) (req : Request) (maxRetries : nat)
    : M Response :=
  t <- now ;;
  last <- getLastCallAt ;;
  let elapsed := (t - last)%Z in
  (if (elapsed <? MIN_INTERVAL_MS)%Z then sleep host (MIN_INTERVAL_MS - elapsed)
   else ret tt) ;;;
  backoffLoop (S maxRetries) host req maxRetries 0.

(** What [fetch] makes of a reply. *)
Definition outcomeOf (r : Reply) : exc Response :=
  match r with
  | Rejected msg => Throw msg
  | Http s t b => Ok {| status := s; statusText := t; body := b |}
  end.

(** A reply that the loop answers with a retry (while retries are left). *)
Definition retryableReply (r : Reply) : bool :=
  match r with
  | Rejected _ => false
  | Http s _ _ => retryable s
  end.

(** The sleep of the client-side rate limit on entry, if any. *)
Definition throttleSleeps (st : Net) : list Z :=
  if (clock st - lastCallAt st <? MIN_INTERVAL_MS)%Z
  then [(MIN_INTERVAL_MS - (clock st - lastCallAt st))%Z] else [].

(** The delay before retry [k + 1]: the base delay doubled [k] times, and
    on top the jitter drawn after fetch [k]. *)
Definition backoffBase (k : nat) : Z := (500 * 2 ^ Z.of_nat k)%Z.
Definition jitterAt (host : Host) (st : Net) (k : nat) : Z :=
  (random host (calls st + k + 1) mod 250)%Z.

(** The default of the [maxRetries] option. *)
Definition defaultMaxRetries : nat := 5.

Definition DERM_TERMS : list jsstring :=
  [ js "dermatology"; js "dermatologist"; js "derma"; js "skin clinic";
    js "skin center"; js "medical dermatology"; js "cosmetic dermatology";
    js "laser dermatology"; js "skin care" ].

Definition transformSinglePlace (host : Host) (place : option Place) : option Clinic :=
  match place with
  | None => None
  | Some place =>
      match id place with
      | Some ((_ :: _) as i) =>
          let types := default [] (types place) in
          let displayName := orEmpty (displayName place) in
          let lowerName := toLowerCase displayName in
          let lowerSite := toLowerCase (orEmpty (websiteUri place)) in
          let hasDermTerm :=
            existsb (includes lowerName) DERM_TERMS ||
            includes lowerName (js "derm") ||
            includes lowerName (js "skin") ||
            includes lowerSite (js "derm") ||
            includes lowerSite (js "skin") in
          let isDermatology :=
            existsb (JsString.eqb (js "skin_care_clinic")) types || hasDermTerm in
          if negb isDermatology then None
          else
            let ac := fromAddressComponents (default [] (addressComponents place)) in
            Some
              {| place_id := Some i;
                 display_name := Some displayName;
                 formatted_address := Some (orEmpty (formattedAddress place));
                 c_location :=
                   Some (match location place with
                         | Some (la, ln) => (Num.orZero la, Num.orZero ln)
                         | None => (Num.ofZ 0, Num.ofZ 0)
                         end);
                 primary_type :=
                   Some (if truthy (primaryType place)
                         then orEmpty (primaryType place) else js "doctor");
                 c_types := types;
                 website := websiteUri place;
                 current_open_now := openNow place;
                 opening_hours :=
                   match openNow place, regularOpeningHours place with
                   | None, None | None, Some None => None
                   | o, r => Some (o, mjoin r)
                   end;
                 city := ap_city ac;
                 state_code := ap_state_code ac;
                 postal_code := ap_postal_code ac;
                 last_fetched_at := today host |}
      | _ => None
      end
  end.

Definition transformPlacesResponse (host : Host) (places : JsPlaces)
    : exc (list Clinic) :=
  match places with
  | PlacesArray l => Ok (omap (transformSinglePlace host) l)
  | PlacesOther => Throw (js "places.map is not a function")
  end.

Definition haveKey (host : Host) : M unit :=
  if truthy (apiKey host) then ret tt
  else throw (js "Missing GOOGLE_PLACES_API_KEY").

(** [response.json()] *)
Definition json (resp : Response) : M Page :=
  match body resp with
  | Some data => ret data
  | None => throw (js "Unexpected token in JSON")
  end.

Definition searchDermClinics (host : Host) (location : Location) (radius : Z)
    (rank : Rank) : M (list Clinic) :=
  catch
    (haveKey host ;;;
     response <- fetchWithBackoff host (SearchNearby location radius rank)
                   defaultMaxRetries ;;
     (if negb (ok (status response)) then
        throw (js "Places API error: " ++ decimal (status response) ++ js " "
                 ++ statusText response)
      else ret tt) ;;;
     data <- json response ;;
     lift (transformPlacesResponse host (default (PlacesArray []) (places data))))
    [].

(** The ways in which a nearby search fails: the API key is missing, [fetch]
    rejects, the response that comes out of the retries is not OK, its body
    is not JSON, or its [places] member cannot be mapped over. *)
Inductive Failure (host : Host) (req : Request) (st : Net) : Prop :=
| MissingKey :
    truthy (apiKey host) = false -> Failure host req st
| FetchRejected (msg : jsstring) (st' : Net) :
    fetchWithBackoff host req defaultMaxRetries st = Some (Throw msg, st') ->
    Failure host req st
| ResponseNotOk (resp : Response) (st' : Net) :
    fetchWithBackoff host req defaultMaxRetries st = Some (Ok resp, st') ->
    ok (status resp) = false -> Failure host req st
| BodyNotJson (resp : Response) (st' : Net) :
    fetchWithBackoff host req defaultMaxRetries st = Some (Ok resp, st') ->
    body resp = None -> Failure host req st
| PlacesNotArray (resp : Response) (st' : Net) (data : Page) :
    fetchWithBackoff host req defaultMaxRetries st = Some (Ok resp, st') ->
    body resp = Some data -> places data = Some PlacesOther ->
    Failure host req st.

Definition searchDermClinicsTextPage (host : Host) (query : jsstring)
    (pageToken : option jsstring) : M (JsPlaces * option jsstring) :=
  haveKey host ;;;
  let token := if truthy pageToken then pageToken else None in
  resp <- fetchWithBackoff host (SearchText query token) defaultMaxRetries ;;
  (if negb (ok (status resp)) then
     throw (js "Text Search error: " ++ decimal (status resp) ++ js " "
              ++ statusText resp)
   else ret tt) ;;;
  data <- json resp ;;
  ret (default (PlacesArray []) (places data), nextPageToken data).

(** The accumulator of a multi-query search. *)
Record Acc := {
  all : list Clinic;
  seen : gset (option jsstring)
}.

(** The guarded block of the merge loops: a clinic whose identifier is new
    is recorded and stored, and the result says whether that happened. *)
Definition add (c : Clinic) (a : Acc) : Acc * bool :=
  if negb (bool_decide (place_id c ∈ seen a)) then
    ({| all := all a ++ [c]; seen := {[ place_id c ]} ∪ seen a |}, true)
  else (a, false).

Definition addBatch (batch : list Clinic) (a : Acc) : Acc :=
  foldl (fun a c => fst (add c a)) a batch.

(** No two merged clinics share an identifier, and every merged identifier
    has been recorded as seen. *)
Definition distinct (a : Acc) : Prop :=
  NoDup (place_id <$> all a) /\
  forall c, c ∈ all a -> place_id c ∈ seen a.

(** The [do ... while (pageToken && pagesFetched < pageLimitPerQuery)] loop
    of one query. *)
Fixpoint textPages (fuel : nat) (host : Host) (q : jsstring)
    (pageLimitPerQuery : nat) (pageToken : option jsstring) (pagesFetched : nat)
    (a : Acc) : M Acc :=
  match fuel with
  | O => fun _ => None
  | S fuel' =>
      page <- searchDermClinicsTextPage host q pageToken ;;
      let '(places, nextPageToken) := page in
      batch <- lift (transformPlacesResponse host places) ;;
      let a := addBatch batch a in
      let pageToken := nextPageToken in
      let pagesFetched := pagesFetched + 1 in
      if truthy pageToken && (pagesFetched <? pageLimitPerQuery) then
        textPages fuel' host q pageLimitPerQuery pageToken pagesFetched a
      else ret a
  end.

(** The [for (const q of queries)] loop; a query fetches one page and then
    at most as many as the limit leaves, which is the fuel it is given. *)
Fixpoint textQueries (host : Host) (queries : list jsstring)
    (pageLimitPerQuery : nat) (a : Acc) : M Acc :=
  match queries with
  | [] => ret a
  | q :: rest =>
      a' <- textPages (S pageLimitPerQuery) host q pageLimitPerQuery None 0 a ;;
      textQueries host rest pageLimitPerQuery a'
  end.

Definition searchDermClinicsText (host : Host) (queries : list jsstring)
    (pageLimitPerQuery : nat) : M (list Clinic) :=
  a <- textQueries host queries pageLimitPerQuery {| all := []; seen := ∅ |} ;;
  ret (all a).

Fixpoint gridPoints (host : Host) (points : list Location) (radiusMeters : Z)
    (a : Acc) : M Acc :=
  match points with
  | [] => ret a
  | p :: rest =>
      batch <- searchDermClinics host p radiusMeters DISTANCE ;;
      gridPoints host rest radiusMeters (addBatch batch a)
  end.

Definition searchDermClinicsGrid (fuel : nat) (host : Host) (bounds : Bounds)
    (radiusMeters : Z) (stepDeg : spec_float) : M (list Clinic) :=
  match Grid.generateGridPoints fuel bounds stepDeg with
  | None => fun _ => None
  | Some points =>
      a <- gridPoints host points radiusMeters {| all := []; seen := ∅ |} ;;
      ret (all a)
  end.

End GooglePlaces.

(* ===================================================================== *)
(** ** The open-now resolver *)
(* ===================================================================== *)

Module OpenNow.

(** *** A backtracking matcher for the patterns the resolver uses

    Quantifiers are greedy and alternatives are tried from left to right, as
    in the regular expressions of the language; the continuation [k] is the
    rest of the pattern. *)

Inductive regex :=
| Cls (c : N -> bool)                    (* one code unit of a class *)
| Seq (r1 r2 : regex)
| Alt (r1 r2 : regex)
| Rep (c : N -> bool) (lo hi : nat)      (* c{lo,hi} *)
| Star (c : N -> bool)                   (* c* *)
| Group (r : regex).                     (* ( r ) *)

Section Matcher.
Context {R : Type}.

Fixpoint starK (c : N -> bool) (s : jsstring) (k : jsstring -> option R) : option R :=
  match s with
  | x :: s' =>
      if c x then
        match starK c s' k with
        | Some r => Some r
        | None => k s
        end
      else k s
  | [] => k s
  end.

Fixpoint repK (c : N -> bool) (lo hi : nat) (s : jsstring)
    (k : jsstring -> option R) : option R :=
  let stop := if (lo =? 0)%nat then k s else None in
  match hi with
  | O => stop
  | S hi' =>
      match s with
      | x :: s' =>
          if c x then
            match repK c (pred lo) hi' s' k with
            | Some r => Some r
            | None => stop
            end
          else stop
      | [] => stop
      end
  end.

Fixpoint run (r : regex) (s : jsstring) (caps : list jsstring)
    (k : jsstring -> list jsstring -> option R) : option R :=
  match r with
  | Cls c =>
      match s with
      | x :: s' => if c x then k s' caps else None
      | [] => None
      end
  | Seq r1 r2 => run r1 s caps (fun s' caps' => run r2 s' caps' k)
  | Alt r1 r2 =>
      match run r1 s caps k with
      | Some res => Some res
      | None => run r2 s caps k
      end
  | Rep c lo hi => repK c lo hi s (fun s' => k s' caps)
  | Star c => starK c s (fun s' => k s' caps)
  | Group r1 =>
      run r1 s caps
        (fun s' caps' => k s' (caps' ++ [take (length s - length s') s]))
  end.

End Matcher.

(** The captures of a match that starts at the head of [s]. *)
Definition matchAt (r : regex) (s : jsstring) : option (list jsstring) :=
  run r s [] (fun _ caps => Some caps).

(** [String.prototype.match] with a pattern without the [g] flag: the
    captures of the leftmost match. *)
Fixpoint stringMatch (r : regex) (s : jsstring) : option (list jsstring) :=
  match matchAt r s with
  | Some caps => Some caps
  | None =>
      match s with
      | [] => None
      | _ :: s' => stringMatch r s'
      end
  end.

(** [\d] *)
Definition isDigit (c : N) : bool := (48 <=? c)%N && (c <=? 57)%N.

(** [\s], which is also what [parseInt] skips. *)
Definition isSpace (c : N) : bool :=
  ((9 <=? c)%N && (c <=? 13)%N) || (c =? 32)%N || (c =? 160)%N ||
  (c =? 5760)%N || ((8192 <=? c)%N && (c <=? 8202)%N) || (c =? 8232)%N ||
  (c =? 8233)%N || (c =? 8239)%N || (c =? 8287)%N || (c =? 12288)%N ||
  (c =? 65279)%N.

(** A letter under the [i] flag: [upper] is the code unit of the capital. *)
Definition letter (upper : N) (c : N) : bool :=
  (c =? upper)%N || (c =? upper + 32)%N.

(** [[-–—]] *)
Definition isDash (c : N) : bool :=
  (c =? 45)%N || (c =? 8211)%N || (c =? 8212)%N.

Definition isColon (c : N) : bool := (c =? 58)%N.

(** [(\d{1,2}):(\d{2})\s*(AM|PM)] *)
Definition timeOfDay : regex :=
  Seq (Group (Rep isDigit 1 2))
    (Seq (Cls isColon)
       (Seq (Group (Rep isDigit 2 2))
          (Seq (Star isSpace)
             (Group (Alt (Seq (Cls (letter 65)) (Cls (letter 77)))
                         (Seq (Cls (letter 80)) (Cls (letter 77)))))))).

(** [/(\d{1,2}):(\d{2})\s*(AM|PM)\s*[-–—]\s*(\d{1,2}):(\d{2})\s*(AM|PM)/i] *)
Definition hoursPattern : regex :=
  Seq timeOfDay (Seq (Star isSpace) (Seq (Cls isDash) (Seq (Star isSpace) timeOfDay))).

(** *** [parseInt]

    [None] is NaN.  The numbers of this module are whole and far below
    2^53, where the arithmetic of the language is exact. *)

Definition digitValue (radix : Z) (c : N) : option Z :=
  let v :=
    if isDigit c then Some (Z.of_N c - 48)%Z
    else if (97 <=? c)%N && (c <=? 122)%N then Some (Z.of_N c - 87)%Z
    else if (65 <=? c)%N && (c <=? 90)%N then Some (Z.of_N c - 55)%Z
    else None in
  match v with
  | Some d => if (d <? radix)%Z then Some d else None
  | None => None
  end.

(** The value of the longest prefix of digits, with [acc] the value so far
    and [any] whether a digit has been read. *)
Fixpoint digitsFrom (radix : Z) (s : jsstring) (acc : Z) (any : bool) : option Z :=
  match s with
  | c :: s' =>
      match digitValue radix c with
      | Some d => digitsFrom radix s' (acc * radix + d)%Z true
      | None => if any then Some acc else None
      end
  | [] => if any then Some acc else None
  end.

Fixpoint skipSpace (s : jsstring) : jsstring :=
  match s with
  | c :: s' => if isSpace c then skipSpace s' else s
  | [] => []
  end.

Definition parseInt (s : jsstring) : option Z :=
  let s := skipSpace s in
  let '(neg, s) :=
    match s with
    | 45%N :: s' => (true, s')
    | 43%N :: s' => (false, s')
    | _ => (false, s)
    end in
  let '(radix, s) :=
    match s with
    | 48%N :: 120%N :: s' | 48%N :: 88%N :: s' => (16%Z, s')
    | _ => (10%Z, s)
    end in
  match digitsFrom radix s 0 false with
  | Some v => Some (if neg then (- v)%Z else v)
  | None => None
  end.

(** *** The resolver *)

(** One element of what [formatToParts] returns. *)
Record Part := { p_type : jsstring; p_value : jsstring }.

(** [parts.find(p => p.type === t)?.value || dflt] *)
Definition partValue (parts : list Part) (t dflt : jsstring) : jsstring :=
  match List.find (fun p => JsString.eqb (p_type p) t) parts with
  | Some p => if truthy (Some (p_value p)) then p_value p else dflt
  | None => dflt
  end.

(** [weekdayText.find(text => text.startsWith(weekday))]; an element that
    is not a string has no [startsWith], and the call throws. *)
Fixpoint findToday (weekday : jsstring) (weekdayText : list (option jsstring))
    : exc (option jsstring) :=
  match weekdayText with
  | [] => Ok None
  | None :: _ => Throw (js "text.startsWith is not a function")
  | Some text :: rest =>
      if startsWith text weekday then Ok (Some text) else findToday weekday rest
  end.

(** The six captures converted: minutes since midnight of the two
    endpoints. *)
Definition toMinutes (hour min period : jsstring) : option Z :=
  match parseInt hour, parseInt min with
  | Some h, Some m =>
      let t := (h * 60 + m)%Z in
      let t :=
        if JsString.eqb (toUpperCase period) (js "PM") && negb (h =? 12)%Z
        then (t + 12 * 60)%Z else t in
      let t :=
        if JsString.eqb (toUpperCase period) (js "AM") && (h =? 12)%Z
        then m else t in
      Some t
  | _, _ => None
  end.

(** The body of the [try] block.  [intl timezone] is what
    [new Intl.DateTimeFormat('en-US', {timeZone, ...}).formatToParts(now)]
    gives at the time of the call; it throws for a time zone that the host
    does not know. *)
Definition body (intl : jsstring -> exc (list Part))
    (weekdayText : list (option jsstring)) (timezone : jsstring) : exc bool :=
  match intl timezone with
  | Throw msg => Throw msg
  | Ok parts =>
      let weekday := partValue parts (js "weekday") [] in
      let hour := parseInt (partValue parts (js "hour") (js "0")) in
      let minute := parseInt (partValue parts (js "minute") (js "0")) in
      let currentTime :=
        match hour, minute with
        | Some h, Some m => Some (h * 60 + m)%Z
        | _, _ => None
        end in
      match findToday weekday weekdayText with
      | Throw msg => Throw msg
      | Ok None => Ok false
      | Ok (Some todayHours) =>
          if negb (truthy (Some todayHours)) then Ok false
          else if includes (toLowerCase todayHours) (js "closed") then Ok false
          else
            match stringMatch hoursPattern todayHours with
            | Some [openHour; openMin; openPeriod; closeHour; closeMin; closePeriod] =>
                match currentTime, toMinutes openHour openMin openPeriod,
                      toMinutes closeHour closeMin closePeriod with
                | Some t, Some openTime, Some closeTime =>
                    Ok ((openTime <=? t)%Z && (t <? closeTime)%Z)
                | _, _, _ => Ok false
                end
            | _ => Ok false
            end
      end
  end.

Definition calculateOpenNowFromWeekdayText (intl : jsstring -> exc (list Part))
    (weekdayText : option (list (option jsstring))) (timezone : jsstring) : bool :=
  match weekdayText with
  | None | Some [] => false
  | Some lines =>
      match body intl lines timezone with
      | Ok b => b
      | Throw _ => false
      end
  end.

(** The clock of a host whose formatter knows every time zone and reads
    [weekday], [hour]:[minute] in it. *)
Definition clockAt (weekday : string) (hour minute : N) : jsstring -> exc (list Part) :=
  fun _ =>
    Ok [ {| p_type := js "weekday"; p_value := js weekday |};
         {| p_type := js "literal"; p_value := js " " |};
         {| p_type := js "hour"; p_value := decimal hour |};
         {| p_type := js "literal"; p_value := js ":" |};
         {| p_type := js "minute"; p_value := decimal minute |} ].
Arguments clockAt weekday%_string hour%_N minute%_N.

(** Minutes since midnight of a 12-hour time, in the words of the
    specification: 12 AM is 00:MM, 12 PM is 12:MM, and any other hour of the
    afternoon is twelve hours after the same hour of the morning. *)
Definition spec_minutes (h m : Z) (pm : bool) : Z :=
  if (h =? 12)%Z then (if pm then 12 * 60 + m else m)%Z
  else (if pm then (h + 12) * 60 + m else h * 60 + m)%Z.

(** [line] is the first element of [lines] that starts with [weekday], and
    every element before it is a string. *)
Definition todaysLine (weekday : jsstring) (lines : list (option jsstring))
    (line : jsstring) : Prop :=
  exists before after,
    lines = (Some <$> before) ++ Some line :: after /\
    Forall (fun text => startsWith text weekday = false) before /\
    startsWith line weekday = true.

(** *** Lines of the form  H:MM AM - H:MM PM *)

(** The value of a string of decimal digits. *)
Definition decimalValue (s : jsstring) : Z :=
  foldl (fun acc c => (acc * 10 + (Z.of_N c - 48))%Z) 0%Z s.

Definition digits (s : jsstring) : Prop := Forall (fun c => isDigit c = true) s.
Definition spaces (s : jsstring) : Prop := Forall (fun c => isSpace c = true) s.

(** One endpoint as it is written: one or two digits, a colon, two digits,
    any white space, and AM or PM in any case. *)
Record TimeText := {
  t_hour : jsstring;
  t_min : jsstring;
  t_gap : jsstring;
  t_period : jsstring;
  t_pm : bool
}.

Definition timeOk (t : TimeText) : Prop :=
  digits (t_hour t) /\ (length (t_hour t) = 1 \/ length (t_hour t) = 2) /\
  digits (t_min t) /\ length (t_min t) = 2 /\
  spaces (t_gap t) /\
  toUpperCase (t_period t) = (if t_pm t then js "PM" else js "AM").

Definition renderTime (t : TimeText) : jsstring :=
  t_hour t ++ [58%N] ++ t_min t ++ t_gap t ++ t_period t.

(** The minutes since midnight that the endpoint stands for. *)
Definition timeMinutes (t : TimeText) : Z :=
  spec_minutes (decimalValue (t_hour t)) (decimalValue (t_min t)) (t_pm t).

(** A range as it is written: two endpoints around a hyphen, an en dash or
    an em dash, with any white space around the dash. *)
Record RangeText := {
  r_open : TimeText;
  r_gap1 : jsstring;
  r_dash : N;
  r_gap2 : jsstring;
  r_close : TimeText
}.

Definition rangeOk (r : RangeText) : Prop :=
  timeOk (r_open r) /\ spaces (r_gap1 r) /\ isDash (r_dash r) = true /\
  spaces (r_gap2 r) /\ timeOk (r_close r).

Definition renderRange (r : RangeText) : jsstring :=
  renderTime (r_open r) ++ r_gap1 r ++ [r_dash r] ++ r_gap2 r ++ renderTime (r_close r).

(** [line] carries the range [r] as its first time range: nothing before it
    holds a digit. *)
Definition carries (line : jsstring) (r : RangeText) : Prop :=
  exists before after,
    line = before ++ renderRange r ++ after /\
    Forall (fun c => isDigit c = false) before.

(** The six captures of a range, in the order of the groups. *)
Definition captures (r : RangeText) : list jsstring :=
  [ t_hour (r_open r); t_min (r_open r); t_period (r_open r);
    t_hour (r_close r); t_min (r_close r); t_period (r_close r) ].

(** [line] holds the range [r] somewhere. *)
Definition holds (line : jsstring) (r : RangeText) : Prop :=
  exists before after, line = before ++ renderRange r ++ after.

(** *** What a pattern matches

    [shape r a caps]: the pattern [r] matches exactly the string [a], and
    its groups capture [caps]. *)
Inductive shape : regex -> jsstring -> list jsstring -> Prop :=
| shape_cls c x :
    c x = true -> shape (Cls c) [x] []
| shape_seq r1 r2 a b c1 c2 :
    shape r1 a c1 -> shape r2 b c2 -> shape (Seq r1 r2) (a ++ b) (c1 ++ c2)
| shape_alt_l r1 r2 a c :
    shape r1 a c -> shape (Alt r1 r2) a c
| shape_alt_r r1 r2 a c :
    shape r2 a c -> shape (Alt r1 r2) a c
| shape_rep c lo hi ds :
    Forall (fun x => c x = true) ds -> lo <= length ds -> length ds <= hi ->
    shape (Rep c lo hi) ds []
| shape_star c ws :
    Forall (fun x => c x = true) ws -> shape (Star c) ws []
| shape_group r a c :
    shape r a c -> shape (Group r) a (c ++ [a]).

(** *** Greedy matches

    [greedy r a newcaps rest]: on [a ++ rest] the first path that the
    matcher tries through [r] consumes [a] and records [newcaps], so that a
    continuation that succeeds on [rest] decides the result. *)
Definition greedy (r : regex) (a : jsstring) (newcaps : list jsstring)
    (rest : jsstring) : Prop :=
  forall (R : Type) (caps : list jsstring)
         (k : jsstring -> list jsstring -> option R) (res : R),
    k rest (caps ++ newcaps) = Some res -> run r (a ++ rest) caps k = Some res.

(** A repetition of class [c] cannot go on into [rest]. *)
Definition stops (c : N -> bool) (rest : jsstring) : Prop :=
  match rest with
  | [] => True
  | x :: _ => c x = false
  end.

(** The week of the specification's example: Monday from nine to five. *)
Definition mondayNineToFive : jsstring :=
  js "Monday: 9:00 AM " ++ [8211%N] ++ js " 5:00 PM".

Definition nineToFive : RangeText :=
  {| r_open := {| t_hour := js "9"; t_min := js "00"; t_gap := js " ";
                  t_period := js "AM"; t_pm := false |};
     r_gap1 := js " "; r_dash := 8211; r_gap2 := js " ";
     r_close := {| t_hour := js "5"; t_min := js "00"; t_gap := js " ";
                   t_period := js "PM"; t_pm := true |} |}.

End OpenNow.

(* ===================================================================== *)
(** ** What a call is given *)
(* ===================================================================== *)

(** The input of the deduplication, told apart from it: the candidates that
    the service lists in the course of one call, in the order in which the
    loops of the call meet them. *)
Module Listing.

(** *** The candidates of a [collectState] call *)

(** The places that the service lists for the query [q], page after page
    while there is a token, from request [n] of the run on, and the number of
    these pages: what the [do ... while] loop of [collectState] goes through
    when no cap is set, before any classification or deduplication. *)
Fixpoint ofQuery (fuel : nat) (env : Collector.Env) (q : jsstring)
    (pageToken : option jsstring) (n : nat) : list (option Place) * nat :=
  match fuel with
  | O => ([], 0)
  | S fuel' =>
      match Collector.upstream env n q (if truthy pageToken then pageToken else None) with
      | Http status _ (Some data) =>
          if negb (ok status) then ([], 1)
          else
            match default (PlacesArray []) (places data) with
            | PlacesArray ps =>
                let pageToken :=
                  if truthy (nextPageToken data) then nextPageToken data else None in
                if truthy pageToken then
                  let '(rest, k) := ofQuery fuel' env q pageToken (S n) in
                  (ps ++ rest, S k)
                else (ps, 1)
            | PlacesOther => ([], 1)
            end
      | _ => ([], 1)
      end
  end.

(** The same for the queries [qs], one after the other. *)
Fixpoint ofQueries (fuel : nat) (env : Collector.Env) (qs : list jsstring) (n : nat)
    : list (option Place) :=
  match qs with
  | [] => []
  | q :: rest =>
      let '(ps, k) := ofQuery fuel env q None n in
      ps ++ ofQueries fuel env rest (n + k)
  end.

(** [p] is, among [cands], the first candidate with its identifier that the
    classifier accepts, and the identifier is not empty. *)
Definition firstAccepted (p : Place) (cands : list (option Place)) : Prop :=
  exists before after i,
    cands = before ++ Some p :: after /\
    acceptByDermHeuristics p = true /\ id p = Some i /\ i <> [] /\
    forall p', Some p' ∈ before -> acceptByDermHeuristics p' = true -> id p' <> Some i.

(** [l] holds what is to be kept of [cands]: it has seen the identifiers of
    the accepted candidates, and it stores the clinics of the first of
    each. *)
Definition kept (env : Collector.Env) (cands : list (option Place))
    (l : Collector.Local) : Prop :=
  (forall i, i ∈ Collector.seen l <->
     i <> [] /\ exists p, Some p ∈ cands /\ acceptByDermHeuristics p = true /\
                          id p = Some i) /\
  (forall c, c ∈ Collector.clinics l <->
     exists p, c = Collector.toClinic env p /\ firstAccepted p cands).

(** The request [n] of the run was for the query [q], and it was answered
    with a response that is OK and whose body is JSON. *)
Definition answered (env : Collector.Env) (q : jsstring) (n : nat) : Prop :=
  exists tok s t data,
    Collector.upstream env n q tok = Http s t (Some data) /\ ok s = true.

(** *** The clinics of a search of the library *)

(** The clinics of the pages of the query [q], transformed, page after page
    while there is a token and the limit allows, and the state of the
    process after them: the batches that [searchDermClinicsText] merges. *)
Fixpoint ofTextQuery (fuel : nat) (host : GooglePlaces.Host) (q : jsstring)
    (pageLimitPerQuery : nat) (pageToken : option jsstring) (pagesFetched : nat)
    (st : GooglePlaces.Net) : list Clinic * GooglePlaces.Net :=
  match fuel with
  | O => ([], st)
  | S fuel' =>
      match GooglePlaces.searchDermClinicsTextPage host q pageToken st with
      | Some (Ok (places, nextPageToken), st1) =>
          match GooglePlaces.transformPlacesResponse host places with
          | Ok batch =>
              let pagesFetched := pagesFetched + 1 in
              if truthy nextPageToken && (pagesFetched <? pageLimitPerQuery) then
                let '(rest, st2) :=
                  ofTextQuery fuel' host q pageLimitPerQuery nextPageToken
                    pagesFetched st1 in
                (batch ++ rest, st2)
              else (batch, st1)
          | Throw _ => ([], st1)
          end
      | Some (Throw _, st1) => ([], st1)
      | None => ([], st)
      end
  end.

Fixpoint ofTextQueries (host : GooglePlaces.Host) (queries : list jsstring)
    (pageLimitPerQuery : nat) (st : GooglePlaces.Net) : list Clinic :=
  match queries with
  | [] => []
  | q :: rest =>
      let '(batch, st1) :=
        ofTextQuery (S pageLimitPerQuery) host q pageLimitPerQuery None 0 st in
      batch ++ ofTextQueries host rest pageLimitPerQuery st1
  end.

(** The batches that [searchDermClinicsGrid] merges: the results of the
    nearby search at each point. *)
Fixpoint ofPoints (host : GooglePlaces.Host) (points : list Location) (radiusMeters : Z)
    (st : GooglePlaces.Net) : list Clinic :=
  match points with
  | [] => []
  | p :: rest =>
      match GooglePlaces.searchDermClinics host p radiusMeters GooglePlaces.DISTANCE st with
      | Some (Ok batch, st1) => batch ++ ofPoints host rest radiusMeters st1
      | _ => []
      end
  end.

Definition ofGrid (fuel : nat) (host : GooglePlaces.Host) (bounds : Bounds)
    (radiusMeters : Z) (stepDeg : spec_float) (st : GooglePlaces.Net) : list Clinic :=
  match Grid.generateGridPoints fuel bounds stepDeg with
  | Some points => ofPoints host points radiusMeters st
  | None => []
  end.

(** [c] is the first clinic of [batch] with its identifier. *)
Definition firstOfItsId (c : Clinic) (batch : list Clinic) : Prop :=
  exists before after,
    batch = before ++ c :: after /\
    forall c', c' ∈ before -> place_id c' <> place_id c.

(** [a] holds what is to be kept of [batch]. *)
Definition merged (batch : list Clinic) (a : GooglePlaces.Acc) : Prop :=
  (forall i, i ∈ GooglePlaces.seen a <-> i ∈ place_id <$> batch) /\
  (forall c, c ∈ GooglePlaces.all a <-> firstOfItsId c batch).

End Listing.

(* ===================================================================== *)
(** ** Concrete runs *)
(* ===================================================================== *)

Module Scenario.

(** The defaults of the script, with a request cap of [maxRequests]. *)
Definition config (maxRequests : nat) : Collector.Config :=
  {| Collector.QPS := 3; Collector.NEXT_PAGE_DELAY_MS := 1200;
     Collector.MAX_REQUESTS := maxRequests;
     Collector.MAX_CLINICS_PER_STATE := 0; Collector.MAX_CLINICS_GLOBAL := 0 |}.

(** A dermatology practice with identifier [i]. *)
Definition practice (i : string) : Place :=
  {| id := Some (js i); displayName := Some (js "Lakeside Dermatology");
     formattedAddress := None; addressComponents := None; location := None;
     primaryType := None; types := Some [js "doctor"]; websiteUri := None;
     openNow := None; regularOpeningHours := None |}.
Arguments practice i%_string.

Definition page (ps : list Place) (token : option jsstring) : Page :=
  {| places := Some (PlacesArray (Some <$> ps)); nextPageToken := token |}.

(** The file of a state for a run started in [/app], when the code of the
    state consists of ASCII letters, as the codes of these runs do: such a
    name is lower-cased letter by letter and is a single segment. *)
Definition stateFile (stateCode : jsstring) : jsstring :=
  js "/app/data/clinics/" ++ toLowerCase stateCode ++ js ".json".

(** A service that answers every query with the one practice "x", on a
    single page. *)
Definition sameEverywhere : Collector.Env :=
  {| Collector.upstream := fun _ _ _ => Http 200 (js "OK") (Some (page [practice "x"] None));
     Collector.today := js "2025-01-01";
     Collector.outPath := stateFile |}.

(** A service that puts a continuation token on every page. *)
Definition endless : Collector.Env :=
  {| Collector.upstream := fun _ _ _ => Http 200 (js "OK") (Some (page [] (Some (js "next"))));
     Collector.today := js "2025-01-01";
     Collector.outPath := stateFile |}.

(** The globals after one more page of a paginated query: the request is
    counted and throttled, and the delay between pages is slept. *)
Definition turnPage (cfg : Collector.Config) (g : Collector.Globals) : Collector.Globals :=
  Collector.SLEEP (Collector.NEXT_PAGE_DELAY_MS cfg) (Collector.gate cfg g).

(** Timers that fire when they are due. *)
Definition onTime (k : nat) (t ms : Z) : Z := (t + Z.max 0 ms)%Z.

(** A process that has not called the service yet. *)
Definition fresh : GooglePlaces.Net :=
  {| GooglePlaces.clock := 1000000; GooglePlaces.lastCallAt := 0;
     GooglePlaces.calls := 0; GooglePlaces.sleeps := [] |}.

(** A host with an API key whose service gives every request the reply
    [r]. *)
Definition always (r : Reply) : GooglePlaces.Host :=
  {| GooglePlaces.upstream := fun _ _ => r;
     GooglePlaces.latency := fun _ => 120%Z;
     GooglePlaces.random := fun n => Z.of_nat (37 * n);
     GooglePlaces.apiKey := Some (js "key");
     GooglePlaces.today := js "2025-01-01";
     GooglePlaces.wake := onTime |}.

(** The service is down, and the service is up and finds nothing. *)
Definition down : GooglePlaces.Host := always (Http 503 (js "Service Unavailable") None).
Definition nothingFound : GooglePlaces.Host := always (Http 200 (js "OK") (Some (page [] None))).

(** A service that answers 503 twice and then 404. *)
Definition flaky : GooglePlaces.Host :=
  {| GooglePlaces.upstream := fun n _ =>
       if (n <? 2)%nat then Http 503 (js "Service Unavailable") None
       else Http 404 (js "Not Found") None;
     GooglePlaces.latency := fun _ => 120%Z;
     GooglePlaces.random := fun n => Z.of_nat (37 * n);
     GooglePlaces.apiKey := Some (js "key");
     GooglePlaces.today := js "2025-01-01";
     GooglePlaces.wake := onTime |}.

Definition somewhere : Location := {| lat := Num.lit 30 0; lng := Num.lit (-90) 0 |}.

End Scenario.

Import OpenNow.
Import Collector.
Module GP := GooglePlaces.

(* ===================================================================== *)
(** ** More runs of the collection script *)
(* ===================================================================== *)

Module Runs.

(** A service whose first answer is a 500 and which lists the practice "x"
    from then on. *)
Definition failsOnce : Collector.Env :=
  {| Collector.upstream := fun n _ _ =>
       if (n =? 0)%nat then Http 500 (js "Internal Server Error") None
       else Http 200 (js "OK") (Some (Scenario.page [Scenario.practice "x"] None));
     Collector.today := js "2025-01-01";
     Collector.outPath := Scenario.stateFile |}.

(** A service that lists the practices "a", "b" and "c" on every page. *)
Definition three : Collector.Env :=
  {| Collector.upstream := fun _ _ _ =>
       Http 200 (js "OK")
         (Some (Scenario.page
                  [Scenario.practice "a"; Scenario.practice "b"; Scenario.practice "c"]
                  None));
     Collector.today := js "2025-01-01";
     Collector.outPath := Scenario.stateFile |}.

(** The defaults of the script with a global cap of [cap] clinics. *)
Definition capped (cap : nat) : Collector.Config :=
  {| Collector.QPS := 3; Collector.NEXT_PAGE_DELAY_MS := 1200;
     Collector.MAX_REQUESTS := 800;
     Collector.MAX_CLINICS_PER_STATE := 0; Collector.MAX_CLINICS_GLOBAL := cap |}.


(** A dermatology practice whose identifier is the number [n]. *)
Definition numbered (n : nat) : Place :=
  {| id := Some (decimal (N.of_nat n)); displayName := Some (js "Lakeside Dermatology");
     formattedAddress := None; addressComponents := None; location := None;
     primaryType := None; types := Some [js "doctor"]; websiteUri := None;
     openNow := None; regularOpeningHours := None |}.

(** A service that answers the [n]-th request with the two practices
    [2n] and [2n + 1]. *)
Definition alwaysNew : Collector.Env :=
  {| Collector.upstream := fun n _ _ =>
       Http 200 (js "OK")
         (Some (Scenario.page [numbered (2 * n); numbered (2 * n + 1)] None));
     Collector.today := js "2025-01-01";
     Collector.outPath := Scenario.stateFile |}.

(** The defaults of the script with a cap of [cap] clinics per state. *)
Definition cappedPerState (cap : nat) : Collector.Config :=
  {| Collector.QPS := 3; Collector.NEXT_PAGE_DELAY_MS := 1200;
     Collector.MAX_REQUESTS := 800;
     Collector.MAX_CLINICS_PER_STATE := cap; Collector.MAX_CLINICS_GLOBAL := 0 |}.

(** A host whose environment has no API key. *)
Definition noKey : GooglePlaces.Host :=
  {| GooglePlaces.upstream := fun _ _ => Http 200 (js "OK") (Some (Scenario.page [] None));
     GooglePlaces.latency := fun _ => 120%Z;
     GooglePlaces.random := fun n => Z.of_nat (37 * n);
     GooglePlaces.apiKey := None;
     GooglePlaces.today := js "2025-01-01";
     GooglePlaces.wake := Scenario.onTime |}.

(** A process whose last call returned 100 ms ago. *)
Definition justCalled : GooglePlaces.Net :=
  {| GooglePlaces.clock := 1000100; GooglePlaces.lastCallAt := 1000000;
     GooglePlaces.calls := 1; GooglePlaces.sleeps := [] |}.

(** A host that answers at once, and each timer of which fires when
    [Date.now()] has advanced by one millisecond less than the delay. *)
Definition hasty : GooglePlaces.Host :=
  {| GooglePlaces.upstream := fun _ _ => Http 200 (js "OK") (Some (Scenario.page [] None));
     GooglePlaces.latency := fun _ => 0%Z;
     GooglePlaces.random := fun n => Z.of_nat (37 * n);
     GooglePlaces.apiKey := Some (js "key");
     GooglePlaces.today := js "2025-01-01";
     GooglePlaces.wake := fun _ t ms => (t + ms - 1)%Z |}.

End Runs.

(* ===================================================================== *)
(** ** The shape of a grid *)
(* ===================================================================== *)

Module GridShape.

(** The first [n] values of a loop variable that starts at [x] and is
    advanced by [x += step]. *)
Fixpoint steps (n : nat) (x step : spec_float) : list spec_float :=
  match n with
  | O => []
  | S n' => x :: steps n' (Num.add x step) step
  end.

(** The point that the loops push for the values [la] and [ln] of their
    variables. *)
Definition point (la ln : spec_float) : Location :=
  {| lat := Grid.round6 la; lng := Grid.round6 ln |}.

(** The rows of [lats], each with the columns [lngs]. *)
Definition rect (lats lngs : list spec_float) : list Location :=
  la ← lats; point la <$> lngs.

End GridShape.

(* ===================================================================== *)
(** ** The duplicate check over the collected files *)
(* ===================================================================== *)

Module DedupeCheck.

(** An entry of [duplicates]. *)
Record Duplicate := {
  d_id : option jsstring;
  d_name : option jsstring;
  d_file : jsstring
}.

(** The three variables of the script: the set [allIds], the list
    [duplicates] and the counter [total]. *)
Record Report := {
  allIds : gset (option jsstring);
  duplicates : list Duplicate;
  total : nat
}.

Definition start : Report := {| allIds := ∅; duplicates := []; total := 0 |}.

(** The body of [clinics.forEach]. *)
Definition visit (file : jsstring) (r : Report) (c : Clinic) : Report :=
  let total := S (total r) in
  if bool_decide (place_id c ∈ allIds r) then
    {| allIds := allIds r;
       duplicates :=
         duplicates r ++
         [{| d_id := place_id c; d_name := display_name c; d_file := file |}];
       total := total |}
  else
    {| allIds := {[ place_id c ]} ∪ allIds r;
       duplicates := duplicates r;
       total := total |}.

(** The body of [files.forEach] for a file with the name [fst f] whose
    [clinics] member is [snd f]. *)
Definition visitFile (r : Report) (f : jsstring * list Clinic) : Report :=
  foldl (visit (fst f)) r (snd f).

Definition check (files : list (jsstring * list Clinic)) : Report :=
  foldl visitFile start files.

(** The clinics of all files in the order of the visits, each with the name
    of its file, and the visit of one of them. *)
Definition entries (files : list (jsstring * list Clinic)) : list (jsstring * Clinic) :=
  files ≫= (fun f => pair (fst f) <$> snd f).

Definition visitEntry (r : Report) (e : jsstring * Clinic) : Report :=
  visit (fst e) r (snd e).

(** The files that a run of the collection script has written, as the
    check reads them, each under its path. *)
Definition written (g : Collector.Globals) : list (jsstring * list Clinic) :=
  (fun f => (fst f, Collector.pl_clinics (snd f))) <$> map_to_list (Collector.files g).

End DedupeCheck.

(* ===================================================================== *)
(** ** The merge of a POST to the file-based /api/clinics *)
(* ===================================================================== *)

Module Merge.

(** A [Map] from identifiers to clinics, in insertion order. *)
Definition JsMap : Type := list (option jsstring * Clinic).

(** [Map.prototype.set]: the value of a key that is present is replaced
    where it is; a new key goes to the end. *)
Fixpoint set (k : option jsstring) (v : Clinic) (m : JsMap) : JsMap :=
  match m with
  | [] => [(k, v)]
  | (k', v') :: m' =>
      if bool_decide (k' = k) then (k, v) :: m' else (k', v') :: set k v m'
  end.

(** [Array.from(map.values())] *)
Definition values (m : JsMap) : list Clinic := snd <$> m.

Definition mergeClinics (existingClinics clinics : list Clinic) : list Clinic :=
  let clinicMap : JsMap := [] in
  let clinicMap := foldl (fun m clinic => set (place_id clinic) clinic m)
                     clinicMap existingClinics in
  let clinicMap := foldl (fun m clinic => set (place_id clinic) clinic m)
                     clinicMap clinics in
  values clinicMap.

(** [c] is the last clinic of [l] with its identifier. *)
Definition lastOfItsId (c : Clinic) (l : list Clinic) : Prop :=
  exists l1 l2, l = l1 ++ c :: l2 /\ forall c', c' ∈ l2 -> place_id c' <> place_id c.

End Merge.

(* ===================================================================== *)
(** ** More opening hours *)
(* ===================================================================== *)

Module Hours.

(** A practice that is open from ten in the evening to two in the
    morning. *)
Definition fridayNight : jsstring :=
  js "Friday: 10:00 PM " ++ [8211%N] ++ js " 2:00 AM".

Definition tenToTwo : RangeText :=
  {| r_open := {| t_hour := js "10"; t_min := js "00"; t_gap := js " ";
                  t_period := js "PM"; t_pm := true |};
     r_gap1 := js " "; r_dash := 8211; r_gap2 := js " ";
     r_close := {| t_hour := js "2"; t_min := js "00"; t_gap := js " ";
                   t_period := js "AM"; t_pm := false |} |}.

End Hours.

(* ===================================================================== *)
(** ** The time a run sleeps *)
(* ===================================================================== *)

Module Throttle.

(** The time that the sleeps of a run take; a timer with a negative delay
    fires at once. *)
Definition timeSlept (g : Collector.Globals) : Z :=
  foldr (fun ms t => (Z.max 0 ms + t)%Z) 0%Z (Collector.slept g).

(** [g'] has slept the delay of the gate for each request made since [g]. *)
Definition throttled (cfg : Collector.Config) (g g' : Collector.Globals) : Prop :=
  (timeSlept g +
   Z.max 0 (Collector.gateDelay cfg) *
     (Z.of_nat (Collector.REQUESTS g') - Z.of_nat (Collector.REQUESTS g))
   <= timeSlept g')%Z.

End Throttle.

(* ===================================================================== *)
(** * Properties *)
(* ===================================================================== *)

(** ** Strings *)

Lemma startsWith_spec (s p : jsstring) :
  startsWith s p = true <-> exists post, s = p ++ post.
Proof.
  revert s; induction p as [|x p IH]; intros s; simpl.
  - split; [intros _; by exists s | reflexivity].
  - destruct s as [|y s]; simpl.
    + split; [done | intros [post H]; discriminate].
    + rewrite andb_true_iff, N.eqb_eq, IH. split.
      * intros [-> [post ->]]. by exists post.
      * intros [post H]. injection H as -> ->. eauto.
Qed.

Lemma includes_spec (s t : jsstring) :
  includes s t = true <-> exists pre post, s = pre ++ t ++ post.
Proof.
  induction s as [|y s IH]; simpl.
  - rewrite orb_false_r, startsWith_spec. split.
    + intros [post H]. by exists [], post.
    + intros (pre & post & H). destruct pre; [by exists post | discriminate].
  - rewrite orb_true_iff, startsWith_spec, IH. split.
    + intros [[post H] | (pre & post & H)].
      * by exists [], post.
      * exists (y :: pre), post. by rewrite H.
    + intros (pre & post & H). destruct pre as [|z pre]; simpl in H.
      * left. by exists post.
      * right. injection H as _ ->. by exists pre, post.
Qed.

(** Containment is transitive: a text that contains [t] contains every
    piece of [t]. *)
Lemma includes_trans (s t u : jsstring) :
  includes s t = true -> includes t u = true -> includes s u = true.
Proof.
  rewrite !includes_spec. intros (a & b & ->) (c & d & ->).
  exists (a ++ c), (d ++ b). by rewrite <- !app_assoc.
Qed.

Lemma existsb_In_true {A} (f : A -> bool) (l : list A) (x : A) :
  In x l -> f x = true -> existsb f l = true.
Proof. intros Hin Hf. apply existsb_exists. eauto. Qed.

Lemma existsb_all_false {A} (f : A -> bool) (l : list A) :
  (forall x, In x l -> f x = false) -> existsb f l = false.
Proof.
  intros H. destruct (existsb f l) eqn:E; [|done].
  apply existsb_exists in E as (x & Hin & Hx). rewrite (H x Hin) in Hx. done.
Qed.

(** ** The classifier *)

(** The three scenarios of the specification. *)
Example classifier_scenarios :
  acceptByDermHeuristics (named "Bright Skin Dermatology Center" [js "doctor"]) = true /\
  acceptByDermHeuristics (named "Pampered Paws Pet Clinic" [js "veterinary_care"]) = false /\
  acceptByDermHeuristics (named "Glow Skin Boutique" [js "beauty_supply_store"]) = false.
Proof. repeat split; by vm_compute. Qed.

(** A weak signal needs medical context, and a store is turned away. *)
Example classifier_weak_signal :
  acceptByDermHeuristics (named "Derma Boutique" []) = false /\
  acceptByDermHeuristics (named "Derma Center" []) = true /\
  acceptByDermHeuristics (named "Skin Center Outlet" [js "store"]) = true /\
  acceptByDermHeuristics (named "Skin Outlet" [js "health"; js "store"]) = false.
Proof. repeat split; by vm_compute. Qed.

(** C3, as amended: a candidate whose combined lower-case text contains a
    term of the exclude list of the code (dental, dentist, orthodont, oral
    surgery, veterinary, animal clinic, pet clinic, massage, spa resort, day
    spa, nail salon) is rejected, whatever else the text contains; so is, in
    particular, one whose text contains "orthodontic". *)
Theorem exclude_dominates (p : Place) (term : jsstring) :
  (In term excludeTerms \/ term = js "orthodontic") ->
  includes (searchText p) term = true ->
  acceptByDermHeuristics p = false.
Proof.
  intros Hterm Hin. unfold acceptByDermHeuristics.
  assert (existsb (includes (searchText p)) excludeTerms = true) as ->; [|done].
  destruct Hterm as [Hterm | ->].
  - by apply existsb_In_true with term.
  - apply existsb_In_true with (js "orthodont").
    + vm_compute. tauto.
    + apply includes_trans with (js "orthodontic"); [done | by vm_compute].
Qed.

Lemma exclude_dominates_witness :
  (In (js "dental") excludeTerms \/ js "dental" = js "orthodontic") /\
  includes (searchText (named "Smith Dental & Dermatology Associates" []))
    (js "dental") = true /\
  includes (searchText (named "Smith Dental & Dermatology Associates" []))
    (js "dermatology") = true /\
  acceptByDermHeuristics (named "Smith Dental & Dermatology Associates" []) = false.
Proof.
  split; [left; vm_compute; tauto|].
  split; [by vm_compute|].
  split; [by vm_compute|].
  apply (exclude_dominates _ (js "dental")); [left; vm_compute; tauto | by vm_compute].
Defined.

(** C3, as stated, fails: "pet" is a term of the specification's exclude
    list, the text of "Pet Dermatology" contains it, and the candidate is
    accepted; so it is with each of the terms that the code spells
    otherwise: "animal", "spa-resort", "day-spa" and "nail-salon". *)
Lemma exclude_spec_list_counterexample :
  In (js "pet") spec_excludeTerms /\
  includes (searchText (named "Pet Dermatology" [])) (js "pet") = true /\
  acceptByDermHeuristics (named "Pet Dermatology" []) = true /\
  Forall (fun '(term, p) =>
            In term spec_excludeTerms /\ includes (searchText p) term = true /\
            acceptByDermHeuristics p = true)
    [ (js "animal", named "Animal Dermatology" []);
      (js "spa-resort", named "Dermatology Spa-Resort" []);
      (js "day-spa", named "Dermatology Day-Spa" []);
      (js "nail-salon", named "Dermatology Nail-Salon" []) ].
Proof.
  split; [vm_compute; tauto|]. split; [by vm_compute|]. split; [by vm_compute|].
  repeat (apply List.Forall_cons;
          [split; [vm_compute; tauto | split; by vm_compute]|]).
  apply List.Forall_nil.
Qed.

(** C4, as amended: a candidate whose text contains no exclude term and
    contains dermatology, dermatologist or dermatologic is accepted. *)
Theorem core_term_accepts (p : Place) (term : jsstring) :
  (forall t, In t excludeTerms -> includes (searchText p) t = false) ->
  In term coreTerms ->
  includes (searchText p) term = true ->
  acceptByDermHeuristics p = true.
Proof.
  intros Hex Hterm Hin. unfold acceptByDermHeuristics.
  rewrite (existsb_all_false _ _ Hex).
  destruct (includes (typesOf p) (js "skin_care_clinic")); [done|].
  by rewrite (existsb_In_true _ _ term Hterm Hin).
Qed.

Lemma core_term_accepts_witness :
  (forall t, In t excludeTerms ->
     includes (searchText (named "Bright Skin Dermatology Center" [js "doctor"])) t = false) /\
  In (js "dermatology") coreTerms /\
  includes (searchText (named "Bright Skin Dermatology Center" [js "doctor"]))
    (js "dermatology") = true /\
  acceptByDermHeuristics (named "Bright Skin Dermatology Center" [js "doctor"]) = true.
Proof.
  assert (forall t, In t excludeTerms ->
     includes (searchText (named "Bright Skin Dermatology Center" [js "doctor"])) t = false) as H.
  { intros t Ht. vm_compute in Ht.
    repeat (destruct Ht as [<- | Ht]; [by vm_compute|]). destruct Ht. }
  split; [exact H|].
  split; [vm_compute; tauto|].
  split; [by vm_compute|].
  apply (core_term_accepts _ (js "dermatology")); [exact H | vm_compute; tauto | by vm_compute].
Defined.

(** C4, as stated, fails: "derma" is a core term of the specification, the
    text of "Derma Boutique" contains it and contains no exclude term (of the
    code's list or of the specification's), and the candidate is rejected. *)
Lemma core_derma_counterexample :
  In (js "derma") spec_coreTerms /\
  includes (searchText (named "Derma Boutique" [])) (js "derma") = true /\
  existsb (includes (searchText (named "Derma Boutique" []))) excludeTerms = false /\
  existsb (includes (searchText (named "Derma Boutique" []))) spec_excludeTerms = false /\
  acceptByDermHeuristics (named "Derma Boutique" []) = false.
Proof. split; [vm_compute; tauto|]. repeat split; by vm_compute. Qed.

(** ** The deduplicating collector *)

Section CollectorInvariant.
Variables (cfg : Config) (env : Env).

Lemma add_distinct (p : Place) (l : Local) :
  distinct l -> distinct (fst (add env p l)).
Proof.
  intros [Hnd Hseen]. unfold add.
  destruct (id p) as [i|] eqn:Hid; [|done].
  destruct (truthy (Some i)); [|done].
  destruct (bool_decide_reflect (i ∈ seen l)) as [Hin|Hout]; simpl; [done|].
  split; simpl.
  - rewrite fmap_app. apply NoDup_app. split; [done|]. split.
    + intros x Hx. simpl. rewrite Hid. intros ->%list_elem_of_singleton. auto.
    + simpl. apply NoDup_singleton.
  - intros j. rewrite fmap_app, elem_of_app. simpl. rewrite Hid.
    intros [Hj | Hj]; [apply elem_of_union_r; auto | ].
    apply list_elem_of_singleton in Hj. injection Hj as Hj. subst j.
    apply elem_of_union_l. by apply elem_of_singleton.
Qed.

Lemma add_inserted (p : Place) (l : Local) :
  snd (add env p l) = true ->
  exists i, id p = Some i /\ (i ∉ seen l) /\
            fst (add env p l) =
              {| seen := {[ i ]} ∪ seen l; clinics := clinics l ++ [toClinic env p] |}.
Proof.
  unfold add. destruct (id p) as [i|]; [|done].
  destruct (truthy (Some i)); [|done].
  destruct (bool_decide_reflect (i ∈ seen l)); simpl; [done|]. eauto.
Qed.

Lemma add_keeps (p : Place) (l : Local) :
  clinics l `prefix_of` clinics (fst (add env p l)).
Proof.
  unfold add. destruct (id p) as [i|]; [|done].
  destruct (truthy (Some i) && negb (bool_decide (i ∈ seen l))); simpl; [|done].
  by apply prefix_app_r.
Qed.

Lemma add_again (p p' : Place) (l : Local) :
  id p' = id p -> add env p' (fst (add env p l)) = (fst (add env p l), false).
Proof.
  intros Hid. unfold add at 1. rewrite Hid. unfold add.
  destruct (id p) as [i|]; [|done].
  destruct (truthy (Some i)) eqn:Ht; simpl; [|done].
  destruct (bool_decide_reflect (i ∈ seen l)) as [Hin|Hout]; simpl.
  - by rewrite bool_decide_true.
  - rewrite bool_decide_true; [done | set_solver].
Qed.

(** Whatever [add] preserves is preserved by the loops built on it. *)
Section Preserved.
Variable P : Local -> Prop.
Hypothesis P_add : forall p l, P l -> P (fst (add env p l)).

Lemma forPlaces_preserves (ps : list (option Place)) (l : Local) (g : Globals) :
  P l -> P (fst (fst (forPlaces cfg env ps l g))).
Proof.
  revert l g. induction ps as [|[p|] ps IH]; intros l g Hl; simpl; [done| |done].
  destruct (acceptByDermHeuristics p); simpl; [|by apply IH].
  pose proof (P_add p l Hl) as Hadd.
  destruct (add env p l) as [l' inserted]; simpl in Hadd.
  destruct inserted; [|by apply IH].
  repeat match goal with |- context [if ?b then _ else _] => destruct b end;
    simpl; auto.
Qed.

Lemma pagesLoop_preserves (fuel : nat) (q : jsstring) (tok : option jsstring)
    (n : nat) (l l' : Local) (g g' : Globals) :
  P l -> pagesLoop fuel cfg env q tok n l g = Some (Ok l', g') -> P l'.
Proof.
  revert tok n l g. induction fuel as [|fuel IH]; intros tok n l g Hl; simpl; [done|].
  destruct (searchTextOnce cfg env q tok g) as [[data|msg] g1]; [|done].
  destruct (default (PlacesArray []) (places data)) as [ps|]; [|done].
  pose proof (forPlaces_preserves ps l g1 Hl) as Hfor.
  destruct (forPlaces cfg env ps l g1) as [[l2 g2] ex]; simpl in Hfor.
  destruct ex; try done;
    (destruct (truthy (if truthy (nextPageToken data) then nextPageToken data else None));
     [by apply IH | by intros [= <- <-]]).
Qed.

Lemma forQueries_preserves (fuel : nat) (qs : list jsstring)
    (l l' : Local) (g g' : Globals) :
  P l -> forQueries fuel cfg env qs l g = Some (Ok l', g') -> P l'.
Proof.
  revert l g. induction qs as [|q qs IH]; intros l g Hl; simpl.
  - by intros [= <- <-].
  - destruct (pagesLoop fuel cfg env q None 0 l g) as [[[l1|msg] g1]|] eqn:E; try done.
    apply IH. by eapply pagesLoop_preserves.
Qed.

End Preserved.

Lemma collectState_distinct (fuel : nat) (stateCode : jsstring) (g g' : Globals) :
  collectState fuel cfg env stateCode g = Some (Ok tt, g') ->
  exists payload,
    files g' !! outPath env stateCode = Some payload /\
    pl_state payload = stateCode /\
    NoDup (place_id <$> pl_clinics payload).
Proof.
  unfold collectState.
  destruct (forQueries fuel cfg env (queriesOf stateCode) _ g)
    as [[[l1|msg] g1]|] eqn:E; try done.
  intros [= <-]. eexists. split; [apply lookup_insert_eq|]. split; [done|]. simpl.
  eapply (forQueries_preserves distinct add_distinct) in E as [Hnd _]; [done|].
  split; simpl; [constructor | set_solver].
Qed.

End CollectorInvariant.

Section MergeInvariant.
Variable host : GP.Host.

Lemma bind_Ok {A B} (m : GP.M A) (f : A -> GP.M B) (st st' : GP.Net) (b : B) :
  GP.bind m f st = Some (Ok b, st') ->
  exists a st1, m st = Some (Ok a, st1) /\ f a st1 = Some (Ok b, st').
Proof.
  unfold GP.bind. destruct (m st) as [[[a|msg] st1]|]; try done. eauto.
Qed.

Lemma gp_add_distinct (c : Clinic) (a : GP.Acc) :
  GP.distinct a -> GP.distinct (fst (GP.add c a)).
Proof.
  intros [Hnd Hseen]. unfold GP.add.
  destruct (bool_decide_reflect (place_id c ∈ GP.seen a)) as [Hin|Hout]; simpl; [done|].
  split; simpl.
  - rewrite fmap_app. apply NoDup_app. split; [done|]. split.
    + intros x Hx Hx'. apply list_elem_of_singleton in Hx'. subst x.
      apply list_elem_of_fmap in Hx as (c' & Heq & Hc'). apply Hseen in Hc'.
      by rewrite <- Heq in Hc'.
    + apply NoDup_singleton.
  - intros c'. rewrite elem_of_app, list_elem_of_singleton.
    intros [Hc' | ->]; [apply Hseen in Hc' |]; set_solver.
Qed.

Lemma gp_add_keeps (c : Clinic) (a : GP.Acc) :
  GP.all a `prefix_of` GP.all (fst (GP.add c a)).
Proof.
  unfold GP.add. destruct (negb _); simpl; [by apply prefix_app_r | done].
Qed.

Lemma gp_add_again (c c' : Clinic) (a : GP.Acc) :
  place_id c' = place_id c ->
  GP.add c' (fst (GP.add c a)) = (fst (GP.add c a), false).
Proof.
  intros Hid. unfold GP.add at 1. rewrite Hid. unfold GP.add.
  destruct (bool_decide_reflect (place_id c ∈ GP.seen a)) as [Hin|Hout]; simpl.
  - by rewrite bool_decide_true.
  - rewrite bool_decide_true; [done | set_solver].
Qed.

Lemma addBatch_distinct (batch : list Clinic) (a : GP.Acc) :
  GP.distinct a -> GP.distinct (GP.addBatch batch a).
Proof.
  unfold GP.addBatch. revert a.
  induction batch as [|c batch IH]; intros a Ha; simpl; [done|].
  apply IH. by apply gp_add_distinct.
Qed.

Lemma textPages_distinct (fuel : nat) (q : jsstring) (limit : nat)
    (tok : option jsstring) (n : nat) (a a' : GP.Acc) (st st' : GP.Net) :
  GP.distinct a ->
  GP.textPages fuel host q limit tok n a st = Some (Ok a', st') ->
  GP.distinct a'.
Proof.
  revert tok n a st. induction fuel as [|fuel IH]; intros tok n a st Ha; simpl; [done|].
  intros (page & st1 & _ & H)%bind_Ok. destruct page as [ps next].
  apply bind_Ok in H as (batch & st2 & _ & H).
  destruct (truthy next && (n + 1 <? limit)).
  - eapply IH; [|exact H]. by apply addBatch_distinct.
  - injection H as <- <-. by apply addBatch_distinct.
Qed.

Lemma textQueries_distinct (queries : list jsstring) (limit : nat)
    (a a' : GP.Acc) (st st' : GP.Net) :
  GP.distinct a ->
  GP.textQueries host queries limit a st = Some (Ok a', st') ->
  GP.distinct a'.
Proof.
  revert a st. induction queries as [|q queries IH]; intros a st Ha;
    cbn [GP.textQueries].
  - by intros [= <- <-].
  - intros (a1 & st1 & H1 & H)%bind_Ok. eapply IH; [|exact H].
    eapply textPages_distinct; [exact Ha | exact H1].
Qed.

Lemma searchDermClinicsText_distinct (queries : list jsstring) (limit : nat)
    (st st' : GP.Net) (cs : list Clinic) :
  GP.searchDermClinicsText host queries limit st = Some (Ok cs, st') ->
  NoDup (place_id <$> cs).
Proof.
  unfold GP.searchDermClinicsText.
  intros (a & st1 & H & [= <- <-])%bind_Ok.
  eapply textQueries_distinct in H as [Hnd _]; [done|].
  split; simpl; [constructor | set_solver].
Qed.

Lemma gridPoints_distinct (points : list Location) (radius : Z)
    (a a' : GP.Acc) (st st' : GP.Net) :
  GP.distinct a ->
  GP.gridPoints host points radius a st = Some (Ok a', st') ->
  GP.distinct a'.
Proof.
  revert a st. induction points as [|p points IH]; intros a st Ha;
    cbn [GP.gridPoints].
  - by intros [= <- <-].
  - intros (batch & st1 & _ & H)%bind_Ok. eapply IH; [|exact H].
    by apply addBatch_distinct.
Qed.

Lemma searchDermClinicsGrid_distinct (fuel : nat) (bounds : Bounds) (radius : Z)
    (stepDeg : spec_float) (st st' : GP.Net) (cs : list Clinic) :
  GP.searchDermClinicsGrid fuel host bounds radius stepDeg st = Some (Ok cs, st') ->
  NoDup (place_id <$> cs).
Proof.
  unfold GP.searchDermClinicsGrid.
  destruct (Grid.generateGridPoints fuel bounds stepDeg) as [points|]; [|done].
  intros (a & st1 & H & [= <- <-])%bind_Ok.
  eapply gridPoints_distinct in H as [Hnd _]; [done|].
  split; simpl; [constructor | set_solver].
Qed.

End MergeInvariant.

(** ** The first of each identifier is the one kept *)

Lemma truthy_nonempty (i : jsstring) : truthy (Some i) = true <-> i <> [].
Proof. destruct i; simpl; split; done. Qed.

Lemma firstAccepted_snoc (p : Place) (cands : list (option Place)) (x : option Place) :
  Listing.firstAccepted p (cands ++ [x]) <->
  Listing.firstAccepted p cands \/
  (x = Some p /\ acceptByDermHeuristics p = true /\
   exists i, id p = Some i /\ i <> [] /\
     forall p', Some p' ∈ cands -> acceptByDermHeuristics p' = true -> id p' <> Some i).
Proof.
  unfold Listing.firstAccepted. split.
  - intros (before & after & i & Heq & Hacc & Hid & Hi & Hfirst).
    destruct after as [|y after _] using rev_ind.
    + apply app_inj_tail in Heq as [-> ->]. right. eauto 10.
    + rewrite app_comm_cons, app_assoc in Heq. apply app_inj_tail in Heq as [-> ->].
      left. eauto 10.
  - intros [(before & after & i & -> & Hacc & Hid & Hi & Hfirst)
           | (-> & Hacc & i & Hid & Hi & Hfirst)].
    + exists before, (after ++ [x]), i. rewrite <- app_assoc. eauto.
    + exists cands, [], i. eauto.
Qed.

Section FirstKept.
Variables (cfg : Config) (env : Env).
Hypothesis no_state_cap : MAX_CLINICS_PER_STATE cfg = 0.
Hypothesis no_global_cap : MAX_CLINICS_GLOBAL cfg = 0.

(** A candidate that the classifier turns away changes nothing. *)
Lemma kept_rejected (cands : list (option Place)) (p : Place) (l : Local) :
  acceptByDermHeuristics p = false ->
  Listing.kept env cands l -> Listing.kept env (cands ++ [Some p]) l.
Proof.
  intros Hrej [Hseen Hcl]. split.
  - intros i. rewrite Hseen. split; intros [Hi (p' & Hin & Hacc & Hid)];
      (split; [done|]); exists p'; (split; [|done]).
    + apply elem_of_app. by left.
    + apply elem_of_app in Hin as [Hin | [= ->]%list_elem_of_singleton]; [done | congruence].
  - intros c. rewrite Hcl. split; intros (p0 & -> & H); exists p0; (split; [done|]).
    + apply firstAccepted_snoc. by left.
    + apply firstAccepted_snoc in H as [H | ([= ->] & Hacc & _)]; [done | congruence].
Qed.

(** An accepted candidate is stored exactly when it is the first with its
    identifier. *)
Lemma kept_accepted (cands : list (option Place)) (p : Place) (l : Local) :
  acceptByDermHeuristics p = true ->
  Listing.kept env cands l ->
  Listing.kept env (cands ++ [Some p]) (fst (add env p l)).
Proof.
  intros Hacc [Hseen Hcl].
  assert (forall i, i <> [] ->
            (i ∉ seen l <->
             forall p', Some p' ∈ cands -> acceptByDermHeuristics p' = true ->
                        id p' <> Some i)) as Hnew.
  { intros i Hi. rewrite Hseen. split.
    - intros Hout p' Hin Hacc' Hid'. apply Hout. eauto.
    - intros Hall [_ (p' & Hin & Hacc' & Hid')]. by apply (Hall p'). }
  unfold add. destruct (id p) as [i|] eqn:Hid.
  2:{ split.
      - intros j. rewrite Hseen. split; intros [Hj (p' & Hin & Hacc' & Hid')];
          (split; [done|]); exists p'; (split; [|done]).
        + apply elem_of_app. by left.
        + apply elem_of_app in Hin as [Hin | [= ->]%list_elem_of_singleton]; [done | congruence].
      - intros c. simpl. rewrite Hcl. split; intros (p0 & -> & H); exists p0; (split; [done|]).
        + apply firstAccepted_snoc. by left.
        + apply firstAccepted_snoc in H as [H | ([= ->] & _ & j & Hj & _)];
            [done | congruence]. }
  destruct (truthy (Some i)) eqn:Ht; cbn [andb].
  2:{ assert (i = []) as -> by (destruct i; [done | discriminate]).
      split.
      - intros j. simpl. rewrite Hseen. split; intros [Hj (p' & Hin & Hacc' & Hid')];
          (split; [done|]); exists p'; (split; [|done]).
        + apply elem_of_app. by left.
        + apply elem_of_app in Hin as [Hin | [= ->]%list_elem_of_singleton]; [done | congruence].
      - intros c. simpl. rewrite Hcl. split; intros (p0 & -> & H); exists p0; (split; [done|]).
        + apply firstAccepted_snoc. by left.
        + apply firstAccepted_snoc in H as [H | ([= ->] & _ & j & Hj & Hne & _)];
            [done | congruence]. }
  apply truthy_nonempty in Ht.
  destruct (bool_decide_reflect (i ∈ seen l)) as [Hin | Hout]; cbn [negb fst].
  - split.
    + intros j. rewrite Hseen. split; intros [Hj (p' & Hin' & Hacc' & Hid')];
        (split; [done|]).
      * exists p'. split; [|done]. apply elem_of_app. by left.
      * apply elem_of_app in Hin' as [Hin' | [= ->]%list_elem_of_singleton]; [by exists p'|].
        assert (j = i) as -> by congruence. by apply Hseen in Hin as [_ H].
    + intros c. rewrite Hcl. split; intros (p0 & -> & H); exists p0; (split; [done|]).
      * apply firstAccepted_snoc. by left.
      * apply firstAccepted_snoc in H as [H | ([= ->] & _ & j & Hj & Hne & Hfirst)]; [done|].
        assert (j = i) as -> by congruence. by apply (Hnew i Ht) in Hfirst.
  - split; cbn [seen clinics].
    + intros j. rewrite elem_of_union, elem_of_singleton, Hseen. split.
      * intros [-> | [Hj (p' & Hin' & Hacc' & Hid')]]; (split; [done|]).
        -- exists p. split; [|done]. apply elem_of_app. right. constructor.
        -- exists p'. split; [|done]. apply elem_of_app. by left.
      * intros [Hj (p' & Hin' & Hacc' & Hid')].
        apply elem_of_app in Hin' as [Hin' | [= ->]%list_elem_of_singleton].
        -- right. split; [done|]. by exists p'.
        -- left. congruence.
    + intros c. rewrite elem_of_app, list_elem_of_singleton, Hcl. split.
      * intros [(p0 & -> & H) | ->].
        -- exists p0. split; [done|]. apply firstAccepted_snoc. by left.
        -- exists p. split; [done|]. apply firstAccepted_snoc. right.
           split; [done|]. split; [done|]. exists i. split; [done|]. split; [done|].
           by apply Hnew.
      * intros (p0 & -> & H).
        apply firstAccepted_snoc in H as [H | ([= ->] & _)]; [left; eauto | by right].
Qed.

Lemma forPlaces_kept (ps : list (option Place)) :
  forall (cands : list (option Place)) (l : Local) (g : Globals),
    Listing.kept env cands l ->
    match forPlaces cfg env ps l g with
    | (_, _, Thrown _) => True
    | (l', g', _) => Listing.kept env (cands ++ ps) l' /\ REQUESTS g' = REQUESTS g
    end.
Proof.
  induction ps as [|[p|] ps IH]; intros cands l g Hl; cbn [forPlaces]; [| |done].
  - by rewrite app_nil_r.
  - rewrite no_state_cap, no_global_cap. cbn [Nat.eqb negb andb].
    replace (cands ++ Some p :: ps) with ((cands ++ [Some p]) ++ ps)
      by (by rewrite <- app_assoc).
    destruct (acceptByDermHeuristics p) eqn:Hacc; cbn [negb].
    + pose proof (kept_accepted cands p l Hacc Hl) as Hadd.
      destruct (add env p l) as [l1 [|]]; cbn [fst] in Hadd.
      * match goal with |- context [forPlaces cfg env ps l1 ?g1] =>
          specialize (IH _ l1 g1 Hadd);
          destruct (forPlaces cfg env ps l1 g1) as [[l' g'] ex] end.
        destruct ex; done.
      * apply IH, Hadd.
    + apply IH. by apply kept_rejected.
Qed.

Lemma pagesLoop_kept (fuel : nat) (q : jsstring) :
  forall (tok : option jsstring) (n : nat) (cands : list (option Place))
         (l l' : Local) (g g' : Globals),
    Listing.kept env cands l ->
    pagesLoop fuel cfg env q tok n l g = Some (Ok l', g') ->
    Listing.kept env (cands ++ fst (Listing.ofQuery fuel env q tok (REQUESTS g))) l' /\
    REQUESTS g' = REQUESTS g + snd (Listing.ofQuery fuel env q tok (REQUESTS g)).
Proof.
  induction fuel as [|fuel IH]; intros tok n cands l l' g g' Hl; [done|].
  cbn [pagesLoop Listing.ofQuery]. unfold searchTextOnce.
  destruct (upstream env (REQUESTS g) q (if truthy tok then tok else None))
    as [msg|s t [data|]]; [done | | by destruct (negb (ok s))].
  destruct (negb (ok s)); [done|].
  destruct (default (PlacesArray []) (places data)) as [ps|]; [|done].
  pose proof (forPlaces_kept ps cands l (gate cfg g) Hl) as Hfor.
  destruct (forPlaces cfg env ps l (gate cfg g)) as [[l2 g2] ex].
  assert (ex <> Completed /\ ex <> Broke -> exists msg, ex = Thrown msg) as Hex
    by (destruct ex; [tauto | tauto | eauto]).
  destruct (truthy (if truthy (nextPageToken data) then nextPageToken data else None))
    eqn:Hnext.
  - destruct (Listing.ofQuery fuel env q _ (S (REQUESTS g))) as [rest k] eqn:Erest.
    cbn [fst snd].
    assert (Listing.kept env (cands ++ ps) l2 /\ REQUESTS g2 = S (REQUESTS g) ->
            pagesLoop fuel cfg env q
              (if truthy (nextPageToken data) then nextPageToken data else None)
              (S n) l2 (SLEEP (NEXT_PAGE_DELAY_MS cfg) g2) = Some (Ok l', g') ->
            Listing.kept env (cands ++ ps ++ rest) l' /\
            REQUESTS g' = REQUESTS g + S k) as Hstep.
    { intros [H2 Hr] H. apply (IH _ _ _ _ _ _ _ H2) in H.
      cbn [SLEEP REQUESTS] in H. rewrite Hr, Erest in H. cbn [fst snd] in H.
      rewrite <- app_assoc in H. destruct H as [H1 ->]. split; [done | lia]. }
    destruct ex as [| |msg]; [by apply Hstep | by apply Hstep | done].
  - cbn [fst snd].
    destruct ex as [| |msg]; [| |done]; intros [= <- <-];
      (split; [apply Hfor | destruct Hfor as [_ ->]; cbn; lia]).
Qed.

Lemma forQueries_kept (fuel : nat) (qs : list jsstring) :
  forall (cands : list (option Place)) (l l' : Local) (g g' : Globals),
    Listing.kept env cands l ->
    forQueries fuel cfg env qs l g = Some (Ok l', g') ->
    Listing.kept env (cands ++ Listing.ofQueries fuel env qs (REQUESTS g)) l'.
Proof.
  induction qs as [|q qs IH]; intros cands l l' g g' Hl; cbn [forQueries Listing.ofQueries].
  - intros [= <- <-]. by rewrite app_nil_r.
  - destruct (pagesLoop fuel cfg env q None 0 l g) as [[[l1|msg] g1]|] eqn:E; [| |done];
      [|done].
    apply (pagesLoop_kept _ _ _ _ _ _ _ _ _ Hl) in E as [H1 Hr].
    destruct (Listing.ofQuery fuel env q None (REQUESTS g)) as [ps k]. cbn [fst snd] in *.
    intros H. apply (IH _ _ _ _ _ H1) in H. by rewrite Hr, <- app_assoc in H.
Qed.

Lemma collectState_kept (fuel : nat) (stateCode : jsstring) (g g' : Globals) :
  collectState fuel cfg env stateCode g = Some (Ok tt, g') ->
  exists payload,
    files g' !! outPath env stateCode = Some payload /\
    forall c, c ∈ pl_clinics payload <->
      exists p, c = toClinic env p /\
        Listing.firstAccepted p
          (Listing.ofQueries fuel env (queriesOf stateCode) (REQUESTS g)).
Proof.
  unfold collectState.
  destruct (forQueries fuel cfg env (queriesOf stateCode) _ g)
    as [[[l1|msg] g1]|] eqn:E; [| |done]; [|done].
  intros [= <-]. eexists. split; [apply lookup_insert_eq|]. cbn [pl_clinics].
  apply (forQueries_kept _ _ []) in E as [_ H]; [exact H|].
  split; cbn [seen clinics].
  - intros i. split; [set_solver|]. intros [_ (p & Hin & _)]. by apply elem_of_nil in Hin.
  - intros c. split; [by intros ?%elem_of_nil|].
    intros (p & _ & before & after & i & Heq & _). by destruct before.
Qed.

End FirstKept.

Lemma firstOfItsId_snoc (c x : Clinic) (s : list Clinic) :
  Listing.firstOfItsId c (s ++ [x]) <->
  Listing.firstOfItsId c s \/ (c = x /\ (place_id x ∉ place_id <$> s)).
Proof.
  unfold Listing.firstOfItsId. split.
  - intros (before & after & Heq & Hfirst).
    destruct after as [|y after _] using rev_ind.
    + apply app_inj_tail in Heq as [-> ->]. right. split; [done|].
      intros (c' & Hid & Hin)%list_elem_of_fmap. by apply (Hfirst c').
    + rewrite app_comm_cons, app_assoc in Heq. apply app_inj_tail in Heq as [-> ->].
      left. eauto.
  - intros [(before & after & -> & Hfirst) | [-> Hout]].
    + exists before, (after ++ [x]). by rewrite <- app_assoc.
    + exists s, []. split; [done|]. intros c' Hin Hid. apply Hout.
      apply list_elem_of_fmap. by exists c'.
Qed.

Section Merged.
Variable host : GP.Host.

(** A clinic is merged exactly when it is the first with its identifier. *)
Lemma merged_add (s : list Clinic) (c : Clinic) (a : GP.Acc) :
  Listing.merged s a -> Listing.merged (s ++ [c]) (fst (GP.add c a)).
Proof.
  intros [Hseen Hall]. unfold GP.add.
  destruct (bool_decide_reflect (place_id c ∈ GP.seen a)) as [Hin | Hout]; cbn [negb fst].
  - split.
    + intros i. rewrite Hseen, fmap_app, elem_of_app. split; [by left|].
      intros [H | ->%list_elem_of_singleton]; [done | by apply Hseen].
    + intros c0. rewrite Hall, firstOfItsId_snoc. split; [by left|].
      intros [H | [-> Hnew]]; [done|]. by apply Hseen in Hin.
  - split; cbn [GP.seen GP.all].
    + intros i. rewrite elem_of_union, elem_of_singleton, Hseen, fmap_app, elem_of_app.
      change (place_id <$> [c]) with [place_id c]. rewrite list_elem_of_singleton. tauto.
    + intros c0. rewrite elem_of_app, list_elem_of_singleton, Hall, firstOfItsId_snoc.
      split.
      * intros [H | ->]; [by left|]. right. split; [done|]. by rewrite <- Hseen.
      * intros [H | [-> _]]; [by left | by right].
Qed.

Lemma merged_addBatch (batch : list Clinic) :
  forall (s : list Clinic) (a : GP.Acc),
    Listing.merged s a -> Listing.merged (s ++ batch) (GP.addBatch batch a).
Proof.
  unfold GP.addBatch.
  induction batch as [|c batch IH]; intros s a Ha; cbn [foldl].
  - by rewrite app_nil_r.
  - replace (s ++ c :: batch) with ((s ++ [c]) ++ batch) by (by rewrite <- app_assoc).
    apply IH. by apply merged_add.
Qed.

Lemma merged_empty : Listing.merged [] {| GP.all := []; GP.seen := ∅ |}.
Proof.
  split; cbn [GP.seen GP.all].
  - intros i. split; [set_solver | by intros ?%elem_of_nil].
  - intros c. split; [by intros ?%elem_of_nil|].
    intros (before & after & Heq & _). by destruct before.
Qed.

Lemma textPages_merged (fuel : nat) (q : jsstring) (limit : nat) :
  forall (tok : option jsstring) (n : nat) (s : list Clinic) (a a' : GP.Acc)
         (st st' : GP.Net),
    Listing.merged s a ->
    GP.textPages fuel host q limit tok n a st = Some (Ok a', st') ->
    Listing.merged (s ++ fst (Listing.ofTextQuery fuel host q limit tok n st)) a' /\
    st' = snd (Listing.ofTextQuery fuel host q limit tok n st).
Proof.
  induction fuel as [|fuel IH]; intros tok n s a a' st st' Ha; [done|].
  cbn [GP.textPages Listing.ofTextQuery].
  intros ([ps next] & st1 & Hpage & H)%bind_Ok. rewrite Hpage.
  apply bind_Ok in H as (batch & st2 & Hbatch & H).
  destruct (GP.transformPlacesResponse host ps) as [batch0|msg]; [|done].
  injection Hbatch as -> ->.
  pose proof (merged_addBatch batch s a Ha) as Hb.
  destruct (truthy next && (n + 1 <? limit)).
  - apply (IH _ _ _ _ _ _ _ Hb) in H as [H ->].
    destruct (Listing.ofTextQuery fuel host q limit next (n + 1) st2) as [rest st3].
    cbn [fst snd] in *. by rewrite <- app_assoc in H.
  - by injection H as <- <-.
Qed.

Lemma textQueries_merged (limit : nat) (queries : list jsstring) :
  forall (s : list Clinic) (a a' : GP.Acc) (st st' : GP.Net),
    Listing.merged s a ->
    GP.textQueries host queries limit a st = Some (Ok a', st') ->
    Listing.merged (s ++ Listing.ofTextQueries host queries limit st) a'.
Proof.
  induction queries as [|q queries IH]; intros s a a' st st' Ha;
    cbn [GP.textQueries Listing.ofTextQueries].
  - intros [= <- <-]. by rewrite app_nil_r.
  - intros (a1 & st1 & H1 & H)%bind_Ok.
    apply (textPages_merged _ _ _ _ _ _ _ _ _ _ Ha) in H1 as [H1 ->].
    destruct (Listing.ofTextQuery (S limit) host q limit None 0 st) as [batch st2].
    cbn [fst snd] in *. apply (IH _ _ _ _ _ H1) in H. by rewrite <- app_assoc in H.
Qed.

Lemma searchDermClinicsText_first (queries : list jsstring) (limit : nat)
    (st st' : GP.Net) (cs : list Clinic) :
  GP.searchDermClinicsText host queries limit st = Some (Ok cs, st') ->
  forall c, c ∈ cs <->
    Listing.firstOfItsId c (Listing.ofTextQueries host queries limit st).
Proof.
  unfold GP.searchDermClinicsText.
  intros (a & st1 & H & [= <- <-])%bind_Ok.
  by apply (textQueries_merged _ _ [] _ _ _ _ merged_empty) in H as [_ H].
Qed.

Lemma gridPoints_merged (radius : Z) (points : list Location) :
  forall (s : list Clinic) (a a' : GP.Acc) (st st' : GP.Net),
    Listing.merged s a ->
    GP.gridPoints host points radius a st = Some (Ok a', st') ->
    Listing.merged (s ++ Listing.ofPoints host points radius st) a'.
Proof.
  induction points as [|p points IH]; intros s a a' st st' Ha;
    cbn [GP.gridPoints Listing.ofPoints].
  - intros [= <- <-]. by rewrite app_nil_r.
  - intros (batch & st1 & H1 & H)%bind_Ok. rewrite H1.
    apply (IH _ _ _ _ _ (merged_addBatch batch s a Ha)) in H.
    by rewrite <- app_assoc in H.
Qed.

Lemma searchDermClinicsGrid_first (fuel : nat) (bounds : Bounds) (radius : Z)
    (stepDeg : spec_float) (st st' : GP.Net) (cs : list Clinic) :
  GP.searchDermClinicsGrid fuel host bounds radius stepDeg st = Some (Ok cs, st') ->
  forall c, c ∈ cs <->
    Listing.firstOfItsId c (Listing.ofGrid fuel host bounds radius stepDeg st).
Proof.
  unfold GP.searchDermClinicsGrid, Listing.ofGrid.
  destruct (Grid.generateGridPoints fuel bounds stepDeg) as [points|]; [|done].
  intros (a & st1 & H & [= <- <-])%bind_Ok.
  by apply (gridPoints_merged _ _ [] _ _ _ _ merged_empty) in H as [_ H].
Qed.

End Merged.

Lemma add_new (env : Env) (p : Place) (l : Local) (i : jsstring) :
  id p = Some i -> i <> [] -> i ∉ seen l ->
  add env p l =
    ({| seen := {[ i ]} ∪ seen l; clinics := clinics l ++ [toClinic env p] |}, true).
Proof.
  intros Hid Hi Hout. unfold add. rewrite Hid.
  apply truthy_nonempty in Hi. rewrite Hi. by rewrite bool_decide_false.
Qed.

Lemma gp_add_new (c : Clinic) (a : GP.Acc) :
  place_id c ∉ GP.seen a ->
  GP.add c a =
    ({| GP.all := GP.all a ++ [c]; GP.seen := {[ place_id c ]} ∪ GP.seen a |}, true).
Proof. intros Hout. unfold GP.add. by rewrite bool_decide_false. Qed.

(** C1, as amended: within one [collectState] call (one jurisdiction), one
    [searchDermClinicsText] call or one [searchDermClinicsGrid] call, every
    place identifier yields exactly one stored clinic, that of the first
    candidate with it, across the pages, the queries and the grid cells of
    that call.  An add of an identifier that has been seen is a no-op that
    returns false; an add of an identifier that is new and not empty stores
    the clinic of its candidate at the end and returns true, and it is the
    only add that returns true; an add never removes or replaces what is
    stored.  So no two clinics that a call returns share an identifier, and
    the clinics that it returns are exactly those of the candidates that are
    the first with their identifier among all that the service listed in the
    call (for [collectState]: among those that the classifier accepts, with
    no cap set). *)
Theorem dedup_within_call :
  (forall env p p' l,
     id p' = id p -> add env p' (fst (add env p l)) = (fst (add env p l), false)) /\
  (forall env p l,
     snd (add env p l) = true ->
     exists i, id p = Some i /\ (i ∉ seen l) /\
               fst (add env p l) =
                 {| seen := {[ i ]} ∪ seen l;
                    clinics := clinics l ++ [toClinic env p] |}) /\
  (forall env p l i,
     id p = Some i -> i <> [] -> i ∉ seen l ->
     add env p l =
       ({| seen := {[ i ]} ∪ seen l; clinics := clinics l ++ [toClinic env p] |}, true)) /\
  (forall env p l, clinics l `prefix_of` clinics (fst (add env p l))) /\
  (forall fuel cfg env stateCode g g',
     collectState fuel cfg env stateCode g = Some (Ok tt, g') ->
     exists payload,
       files g' !! outPath env stateCode = Some payload /\
       pl_state payload = stateCode /\
       NoDup (place_id <$> pl_clinics payload)) /\
  (forall fuel cfg env stateCode g g',
     MAX_CLINICS_PER_STATE cfg = 0 -> MAX_CLINICS_GLOBAL cfg = 0 ->
     collectState fuel cfg env stateCode g = Some (Ok tt, g') ->
     exists payload,
       files g' !! outPath env stateCode = Some payload /\
       forall c, c ∈ pl_clinics payload <->
         exists p, c = toClinic env p /\
           Listing.firstAccepted p
             (Listing.ofQueries fuel env (queriesOf stateCode) (REQUESTS g))) /\
  (forall c c' a,
     place_id c' = place_id c ->
     GP.add c' (fst (GP.add c a)) = (fst (GP.add c a), false)) /\
  (forall c a,
     place_id c ∉ GP.seen a ->
     GP.add c a =
       ({| GP.all := GP.all a ++ [c]; GP.seen := {[ place_id c ]} ∪ GP.seen a |}, true)) /\
  (forall c a, GP.all a `prefix_of` GP.all (fst (GP.add c a))) /\
  (forall host queries limit st st' cs,
     GP.searchDermClinicsText host queries limit st = Some (Ok cs, st') ->
     NoDup (place_id <$> cs) /\
     forall c, c ∈ cs <->
       Listing.firstOfItsId c (Listing.ofTextQueries host queries limit st)) /\
  (forall fuel host bounds radius stepDeg st st' cs,
     GP.searchDermClinicsGrid fuel host bounds radius stepDeg st = Some (Ok cs, st') ->
     NoDup (place_id <$> cs) /\
     forall c, c ∈ cs <->
       Listing.firstOfItsId c (Listing.ofGrid fuel host bounds radius stepDeg st)).
Proof.
  split; [exact add_again|].
  split; [exact add_inserted|].
  split; [exact add_new|].
  split; [exact add_keeps|].
  split; [intros fuel cfg env; apply collectState_distinct|].
  split; [intros fuel cfg env stateCode g g' H1 H2; by apply collectState_kept|].
  split; [exact gp_add_again|].
  split; [exact gp_add_new|].
  split; [exact gp_add_keeps|].
  split.
  - intros host queries limit st st' cs H. split.
    + by eapply searchDermClinicsText_distinct.
    + by eapply searchDermClinicsText_first.
  - intros fuel host bounds radius stepDeg st st' cs H. split.
    + by eapply searchDermClinicsGrid_distinct.
    + by eapply searchDermClinicsGrid_first.
Qed.

Lemma dedup_within_call_witness :
  exists g',
    MAX_CLINICS_PER_STATE (Scenario.config 800) = 0 /\
    MAX_CLINICS_GLOBAL (Scenario.config 800) = 0 /\
    collectState 1 (Scenario.config 800) Scenario.sameEverywhere (js "AL") initial
      = Some (Ok tt, g') /\
    exists payload,
      files g' !! Scenario.stateFile (js "AL") = Some payload /\
      (forall c, c ∈ pl_clinics payload <->
         exists p, c = toClinic Scenario.sameEverywhere p /\
           Listing.firstAccepted p
             (Listing.ofQueries 1 Scenario.sameEverywhere (queriesOf (js "AL"))
                (REQUESTS initial))) /\
      Listing.ofQueries 1 Scenario.sameEverywhere (queriesOf (js "AL")) (REQUESTS initial)
        = [Some (Scenario.practice "x"); Some (Scenario.practice "x");
           Some (Scenario.practice "x")] /\
      toClinic Scenario.sameEverywhere (Scenario.practice "x") ∈ pl_clinics payload.
Proof.
  assert (exists g',
            collectState 1 (Scenario.config 800) Scenario.sameEverywhere (js "AL") initial
              = Some (Ok tt, g')) as [g' Hrun]
    by (eexists; vm_compute; reflexivity).
  exists g'. split; [reflexivity|]. split; [reflexivity|]. split; [exact Hrun|].
  destruct dedup_within_call as (_ & _ & _ & _ & _ & Hkept & _).
  destruct (Hkept 1 (Scenario.config 800) Scenario.sameEverywhere (js "AL") initial g'
              eq_refl eq_refl Hrun) as (payload & Hlook & Hiff).
  exists payload. split; [exact Hlook|]. split; [exact Hiff|].
  split; [vm_compute; reflexivity|].
  apply Hiff. exists (Scenario.practice "x"). split; [reflexivity|].
  exists [], [Some (Scenario.practice "x"); Some (Scenario.practice "x")], (js "x").
  split; [vm_compute; reflexivity|]. split; [vm_compute; reflexivity|].
  split; [reflexivity|]. split; [done|]. intros p' H. by apply elem_of_nil in H.
Defined.

(** C1, as stated, fails across jurisdictions: when the service lists the
    same practice for Alabama and for Georgia, one run stores it twice, once
    in the file of each state. *)
Lemma same_place_stored_per_state :
  exists g,
    main 1 (Scenario.config 800) Scenario.sameEverywhere [js "AL"; js "GA"] initial
      = Some g /\
    place_id <$> stored g = [Some (js "x"); Some (js "x")] /\
    ~ NoDup (place_id <$> stored g).
Proof.
  eexists. split; [vm_compute; reflexivity|].
  split; [vm_compute; reflexivity|].
  intros H. change (NoDup [Some (js "x"); Some (js "x")]) in H.
  apply NoDup_cons in H as [H _]. apply H. constructor.
Qed.

(** ** The request cap *)

Section Cap.
Variables (m : nat) (cfg : Config) (env : Env).

Lemma forPlaces_cap (ps : list (option Place)) (l : Local) (g : Globals) :
  forPlaces (withMaxRequests m cfg) env ps l g = forPlaces cfg env ps l g.
Proof.
  revert l g. induction ps as [|[p|] ps IH]; intros l g; simpl; [done| |done].
  destruct (acceptByDermHeuristics p); simpl; [|apply IH].
  destruct (add env p l) as [l' [|]]; [|apply IH].
  by rewrite IH.
Qed.

Lemma pagesLoop_cap (fuel : nat) (q : jsstring) (tok : option jsstring) (n : nat)
    (l : Local) (g : Globals) :
  pagesLoop fuel (withMaxRequests m cfg) env q tok n l g =
  pagesLoop fuel cfg env q tok n l g.
Proof.
  revert tok n l g. induction fuel as [|fuel IH]; intros tok n l g; simpl; [done|].
  change (searchTextOnce (withMaxRequests m cfg) env q tok g)
    with (searchTextOnce cfg env q tok g).
  destruct (searchTextOnce cfg env q tok g) as [[data|msg] g1]; [|done].
  destruct (default (PlacesArray []) (places data)) as [ps|]; [|done].
  rewrite forPlaces_cap.
  destruct (forPlaces cfg env ps l g1) as [[l2 g2] [| |msg]]; try done;
    destruct (truthy _); try done; apply IH.
Qed.

Lemma forQueries_cap (fuel : nat) (qs : list jsstring) (l : Local) (g : Globals) :
  forQueries fuel (withMaxRequests m cfg) env qs l g = forQueries fuel cfg env qs l g.
Proof.
  revert l g. induction qs as [|q qs IH]; intros l g; simpl; [done|].
  rewrite pagesLoop_cap.
  destruct (pagesLoop fuel cfg env q None 0 l g) as [[[l1|msg] g1]|]; auto.
Qed.

Lemma main_cap (fuel : nat) (states : list jsstring) (g : Globals) :
  main fuel (withMaxRequests m cfg) env states g = main fuel cfg env states g.
Proof.
  revert g. induction states as [|st states IH]; intros g; simpl; [done|].
  unfold collectState. rewrite forQueries_cap.
  destruct (forQueries fuel cfg env (queriesOf st) _ g) as [[[l1|msg] g1]|]; auto.
  destruct (_ || _); auto.
Qed.

End Cap.

(** C2 at a failing input: the configured maximum has no effect on a run,
    whose requests are counted by [gate] and never compared with it; a run
    over one state against a service that answers each query with one page
    issues three requests, also when the maximum is one. *)
Theorem request_cap_not_enforced :
  (forall m fuel cfg env states g,
     main fuel (withMaxRequests m cfg) env states g = main fuel cfg env states g) /\
  exists g,
    main 1 (Scenario.config 1) Scenario.sameEverywhere [js "AL"] initial = Some g /\
    MAX_REQUESTS (Scenario.config 1) = 1 /\
    REQUESTS g = 3.
Proof.
  split; [intros m fuel cfg env; apply main_cap|].
  eexists. split; [vm_compute; reflexivity|]. split; reflexivity.
Qed.

(** ** Termination of the loops *)

Lemma pagesLoop_endless (fuel : nat) (cfg : Config) (q : jsstring)
    (tok : option jsstring) (n : nat) (l : Local) (g : Globals) :
  pagesLoop fuel cfg Scenario.endless q tok n l g = None.
Proof.
  revert tok n l g. induction fuel as [|fuel IH]; intros tok n l g; [done|].
  cbn [pagesLoop]. unfold searchTextOnce. simpl. apply IH.
Qed.

Lemma pagesLoop_endless_pages (cfg : Config) (q : jsstring) (l : Local) (n : nat) :
  forall (fuel : nat) (tok : option jsstring) (k : nat) (g : Globals),
    exists tok',
      pagesLoop (n + fuel) cfg Scenario.endless q tok k l g =
      pagesLoop fuel cfg Scenario.endless q tok' (n + k) l
        (Nat.iter n (Scenario.turnPage cfg) g).
Proof.
  induction n as [|n IH]; intros fuel tok k g; [by exists tok|].
  destruct (IH fuel (Some (js "next")) (S k) (Scenario.turnPage cfg g)) as [tok' H].
  exists tok'. rewrite Nat.iter_succ_r.
  replace (S n + k) with (n + S k) by lia. rewrite <- H. reflexivity.
Qed.

Lemma turnPage_requests (cfg : Config) (n : nat) (g : Globals) :
  REQUESTS (Nat.iter n (Scenario.turnPage cfg) g) = REQUESTS g + n.
Proof.
  induction n as [|n IH]; simpl; [lia|]. rewrite IH. lia.
Qed.

(** C8 at a failing input: against a service that puts a continuation token
    on every page, the pagination loop of [collectState] is still running
    after any number of pages, and so is the run; after [n] pages the loop
    has issued [n] requests and goes on with the next page. *)
Theorem collectState_pagination_unbounded (fuel : nat) (cfg : Config) (g : Globals) :
  collectState fuel cfg Scenario.endless (js "AL") g = None /\
  main fuel cfg Scenario.endless [js "AL"] g = None /\
  (forall n q l, exists tok' g',
     pagesLoop (n + fuel) cfg Scenario.endless q None 0 l g =
     pagesLoop fuel cfg Scenario.endless q tok' n l g' /\
     REQUESTS g' = REQUESTS g + n).
Proof.
  assert (collectState fuel cfg Scenario.endless (js "AL") g = None) as H.
  { unfold collectState. cbn [queriesOf forQueries]. by rewrite pagesLoop_endless. }
  split; [exact H|]. split; [cbn [main]; by rewrite H|].
  intros n q l. destruct (pagesLoop_endless_pages cfg q l n fuel None 0 g) as [tok' Hn].
  exists tok', (Nat.iter n (Scenario.turnPage cfg) g).
  rewrite Nat.add_0_r in Hn. split; [exact Hn | apply turnPage_requests].
Qed.

(** ** The throttled request gateway *)

Section Gateway.
Variables (host : GP.Host) (req : GP.Request) (maxRetries : nat).

Lemma retryable_not_ok (s : N) : GP.retryable s = true -> ok s = false.
Proof.
  unfold GP.retryable, ok. intros H.
  apply andb_false_iff.
  destruct (N.leb_spec 200 s), (N.leb_spec s 299); auto.
  exfalso. apply orb_true_iff in H as [H | H].
  - apply N.eqb_eq in H. lia.
  - apply andb_true_iff in H as [H _]. apply N.leb_le in H. lia.
Qed.

Lemma backoffLoop_spec (n : nat) :
  forall (fuel attempt : nat) (st : GP.Net),
    attempt + n <= maxRetries -> n < fuel ->
    (forall k, k < n ->
       GP.retryableReply (GP.upstream host (GP.calls st + k) req) = true) ->
    (attempt + n = maxRetries \/
     GP.retryableReply (GP.upstream host (GP.calls st + n) req) = false) ->
    exists st',
      GP.backoffLoop fuel host req maxRetries attempt st =
        Some (GP.outcomeOf (GP.upstream host (GP.calls st + n) req), st') /\
      GP.calls st' = GP.calls st + n + 1 /\
      GP.sleeps st' =
        GP.sleeps st ++
        List.map (fun k => (GP.backoffBase (attempt + k) + GP.jitterAt host st k)%Z)
          (seq 0 n).
Proof.
  induction n as [|n IH]; intros fuel attempt st Hle Hfuel Hretry Hstop.
  - destruct fuel as [|fuel]; [lia|].
    replace (GP.calls st + 0) with (GP.calls st) in * by lia.
    replace (attempt + 0) with attempt in * by lia.
    cbn [GP.backoffLoop]. unfold GP.bind at 1, GP.fetch.
    destruct (GP.upstream host (GP.calls st) req) as [msg|s t b] eqn:Hr; simpl.
    + eexists. split; [reflexivity|]. simpl. split; [lia | by rewrite app_nil_r].
    + unfold GP.bind, GP.stamp; simpl.
      destruct (ok s) eqn:Hok; simpl.
      * eexists. split; [reflexivity|]. simpl. split; [lia | by rewrite app_nil_r].
      * assert (GP.retryable s && (attempt <? maxRetries) = false) as ->.
        { destruct Hstop as [-> | Hs].
          - rewrite Nat.ltb_irrefl. apply andb_false_r.
          - simpl in Hs. by rewrite Hs. }
        eexists. split; [reflexivity|]. simpl. split; [lia | by rewrite app_nil_r].
  - destruct fuel as [|fuel]; [lia|].
    cbn [GP.backoffLoop]. unfold GP.bind at 1, GP.fetch.
    pose proof (Hretry 0 ltac:(lia)) as H0. rewrite Nat.add_0_r in H0.
    destruct (GP.upstream host (GP.calls st) req) as [msg|s t b] eqn:Hr; [done|].
    simpl in H0. unfold GP.bind at 1, GP.stamp. simpl.
    rewrite (retryable_not_ok s H0), H0. simpl.
    assert ((attempt <? maxRetries) = true) as -> by (apply Nat.ltb_lt; lia).
    unfold GP.bind at 1, GP.jitter. simpl.
    unfold GP.bind at 1, GP.sleep. simpl.
    match goal with |- context [GP.backoffLoop fuel host req maxRetries _ ?st2] =>
      destruct (IH fuel (attempt + 1) st2) as (st' & Hrun & Hcalls & Hsleeps)
    end; simpl.
    + lia.
    + lia.
    + intros k Hk.
      match goal with |- context [GP.upstream host ?i req] =>
        replace i with (GP.calls st + S k) by lia end.
      apply Hretry. lia.
    + match goal with |- context [GP.upstream host ?i req] =>
        replace i with (GP.calls st + S n) by lia end.
      destruct Hstop as [Hstop | Hstop]; [left; lia | by right].
    + simpl in *. exists st'. split.
      * rewrite Hrun.
        match goal with |- context [GP.upstream host ?i req] =>
          by replace i with (GP.calls st + S n) by lia end.
      * split; [lia|]. rewrite Hsleeps, <- app_assoc. f_equal. simpl.
        rewrite Nat.add_0_r. unfold GP.jitterAt at 2. simpl.
        rewrite Nat.add_0_r. f_equal; [by rewrite Nat.add_1_r|].
        rewrite <- seq_shift, List.map_map. apply List.map_ext. intros k.
        unfold GP.jitterAt. simpl.
        replace (attempt + 1 + k) with (attempt + S k) by lia.
        by replace (S (GP.calls st + k + 1)) with (GP.calls st + S k + 1) by lia.
Qed.

(** The number of retries that a sequence of replies calls for. *)
Lemma retries_exist (c : nat) :
  exists n, n <= maxRetries /\
    (forall k, k < n -> GP.retryableReply (GP.upstream host (c + k) req) = true) /\
    (n = maxRetries \/ GP.retryableReply (GP.upstream host (c + n) req) = false).
Proof.
  induction maxRetries as [|m (n & Hle & Hall & Hstop)].
  - exists 0. split; [lia|]. split; [intros k Hk; lia | by left].
  - destruct Hstop as [-> | Hstop].
    + destruct (GP.retryableReply (GP.upstream host (c + m) req)) eqn:E.
      * exists (S m). split; [lia|]. split; [|by left].
        intros k Hk. destruct (decide (k = m)) as [-> | Hne]; [done|].
        apply Hall. lia.
      * exists m. split; [lia|]. split; [done | by right].
    + exists n. split; [lia|]. split; [done | by right].
Qed.

End Gateway.

Section GatewayRun.
Variables (host : GP.Host) (req : GP.Request) (maxRetries : nat).

Lemma fetchWithBackoff_runs (st : GP.Net) :
  exists n st',
    n <= maxRetries /\
    (forall k, k < n ->
       GP.retryableReply (GP.upstream host (GP.calls st + k) req) = true) /\
    (n = maxRetries \/
     GP.retryableReply (GP.upstream host (GP.calls st + n) req) = false) /\
    GP.fetchWithBackoff host req maxRetries st =
      Some (GP.outcomeOf (GP.upstream host (GP.calls st + n) req), st') /\
    GP.calls st' = GP.calls st + n + 1 /\
    GP.sleeps st' =
      GP.sleeps st ++ GP.throttleSleeps st ++
      List.map (fun k => (GP.backoffBase k + GP.jitterAt host st k)%Z) (seq 0 n).
Proof.
  destruct (retries_exist host req maxRetries (GP.calls st)) as (n & Hle & Hall & Hstop).
  exists n.
  unfold GP.fetchWithBackoff, GP.throttleSleeps.
  unfold GP.bind at 1, GP.now. unfold GP.bind at 1, GP.getLastCallAt.
  unfold GP.bind at 1.
  destruct (GP.clock st - GP.lastCallAt st <? GP.MIN_INTERVAL_MS)%Z;
    [unfold GP.sleep | unfold GP.ret];
    match goal with |- context [GP.backoffLoop _ _ _ _ _ ?st1] =>
      destruct (backoffLoop_spec host req maxRetries n (S maxRetries) 0 st1)
        as (st' & Hrun & Hcalls & Hsleeps); simpl; auto; try lia
    end;
    exists st'; simpl in *; rewrite Hrun, Hcalls, Hsleeps;
    repeat split; auto; by rewrite <- ?app_assoc, ?app_nil_r.
Qed.

End GatewayRun.

(** C7: a request is fetched [n + 1] times for some [n] up to [maxRetries];
    each of the first [n] replies was a response with status 429 or 5xx, the
    delays before the retries are 500 ms doubled at each attempt plus a
    jitter below 250 ms, and the fetching stops at the first reply that is
    not one of those, or when [maxRetries] retries have been made.  The last
    reply is what comes back: as a returned response when it is a response
    (whatever its status), not as an exception. *)
Theorem fetchWithBackoff_policy (host : GP.Host) (req : GP.Request)
    (maxRetries : nat) (st : GP.Net) :
  exists n st',
    n <= maxRetries /\
    (forall k, k < n ->
       exists s t b, GP.upstream host (GP.calls st + k) req = Http s t b /\
                     (s = 429%N \/ (500 <= s < 600)%N)) /\
    (n = maxRetries \/
     forall s t b, GP.upstream host (GP.calls st + n) req = Http s t b ->
                   ~ (s = 429%N \/ (500 <= s < 600)%N)) /\
    GP.fetchWithBackoff host req maxRetries st =
      Some (GP.outcomeOf (GP.upstream host (GP.calls st + n) req), st') /\
    GP.calls st' = GP.calls st + n + 1 /\
    GP.sleeps st' =
      GP.sleeps st ++ GP.throttleSleeps st ++
      List.map (fun k => (GP.backoffBase k + GP.jitterAt host st k)%Z) (seq 0 n) /\
    (forall k, GP.backoffBase (S k) = (2 * GP.backoffBase k)%Z /\
               (0 <= GP.jitterAt host st k < 250)%Z).
Proof.
  assert (forall s, GP.retryable s = true <-> s = 429%N \/ (500 <= s < 600)%N) as Hret.
  { intros s. unfold GP.retryable.
    rewrite orb_true_iff, andb_true_iff, N.eqb_eq, N.leb_le, N.ltb_lt. tauto. }
  destruct (fetchWithBackoff_runs host req maxRetries st)
    as (n & st' & Hle & Hall & Hstop & Hrun & Hcalls & Hsleeps).
  exists n, st'. split; [done|]. split.
  { intros k Hk. specialize (Hall k Hk).
    destruct (GP.upstream host (GP.calls st + k) req) as [msg|s t b]; [done|].
    exists s, t, b. split; [done|]. by apply Hret. }
  split.
  { destruct Hstop as [Hstop | Hstop]; [by left | right].
    intros s t b Hr. rewrite Hr in Hstop. simpl in Hstop.
    rewrite <- Hret. by rewrite Hstop. }
  repeat (split; [done|]).
  intros k. split.
  - unfold GP.backoffBase. rewrite Nat2Z.inj_succ, Z.pow_succ_r by lia. lia.
  - unfold GP.jitterAt. apply Z.mod_pos_bound. lia.
Qed.

(** With 503 twice and then 404, the second retry is the last. *)
Example fetchWithBackoff_flaky :
  exists st',
    GP.fetchWithBackoff Scenario.flaky (GP.SearchText (js "q") None) 5 Scenario.fresh
      = Some (Ok {| GP.status := 404; GP.statusText := js "Not Found"; GP.body := None |}, st') /\
    GP.calls st' = 3 /\
    GP.sleeps st' = [500 + 37; 1000 + 74]%Z.
Proof. eexists. split; [vm_compute; reflexivity|]. split; reflexivity. Qed.

(** With 503 on every attempt, the sixth response is returned. *)
Example fetchWithBackoff_down :
  exists st',
    GP.fetchWithBackoff Scenario.down (GP.SearchText (js "q") None) 5 Scenario.fresh
      = Some (Ok {| GP.status := 503; GP.statusText := js "Service Unavailable";
                    GP.body := None |}, st') /\
    GP.calls st' = 6 /\
    GP.sleeps st' = [500 + 37; 1000 + 74; 2000 + 111; 4000 + 148; 8000 + 185]%Z.
Proof. eexists. split; [vm_compute; reflexivity|]. split; reflexivity. Qed.

(** ** Failures of the nearby search *)

Lemma fetchWithBackoff_total (host : GP.Host) (req : GP.Request)
    (maxRetries : nat) (st : GP.Net) :
  exists r st', GP.fetchWithBackoff host req maxRetries st = Some (r, st').
Proof.
  destruct (fetchWithBackoff_runs host req maxRetries st)
    as (n & st' & _ & _ & _ & Hrun & _). eauto.
Qed.

Lemma searchDermClinics_catches (host : GP.Host) (loc : Location) (radius : Z)
    (rank : GP.Rank) (st : GP.Net) :
  exists cs st',
    GP.searchDermClinics host loc radius rank st = Some (Ok cs, st') /\
    (GP.Failure host (GP.SearchNearby loc radius rank) st -> cs = []).
Proof.
  unfold GP.searchDermClinics, GP.catch, GP.haveKey.
  destruct (fetchWithBackoff_total host (GP.SearchNearby loc radius rank)
              GP.defaultMaxRetries st) as (r & st1 & Hrun).
  unfold GP.bind, GP.json.
  destruct (truthy (GP.apiKey host)) eqn:Hkey; simpl; [|by exists [], st].
  rewrite Hrun. destruct r as [resp|msg]; [|by exists [], st1].
  destruct (ok (GP.status resp)) eqn:Hok; simpl; [|by exists [], st1].
  destruct (GP.body resp) as [data|] eqn:Hbody; simpl; [|by exists [], st1].
  destruct (places data) as [[l|]|] eqn:Hplaces; simpl.
  - eexists _, st1. split; [reflexivity|].
    intros [Hf | ? ? Hf | ? ? Hf Hf' | ? ? Hf Hf' | ? ? ? Hf Hf' Hf''];
      rewrite ?Hrun in Hf; congruence.
  - by exists [], st1.
  - exists [], st1. by split.
Qed.

(** C10: [searchDermClinics] always returns a list and never throws, and on
    each failure path (no API key, [fetch] rejecting, a response that is
    still not OK after the retries, a body that is not JSON, a [places]
    member that cannot be transformed) the list is empty, which is also what
    a query returns that succeeded and found no clinic. *)
Theorem searchDermClinics_failure_is_empty (host : GP.Host) (loc : Location)
    (radius : Z) (rank : GP.Rank) (st : GP.Net) :
  GP.Failure host (GP.SearchNearby loc radius rank) st ->
  (exists st', GP.searchDermClinics host loc radius rank st = Some (Ok [], st')) /\
  (exists st0',
     GP.searchDermClinics Scenario.nothingFound loc radius rank st = Some (Ok [], st0') /\
     ~ GP.Failure Scenario.nothingFound (GP.SearchNearby loc radius rank) st).
Proof.
  intros Hfail. split.
  - destruct (searchDermClinics_catches host loc radius rank st)
      as (cs & st' & Hrun & Hempty).
    rewrite (Hempty Hfail) in Hrun. eauto.
  - destruct (fetchWithBackoff_runs Scenario.nothingFound
                (GP.SearchNearby loc radius rank) GP.defaultMaxRetries st)
      as (n & st1 & _ & _ & _ & Hfetch & _).
    simpl in Hfetch.
    destruct (searchDermClinics_catches Scenario.nothingFound loc radius rank st)
      as (cs & st' & Hrun & _).
    assert (cs = []) as ->.
    { revert Hrun. unfold GP.searchDermClinics, GP.catch, GP.haveKey, GP.bind. simpl.
      rewrite Hfetch. simpl. by intros [= <- _]. }
    exists st'. split; [done|].
    intros [Hf | ? ? Hf | ? ? Hf Hf' | ? ? Hf Hf' | ? ? ? Hf Hf' Hf''];
      rewrite ?Hfetch in Hf; try discriminate;
      injection Hf as <- <-; simpl in *; try discriminate.
    injection Hf' as <-. discriminate.
Qed.

Lemma searchDermClinics_failure_is_empty_witness :
  GP.Failure Scenario.down (GP.SearchNearby Scenario.somewhere 50000 GP.POPULARITY)
    Scenario.fresh /\
  (exists st',
     GP.searchDermClinics Scenario.down Scenario.somewhere 50000 GP.POPULARITY
       Scenario.fresh = Some (Ok [], st')) /\
  (exists st0',
     GP.searchDermClinics Scenario.nothingFound Scenario.somewhere 50000 GP.POPULARITY
       Scenario.fresh = Some (Ok [], st0') /\
     ~ GP.Failure Scenario.nothingFound
         (GP.SearchNearby Scenario.somewhere 50000 GP.POPULARITY) Scenario.fresh).
Proof.
  assert (GP.Failure Scenario.down
            (GP.SearchNearby Scenario.somewhere 50000 GP.POPULARITY) Scenario.fresh) as H.
  { eapply GP.ResponseNotOk; [vm_compute; reflexivity | reflexivity]. }
  split; [exact H|].
  exact (searchDermClinics_failure_is_empty Scenario.down Scenario.somewhere 50000
           GP.POPULARITY Scenario.fresh H).
Defined.

(** ** Grid generation *)

Section GridLoops.
Variables (bounds : Bounds) (stepDeg : spec_float).





End GridLoops.





(** ** The open-now resolver *)

(** *** The matcher on well-formed ranges *)

Lemma starK_greedy {R} (c : N -> bool) (ws rest : jsstring)
    (k : jsstring -> option R) (res : R) :
  Forall (fun x => c x = true) ws -> stops c rest ->
  k rest = Some res -> starK c (ws ++ rest) k = Some res.
Proof.
  intros Hws Hstop Hk. induction Hws as [|x ws Hx _ IH]; simpl.
  - destruct rest as [|y rest]; simpl; [done|]. simpl in Hstop. by rewrite Hstop.
  - by rewrite Hx, IH.
Qed.

Lemma repK_greedy {R} (c : N -> bool) (ds rest : jsstring) :
  forall (lo hi : nat) (k : jsstring -> option R) (res : R),
    Forall (fun x => c x = true) ds ->
    lo <= length ds -> length ds <= hi ->
    (length ds = hi \/ stops c rest) ->
    k rest = Some res -> repK c lo hi (ds ++ rest) k = Some res.
Proof.
  induction ds as [|d ds IH]; intros lo hi k res Hds Hlo Hhi Hend Hk.
  - simpl in *. assert (lo = 0) as -> by lia.
    destruct hi as [|hi]; simpl; [done|].
    destruct rest as [|y rest]; [done|].
    destruct Hend as [Hend | Hend]; [done|]. simpl in Hend. by rewrite Hend.
  - apply Forall_cons in Hds as [Hd Hds]. simpl in Hlo, Hhi.
    destruct hi as [|hi]; [lia|]. cbn [repK app]. rewrite Hd.
    rewrite (IH (pred lo) hi k res); [done | done | lia | lia | | done].
    destruct Hend as [Hend | Hend]; [left; simpl in Hend; lia | by right].
Qed.

Lemma greedy_cls (c : N -> bool) (x : N) (rest : jsstring) :
  c x = true -> greedy (Cls c) [x] [] rest.
Proof. intros Hx R caps k res Hk. simpl. by rewrite Hx, <- (app_nil_r caps). Qed.

Lemma greedy_seq (r1 r2 : regex) (a b : jsstring) (c1 c2 : list jsstring)
    (rest : jsstring) :
  greedy r1 a c1 (b ++ rest) -> greedy r2 b c2 rest ->
  greedy (Seq r1 r2) (a ++ b) (c1 ++ c2) rest.
Proof.
  intros H1 H2 R caps k res Hk. cbn [run]. rewrite <- app_assoc.
  apply H1, H2. by rewrite <- app_assoc.
Qed.

Lemma greedy_star (c : N -> bool) (ws rest : jsstring) :
  Forall (fun x => c x = true) ws -> stops c rest -> greedy (Star c) ws [] rest.
Proof.
  intros Hws Hstop R caps k res Hk. cbn [run].
  apply starK_greedy; [done | done |]. by rewrite <- (app_nil_r caps).
Qed.

Lemma greedy_rep (c : N -> bool) (lo hi : nat) (ds rest : jsstring) :
  Forall (fun x => c x = true) ds -> lo <= length ds -> length ds <= hi ->
  (length ds = hi \/ stops c rest) -> greedy (Rep c lo hi) ds [] rest.
Proof.
  intros Hds Hlo Hhi Hend R caps k res Hk. cbn [run].
  apply repK_greedy; [done | done | done | done |]. by rewrite <- (app_nil_r caps).
Qed.

Lemma greedy_group (r : regex) (a rest : jsstring) :
  greedy r a [] rest -> greedy (Group r) a [a] rest.
Proof.
  intros H R caps k res Hk. cbn [run]. apply H.
  rewrite app_nil_r, length_app, Nat.add_sub, take_app_length. exact Hk.
Qed.

Lemma upper_is (c u : N) :
  (65 <= u <= 90)%N -> upperUnit c = u -> letter u c = true.
Proof.
  unfold upperUnit, letter. intros Hu.
  destruct (N.leb_spec 97 c), (N.leb_spec c 122); simpl; intros <-;
    apply orb_true_iff; rewrite !N.eqb_eq; lia.
Qed.

Lemma greedy_period (p : jsstring) (pm : bool) (rest : jsstring) :
  toUpperCase p = (if pm then js "PM" else js "AM") ->
  greedy (Alt (Seq (Cls (letter 65)) (Cls (letter 77)))
              (Seq (Cls (letter 80)) (Cls (letter 77)))) p [] rest.
Proof.
  intros Hp.
  assert (exists a b, p = [a; b] /\ upperUnit a = (if pm then 80 else 65)%N /\
                      upperUnit b = 77%N) as (a & b & -> & Ha & Hb).
  { destruct p as [|a [|b [|? ?]]]; destruct pm; try discriminate;
      injection Hp as Ha Hb; eauto. }
  apply upper_is in Hb; [|lia].
  intros R caps k res Hk. rewrite app_nil_r in Hk. cbn [run app].
  destruct pm.
  - apply upper_is in Ha; [|lia]. rewrite Ha, Hb, Hk.
    by destruct (letter 65 a).
  - apply upper_is in Ha; [|lia]. by rewrite Ha, Hb, Hk.
Qed.

Lemma period_not_space (p : jsstring) (pm : bool) (rest : jsstring) :
  toUpperCase p = (if pm then js "PM" else js "AM") -> stops isSpace (p ++ rest).
Proof.
  destruct p as [|a p]; [by destruct pm|]. simpl. intros Hp.
  assert (upperUnit a = 80%N \/ upperUnit a = 65%N) as Ha.
  { destruct pm; injection Hp as Ha _; auto. }
  unfold upperUnit in Ha.
  destruct (N.leb_spec 97 a), (N.leb_spec a 122); simpl in Ha;
    assert (a = 65 \/ a = 97 \/ a = 80 \/ a = 112)%N as [->|[->|[->| ->]]] by lia;
    reflexivity.
Qed.

Lemma digit_not_space (c : N) : isDigit c = true -> isSpace c = false.
Proof.
  unfold isDigit. rewrite andb_true_iff, !N.leb_le. intros [H1 H2].
  assert (c = 48 \/ c = 49 \/ c = 50 \/ c = 51 \/ c = 52 \/ c = 53 \/ c = 54 \/
          c = 55 \/ c = 56 \/ c = 57)%N as H by lia.
  repeat (destruct H as [-> | H]; [reflexivity|]). by subst.
Qed.

Lemma dash_not_space (c : N) : isDash c = true -> isSpace c = false.
Proof.
  unfold isDash. rewrite !orb_true_iff, !N.eqb_eq. by intros [[-> | ->] | ->].
Qed.

Lemma greedy_timeOfDay (t : TimeText) (rest : jsstring) :
  timeOk t ->
  greedy timeOfDay (renderTime t) [t_hour t; t_min t; t_period t] rest.
Proof.
  intros (Hh & Hhl & Hm & Hml & Hg & Hp). unfold timeOfDay, renderTime.
  apply (greedy_seq _ _ _ _ [t_hour t] [t_min t; t_period t]).
  { apply greedy_group, greedy_rep; [done | lia | lia | by right]. }
  apply (greedy_seq _ _ [58%N] _ [] [t_min t; t_period t]);
    [by apply greedy_cls|].
  apply (greedy_seq _ _ _ _ [t_min t] [t_period t]).
  { apply greedy_group, greedy_rep; [done | lia | lia | by left]. }
  apply (greedy_seq _ _ _ _ [] [t_period t]).
  { apply greedy_star; [done | by apply period_not_space with (t_pm t)]. }
  apply greedy_group. by apply greedy_period with (t_pm t).
Qed.

Lemma renderTime_not_space (t : TimeText) (rest : jsstring) :
  timeOk t -> stops isSpace (renderTime t ++ rest).
Proof.
  intros (Hh & Hhl & _). unfold renderTime.
  destruct (t_hour t) as [|d h]; [simpl in Hhl; lia|].
  apply Forall_cons in Hh as [Hd _]. simpl. by apply digit_not_space.
Qed.

Lemma greedy_hoursPattern (r : RangeText) (rest : jsstring) :
  rangeOk r ->
  greedy hoursPattern (renderRange r)
    [t_hour (r_open r); t_min (r_open r); t_period (r_open r);
     t_hour (r_close r); t_min (r_close r); t_period (r_close r)] rest.
Proof.
  intros (Ho & Hg1 & Hd & Hg2 & Hc). unfold hoursPattern, renderRange.
  apply (greedy_seq _ _ _ _ [_; _; _] [_; _; _]);
    [by apply greedy_timeOfDay|].
  apply (greedy_seq _ _ _ _ [] [_; _; _]).
  { apply greedy_star; [done | simpl; by apply dash_not_space]. }
  apply (greedy_seq _ _ [_] _ [] [_; _; _]); [by apply greedy_cls|].
  apply (greedy_seq _ _ _ _ [] [_; _; _]).
  { apply greedy_star; [done | by apply renderTime_not_space]. }
  by apply greedy_timeOfDay.
Qed.

Lemma matchAt_no_digit (x : N) (s : jsstring) :
  isDigit x = false -> matchAt hoursPattern (x :: s) = None.
Proof. intros Hx. unfold matchAt. simpl. by rewrite Hx. Qed.

Lemma stringMatch_carries (line : jsstring) (r : RangeText) :
  carries line r -> rangeOk r ->
  stringMatch hoursPattern line =
    Some [t_hour (r_open r); t_min (r_open r); t_period (r_open r);
          t_hour (r_close r); t_min (r_close r); t_period (r_close r)].
Proof.
  intros (before & after & -> & Hbefore) Hr.
  induction Hbefore as [|x before Hx _ IH].
  - simpl app. assert (matchAt hoursPattern (renderRange r ++ after) = Some
      [t_hour (r_open r); t_min (r_open r); t_period (r_open r);
       t_hour (r_close r); t_min (r_close r); t_period (r_close r)]) as H.
    { unfold matchAt. by apply greedy_hoursPattern. }
    destruct (renderRange r ++ after); cbn [stringMatch]; by rewrite H.
  - cbn [app stringMatch]. by rewrite matchAt_no_digit.
Qed.

(** *** Soundness of the matcher *)

Lemma starK_inv {R} (c : N -> bool) (s : jsstring) (k : jsstring -> option R) (res : R) :
  starK c s k = Some res ->
  exists ws rest, s = ws ++ rest /\ Forall (fun x => c x = true) ws /\ k rest = Some res.
Proof.
  induction s as [|x s IH]; simpl.
  - intros H. by exists [], [].
  - destruct (c x) eqn:Hx; [|intros H; by exists [], (x :: s)].
    destruct (starK c s k) as [r|] eqn:E.
    + intros [= ->]. destruct (IH eq_refl) as (ws & rest & -> & Hws & Hk).
      exists (x :: ws), rest. split; [done|]. split; [by constructor | done].
    + intros H. by exists [], (x :: s).
Qed.

Lemma repK_stop_inv {R} (c : N -> bool) (hi lo : nat) (s : jsstring)
    (k : jsstring -> option R) (res : R) :
  (if (lo =? 0)%nat then k s else None) = Some res ->
  exists ds rest,
    s = ds ++ rest /\ Forall (fun x => c x = true) ds /\
    lo <= length ds /\ length ds <= hi /\ k rest = Some res.
Proof.
  intros H. destruct lo; [|done]. exists [], s.
  repeat split; [constructor | simpl; lia | simpl; lia | done].
Qed.

Lemma repK_inv {R} (c : N -> bool) (hi : nat) :
  forall (lo : nat) (s : jsstring) (k : jsstring -> option R) (res : R),
    repK c lo hi s k = Some res ->
    exists ds rest,
      s = ds ++ rest /\ Forall (fun x => c x = true) ds /\
      lo <= length ds /\ length ds <= hi /\ k rest = Some res.
Proof.
  induction hi as [|hi IH]; intros lo s k res; simpl; [by apply repK_stop_inv|].
  destruct s as [|x s]; [by apply repK_stop_inv|].
  destruct (c x) eqn:Hx; [|by apply repK_stop_inv].
  destruct (repK c (pred lo) hi s k) as [r|] eqn:E.
  - intros [= ->].
    destruct (IH _ _ _ _ E) as (ds & rest & -> & Hds & Hlo & Hhi & Hk).
    exists (x :: ds), rest.
    repeat split; [by constructor | simpl; lia | simpl; lia | done].
  - by apply repK_stop_inv.
Qed.

Lemma run_sound (r : regex) :
  forall (R : Type) (s : jsstring) (caps : list jsstring)
         (k : jsstring -> list jsstring -> option R) (res : R),
    run r s caps k = Some res ->
    exists a rest newcaps,
      s = a ++ rest /\ shape r a newcaps /\ k rest (caps ++ newcaps) = Some res.
Proof.
  induction r as [c | r1 IH1 r2 IH2 | r1 IH1 r2 IH2 | c lo hi | c | r IH];
    intros R s caps k res; cbn [run].
  - destruct s as [|x s]; [done|]. destruct (c x) eqn:Hx; [|done]. intros Hk.
    exists [x], s, []. rewrite app_nil_r. split; [done|]. split; [by constructor | done].
  - intros H. apply IH1 in H as (a & rest1 & c1 & -> & H1 & H).
    apply IH2 in H as (b & rest & c2 & -> & H2 & H).
    exists (a ++ b), rest, (c1 ++ c2). rewrite <- !app_assoc in *.
    split; [done|]. split; [by constructor | done].
  - destruct (run r1 s caps k) as [r|] eqn:E.
    + intros [= ->]. apply IH1 in E as (a & rest & c & -> & H1 & H).
      exists a, rest, c. split; [done|]. split; [by apply shape_alt_l | done].
    + intros H. apply IH2 in H as (a & rest & c & -> & H2 & H).
      exists a, rest, c. split; [done|]. split; [by apply shape_alt_r | done].
  - intros H. apply repK_inv in H as (ds & rest & -> & Hds & Hlo & Hhi & Hk).
    exists ds, rest, []. rewrite app_nil_r. split; [done|].
    split; [by constructor | done].
  - intros H. apply starK_inv in H as (ws & rest & -> & Hws & Hk).
    exists ws, rest, []. rewrite app_nil_r. split; [done|].
    split; [by constructor | done].
  - intros H. apply IH in H as (a & rest & c & -> & H1 & H).
    rewrite length_app, Nat.add_sub, take_app_length, <- app_assoc in H.
    exists a, rest, (c ++ [a]). split; [done|]. split; [by constructor | done].
Qed.

Lemma stringMatch_sound (r : regex) (s : jsstring) (caps : list jsstring) :
  stringMatch r s = Some caps ->
  exists before a after, s = before ++ a ++ after /\ shape r a caps.
Proof.
  assert (forall s, matchAt r s = Some caps ->
                    exists a after, s = a ++ after /\ shape r a caps) as Hat.
  { intros s0 H. unfold matchAt in H.
    apply run_sound in H as (a & rest & newcaps & -> & Hshape & [= <-]). eauto. }
  induction s as [|x s IH]; cbn [stringMatch].
  - destruct (matchAt r []) eqn:E; [|done]. intros [= ->].
    destruct (Hat _ E) as (a & after & Heq & H). by exists [], a, after.
  - destruct (matchAt r (x :: s)) eqn:E.
    + intros [= ->]. destruct (Hat _ E) as (a & after & Heq & H). by exists [], a, after.
    + intros H. destruct (IH H) as (before & a & after & -> & Hshape).
      by exists (x :: before), a, after.
Qed.

Lemma letter_upper (u c : N) :
  (65 <= u <= 90)%N -> letter u c = true -> upperUnit c = u.
Proof.
  unfold letter, upperUnit. rewrite orb_true_iff, !N.eqb_eq. intros Hu [-> | ->].
  - destruct (N.leb_spec 97 u); [lia | done].
  - destruct (N.leb_spec 97 (u + 32)), (N.leb_spec (u + 32) 122); simpl; lia.
Qed.

Lemma shape_timeOfDay (a : jsstring) (caps : list jsstring) :
  shape timeOfDay a caps ->
  exists t, timeOk t /\ a = renderTime t /\ caps = [t_hour t; t_min t; t_period t].
Proof.
  unfold timeOfDay. intros H.
  repeat match goal with
         | H : shape (Seq _ _) _ _ |- _ => inversion H; subst; clear H
         | H : shape (Group _) _ _ |- _ => inversion H; subst; clear H
         | H : shape (Cls _) _ _ |- _ => inversion H; subst; clear H
         | H : shape (Rep _ _ _) _ _ |- _ => inversion H; subst; clear H
         | H : shape (Star _) _ _ |- _ => inversion H; subst; clear H
         end.
  match goal with H : shape (Alt _ _) _ _ |- _ => inversion H; subst; clear H end;
  repeat match goal with
         | H : shape (Seq _ _) _ _ |- _ => inversion H; subst; clear H
         | H : shape (Cls _) _ _ |- _ => inversion H; subst; clear H
         end;
  match goal with
  | Hh : Forall _ ?h, Hm : Forall _ ?m, Hg : Forall _ ?g, Hc : isColon _ = true,
    Ha : letter ?u ?x = true, Hb : letter 77 ?y = true |- _ =>
      exists {| t_hour := h; t_min := m; t_gap := g; t_period := [x; y];
                t_pm := (u =? 80)%N |};
      apply N.eqb_eq in Hc; subst;
      apply letter_upper in Ha; [|lia]; apply letter_upper in Hb; [|lia]
  end;
  (split; [unfold timeOk; simpl; repeat split; try done; try lia
          | split; [unfold renderTime; simpl; by rewrite <- ?app_assoc | done]]).
  all: match goal with
       | Ha : upperUnit _ = _, Hb : upperUnit _ = _ |- _ => by rewrite Ha, Hb
       end.
Qed.

Lemma shape_hoursPattern (a : jsstring) (caps : list jsstring) :
  shape hoursPattern a caps ->
  exists r, rangeOk r /\ a = renderRange r /\ caps = captures r.
Proof.
  unfold hoursPattern. intros H.
  repeat match goal with
         | H : shape (Seq _ _) _ _ |- _ => inversion H; subst; clear H
         | H : shape (Cls _) _ _ |- _ => inversion H; subst; clear H
         | H : shape (Star _) _ _ |- _ => inversion H; subst; clear H
         end.
  repeat match goal with
         | H : shape timeOfDay _ _ |- _ =>
             apply shape_timeOfDay in H as (? & ? & -> & ->)
         end.
  match goal with
  | Ho : timeOk ?o, Hc : timeOk ?c, Hg1 : Forall _ ?g1, Hg2 : Forall _ ?g2,
    Hd : isDash ?d = true |- context [renderTime ?o ++ ?g1 ++ _] =>
      exists {| r_open := o; r_gap1 := g1; r_dash := d; r_gap2 := g2; r_close := c |}
  end.
  split; [unfold rangeOk; simpl; auto|]. split; reflexivity.
Qed.

Lemma stringMatch_hoursPattern (line : jsstring) (caps : list jsstring) :
  stringMatch hoursPattern line = Some caps ->
  exists r, rangeOk r /\ holds line r /\ caps = captures r.
Proof.
  intros (before & a & after & -> & H)%stringMatch_sound.
  apply shape_hoursPattern in H as (r & Hr & -> & ->).
  exists r. split; [done|]. split; [by exists before, after | done].
Qed.

(** *** The endpoints in minutes *)

Lemma digit_cases (c : N) :
  isDigit c = true ->
  (c = 48 \/ c = 49 \/ c = 50 \/ c = 51 \/ c = 52 \/ c = 53 \/ c = 54 \/ c = 55 \/
   c = 56 \/ c = 57)%N.
Proof. unfold isDigit. rewrite andb_true_iff, !N.leb_le. lia. Qed.

Lemma parseInt_digits (s : jsstring) :
  digits s -> length s = 1 \/ length s = 2 -> parseInt s = Some (decimalValue s).
Proof.
  intros Hs Hlen. destruct s as [|a [|b [|c s]]]; simpl in Hlen; try lia.
  - apply Forall_cons in Hs as [Ha _]. apply digit_cases in Ha.
    repeat (destruct Ha as [-> | Ha]; [reflexivity|]). by subst.
  - apply Forall_cons in Hs as [Ha Hs]. apply Forall_cons in Hs as [Hb _].
    apply digit_cases in Ha, Hb.
    repeat (destruct Ha as [-> | Ha];
            [repeat (destruct Hb as [-> | Hb]; [reflexivity|]); by subst|]).
    subst a. repeat (destruct Hb as [-> | Hb]; [reflexivity|]). by subst.
Qed.

Lemma toMinutes_timeOk (t : TimeText) :
  timeOk t -> toMinutes (t_hour t) (t_min t) (t_period t) = Some (timeMinutes t).
Proof.
  intros (Hh & Hhl & Hm & Hml & _ & Hp). unfold toMinutes, timeMinutes, spec_minutes.
  rewrite (parseInt_digits _ Hh Hhl), (parseInt_digits _ Hm (or_intror Hml)), Hp.
  destruct (t_pm t); simpl;
    change (JsString.eqb (js "PM") (js "PM")) with true;
    change (JsString.eqb (js "PM") (js "AM")) with false;
    change (JsString.eqb (js "AM") (js "AM")) with true;
    change (JsString.eqb (js "AM") (js "PM")) with false; simpl;
    destruct (decimalValue (t_hour t) =? 12)%Z eqn:E; simpl; f_equal;
    rewrite ?Z.eqb_eq in E; lia.
Qed.

Lemma findToday_todaysLine (weekday : jsstring) (lines : list (option jsstring))
    (line : jsstring) :
  todaysLine weekday lines line -> findToday weekday lines = Ok (Some line).
Proof.
  intros (before & after & -> & Hbefore & Hline).
  induction Hbefore as [|text before Htext _ IH]; simpl.
  - by rewrite Hline.
  - by rewrite Htext.
Qed.

Lemma findToday_none (weekday : jsstring) (lines : list (option jsstring)) :
  (forall text, Some text ∈ lines -> startsWith text weekday = false) ->
  findToday weekday lines = Ok None \/ exists msg, findToday weekday lines = Throw msg.
Proof.
  induction lines as [|[text|] lines IH]; intros H; simpl; [by left | | eauto].
  rewrite (H text) by constructor. apply IH. intros t Ht. apply H. by constructor.
Qed.

Lemma holds_nonempty (line : jsstring) (r : RangeText) :
  holds line r -> rangeOk r -> truthy (Some line) = true.
Proof.
  intros (before & after & ->) ((_ & Hhl & _) & _).
  destruct before; [|done]. unfold renderRange, renderTime.
  destruct (t_hour (r_open r)); [simpl in Hhl; lia | done].
Qed.

Lemma openNow_general (intl : jsstring -> exc (list Part))
    (lines : list (option jsstring)) (tz : jsstring) (parts : list Part)
    (hh mm : Z) (line : jsstring) (caps : list jsstring) :
  intl tz = Ok parts ->
  parseInt (partValue parts (js "hour") (js "0")) = Some hh ->
  parseInt (partValue parts (js "minute") (js "0")) = Some mm ->
  todaysLine (partValue parts (js "weekday") []) lines line ->
  includes (toLowerCase line) (js "closed") = false ->
  stringMatch hoursPattern line = Some caps ->
  exists r,
    rangeOk r /\ holds line r /\ caps = captures r /\
    calculateOpenNowFromWeekdayText intl (Some lines) tz =
      (timeMinutes (r_open r) <=? hh * 60 + mm)%Z &&
      (hh * 60 + mm <? timeMinutes (r_close r))%Z.
Proof.
  intros Hintl Hh Hm Hline Hclosed Hmatch.
  destruct (stringMatch_hoursPattern _ _ Hmatch) as (r & Hr & Hholds & ->).
  exists r. repeat (split; [done|]).
  assert (lines <> []) as Hne.
  { destruct Hline as (before & after & -> & _). by destruct before. }
  unfold calculateOpenNowFromWeekdayText. destruct lines as [|l0 lines]; [done|].
  unfold body. rewrite Hintl, Hh, Hm, (findToday_todaysLine _ _ _ Hline).
  rewrite (holds_nonempty _ _ Hholds Hr), Hclosed, Hmatch. cbn [negb captures].
  destruct Hr as (Ho & _ & _ & _ & Hc).
  by rewrite (toMinutes_timeOk _ Ho), (toMinutes_timeOk _ Hc).
Qed.

Lemma mondayNineToFive_carries :
  carries mondayNineToFive nineToFive /\ rangeOk nineToFive.
Proof.
  split.
  - exists (js "Monday: "), []. split; [reflexivity|].
    repeat constructor.
  - unfold rangeOk, timeOk, digits, spaces. simpl.
    repeat split; auto; repeat constructor.
Qed.

(** C5: when today's line matches the pattern H:MM AM/PM - H:MM AM/PM (and
    has passed the check for "closed" that comes before the pattern), the
    match is a well-formed range held by the line, and the result is true
    exactly when the current local time in minutes is at or after the opening
    endpoint and before the closing one, with 12 AM read as 00:MM and 12 PM
    as 12:MM; a line whose first digits are those of a well-formed range
    matches with that range; Monday from 9:00 AM to 5:00 PM is open at 16:59
    and closed at 17:00. *)
Theorem openNow_within_hours :
  (forall intl lines tz parts hh mm line caps,
     intl tz = Ok parts ->
     parseInt (partValue parts (js "hour") (js "0")) = Some hh ->
     parseInt (partValue parts (js "minute") (js "0")) = Some mm ->
     todaysLine (partValue parts (js "weekday") []) lines line ->
     includes (toLowerCase line) (js "closed") = false ->
     stringMatch hoursPattern line = Some caps ->
     exists r,
       rangeOk r /\ holds line r /\ caps = captures r /\
       calculateOpenNowFromWeekdayText intl (Some lines) tz =
         (timeMinutes (r_open r) <=? hh * 60 + mm)%Z &&
         (hh * 60 + mm <? timeMinutes (r_close r))%Z) /\
  (forall line r,
     carries line r -> rangeOk r ->
     stringMatch hoursPattern line = Some (captures r)) /\
  (forall m, spec_minutes 12 m false = m /\ spec_minutes 12 m true = (12 * 60 + m)%Z) /\
  calculateOpenNowFromWeekdayText (clockAt "Monday" 16 59)
    (Some [Some mondayNineToFive]) (js "America/New_York") = true /\
  calculateOpenNowFromWeekdayText (clockAt "Monday" 17 0)
    (Some [Some mondayNineToFive]) (js "America/New_York") = false.
Proof.
  split; [exact openNow_general|].
  split; [exact stringMatch_carries|].
  split; [by intros m|].
  split; by vm_compute.
Qed.

Lemma openNow_within_hours_witness :
  exists r,
    rangeOk r /\ holds mondayNineToFive r /\ captures nineToFive = captures r /\
    calculateOpenNowFromWeekdayText (clockAt "Monday" 16 59)
      (Some [Some (js "Sunday: Closed"); Some mondayNineToFive])
      (js "America/New_York") =
      (timeMinutes (r_open r) <=? 16 * 60 + 59)%Z &&
      (16 * 60 + 59 <? timeMinutes (r_close r))%Z.
Proof.
  apply (proj1 openNow_within_hours (clockAt "Monday" 16 59)
           [Some (js "Sunday: Closed"); Some mondayNineToFive] (js "America/New_York")
           _ 16%Z 59%Z mondayNineToFive (captures nineToFive) eq_refl).
  - reflexivity.
  - reflexivity.
  - exists [js "Sunday: Closed"], []. split; [reflexivity|].
    split; [repeat constructor | reflexivity].
  - reflexivity.
  - reflexivity.
Defined.

(** C6: the resolver answers false, and nothing is thrown, when the hours
    are missing, when an exception is raised inside the computation, when no
    line starts with today's weekday name, when today's line contains
    "closed" in any case, and when today's line does not match the time-range
    pattern. *)
Theorem openNow_fails_closed (intl : jsstring -> exc (list Part))
    (weekdayText : option (list (option jsstring))) (tz : jsstring) :
  (weekdayText = None \/
   exists lines, weekdayText = Some lines /\
     ((exists msg, body intl lines tz = Throw msg) \/
      exists parts, intl tz = Ok parts /\
        ((forall text, Some text ∈ lines ->
            startsWith text (partValue parts (js "weekday") []) = false) \/
         exists line,
           todaysLine (partValue parts (js "weekday") []) lines line /\
           (includes (toLowerCase line) (js "closed") = true \/
            stringMatch hoursPattern line = None)))) ->
  calculateOpenNowFromWeekdayText intl weekdayText tz = false.
Proof.
  intros [-> | (lines & -> & H)]; [done|].
  unfold calculateOpenNowFromWeekdayText. destruct lines as [|l0 lines]; [done|].
  destruct H as [[msg ->] | (parts & Hintl & H)]; [done|].
  unfold body. rewrite Hintl.
  destruct H as [Hnone | (line & Hline & H)].
  - by destruct (findToday_none _ _ Hnone) as [-> | [msg ->]].
  - rewrite (findToday_todaysLine _ _ _ Hline).
    destruct (truthy (Some line)); [|done]. cbn [negb].
    destruct H as [-> | ->]; [done|].
    by destruct (includes (toLowerCase line) (js "closed")).
Qed.

Lemma openNow_fails_closed_witness :
  stringMatch hoursPattern (js "Monday: by appointment") = None /\
  calculateOpenNowFromWeekdayText (clockAt "Monday" 10 0)
    (Some [Some (js "Monday: by appointment")]) (js "America/New_York") = false.
Proof.
  split; [reflexivity|].
  apply openNow_fails_closed. right.
  exists [Some (js "Monday: by appointment")]. split; [reflexivity|]. right.
  eexists. split; [reflexivity|]. right.
  exists (js "Monday: by appointment"). split.
  - exists [], []. split; [reflexivity|]. split; [constructor | reflexivity].
  - right. reflexivity.
Defined.

(** A week in which one entry is not a string: the exception is caught. *)
Example openNow_catches :
  body (clockAt "Monday" 10 0) [None; Some mondayNineToFive] (js "America/New_York")
    = Throw (js "text.startsWith is not a function") /\
  calculateOpenNowFromWeekdayText (clockAt "Monday" 10 0)
    (Some [None; Some mondayNineToFive]) (js "America/New_York") = false.
Proof. split; reflexivity. Qed.

(** ** The bounded loops of the library *)

Section Bounded.
Variable host : GP.Host.

Lemma bind_total {A B} (m : GP.M A) (f : A -> GP.M B) (st : GP.Net) :
  (exists r st', m st = Some (r, st')) ->
  (forall a st1, exists r st', f a st1 = Some (r, st')) ->
  exists r st', GP.bind m f st = Some (r, st').
Proof.
  intros (r & st1 & Hm) Hf. unfold GP.bind. rewrite Hm.
  destruct r as [a|msg]; [apply Hf | eauto].
Qed.

Lemma searchDermClinicsTextPage_total (q : jsstring) (tok : option jsstring)
    (st : GP.Net) :
  exists r st', GP.searchDermClinicsTextPage host q tok st = Some (r, st').
Proof.
  unfold GP.searchDermClinicsTextPage.
  apply bind_total; [unfold GP.haveKey; destruct (truthy _); unfold GP.ret, GP.throw; eauto|].
  intros _ st1. apply bind_total; [apply fetchWithBackoff_total|].
  intros resp st2. apply bind_total.
  { destruct (negb _); unfold GP.ret, GP.throw; eauto. }
  intros _ st3. apply bind_total.
  { unfold GP.json. destruct (GP.body resp); unfold GP.ret, GP.throw; eauto. }
  intros data st4. unfold GP.ret. eauto.
Qed.

(** The pagination of one query ends within the pages that the limit
    leaves. *)
Lemma textPages_total (q : jsstring) (limit : nat) :
  forall (fuel : nat) (tok : option jsstring) (n : nat) (a : GP.Acc) (st : GP.Net),
    0 < fuel -> limit < fuel + n ->
    exists r st', GP.textPages fuel host q limit tok n a st = Some (r, st').
Proof.
  induction fuel as [|fuel IH]; intros tok n a st Hpos Hfuel; [lia|].
  cbn [GP.textPages]. apply bind_total; [apply searchDermClinicsTextPage_total|].
  intros [ps next] st1. apply bind_total.
  { destruct (GP.transformPlacesResponse host ps); simpl; unfold GP.ret, GP.throw; eauto. }
  intros batch st2.
  destruct (truthy next && (n + 1 <? limit)) eqn:E; [|unfold GP.ret; eauto].
  apply andb_true_iff in E as [_ E]. apply Nat.ltb_lt in E.
  apply IH; lia.
Qed.

Lemma searchDermClinicsText_total (queries : list jsstring) (limit : nat) (st : GP.Net) :
  exists r st', GP.searchDermClinicsText host queries limit st = Some (r, st').
Proof.
  unfold GP.searchDermClinicsText. apply bind_total; [|intros; unfold GP.ret; eauto].
  generalize ({| GP.all := []; GP.seen := ∅ |}). revert st.
  induction queries as [|q queries IH]; intros st a; cbn [GP.textQueries].
  - unfold GP.ret. eauto.
  - apply bind_total; [apply textPages_total; lia|]. intros a' st1. apply IH.
Qed.

End Bounded.

(* ===================================================================== *)
(** * Further properties of the collection script *)
(* ===================================================================== *)

Section CollectorRun.
Variables (cfg : Config) (env : Env).

Lemma add_not_inserted (p : Place) (l : Local) :
  snd (add env p l) = false -> fst (add env p l) = l.
Proof.
  unfold add. destruct (id p) as [i|]; [|done].
  by destruct (truthy (Some i) && negb (bool_decide (i ∈ seen l))).
Qed.

(** [l', g'] come after [l, g] in one [collectState] call: no file has been
    written, no request has been made, and the global count of clinics has
    grown by the clinics pushed. *)
Lemma forPlaces_run (ps : list (option Place)) (l : Local) (g : Globals) :
  let '(l', g', _) := forPlaces cfg env ps l g in
  files g' = files g /\ REQUESTS g' = REQUESTS g /\
  GLOBAL_CLINICS g <= GLOBAL_CLINICS g' /\
  GLOBAL_CLINICS g' + length (clinics l) = GLOBAL_CLINICS g + length (clinics l').
Proof.
  revert l g. induction ps as [|[p|] ps IH]; intros l g; simpl; [done| |done].
  destruct (acceptByDermHeuristics p); simpl; [|apply IH].
  pose proof (add_inserted env p l) as Hadd.
  pose proof (add_not_inserted p l) as Hnot.
  destruct (add env p l) as [l1 [|]]; simpl in Hadd, Hnot.
  - destruct (Hadd eq_refl) as (i & _ & _ & ->). simpl.
    repeat match goal with |- context [if ?b then _ else _] => destruct b end;
      simpl; rewrite ?length_app; simpl; try (repeat split; lia).
    match goal with |- context [forPlaces cfg env ps ?l1 ?g1] =>
      specialize (IH l1 g1); destruct (forPlaces cfg env ps l1 g1) as [[l' g'] ex]
    end.
    simpl in IH. rewrite length_app in IH. simpl in IH.
    destruct IH as (? & ? & ? & ?). repeat split; [done | done | lia | lia].
  - rewrite (Hnot eq_refl). apply IH.
Qed.

Lemma searchTextOnce_run (q : jsstring) (tok : option jsstring) (g : Globals) :
  files (snd (searchTextOnce cfg env q tok g)) = files g /\
  REQUESTS (snd (searchTextOnce cfg env q tok g)) = S (REQUESTS g) /\
  GLOBAL_CLINICS (snd (searchTextOnce cfg env q tok g)) = GLOBAL_CLINICS g.
Proof.
  unfold searchTextOnce.
  destruct (upstream env _ _ _) as [msg|st t [data|]]; simpl; [done| |];
    destruct (ok st); done.
Qed.

Lemma pagesLoop_run (fuel : nat) (q : jsstring) :
  forall (tok : option jsstring) (n : nat) (l : Local) (g : Globals)
         (r : exc Local) (g' : Globals),
    pagesLoop fuel cfg env q tok n l g = Some (r, g') ->
    files g' = files g /\ REQUESTS g < REQUESTS g' /\
    GLOBAL_CLINICS g <= GLOBAL_CLINICS g' /\
    (forall l', r = Ok l' ->
       GLOBAL_CLINICS g' + length (clinics l) = GLOBAL_CLINICS g + length (clinics l')).
Proof.
  induction fuel as [|fuel IH]; intros tok n l g r g'; simpl; [done|].
  destruct (searchTextOnce_run q tok g) as (Hf & Hr & Hc).
  destruct (searchTextOnce cfg env q tok g) as [[data|msg] g1]; simpl in Hf, Hr, Hc.
  2: { intros [= <- <-]. rewrite Hf, Hr, Hc. repeat split; [lia | lia | done]. }
  destruct (default (PlacesArray []) (places data)) as [ps|].
  2: { intros [= <- <-]. rewrite Hf, Hr, Hc. repeat split; [lia | lia | done]. }
  pose proof (forPlaces_run ps l g1) as Hfor.
  destruct (forPlaces cfg env ps l g1) as [[l2 g2] ex].
  destruct Hfor as (Hf2 & Hr2 & Hm2 & Hc2).
  assert (forall r0 g0,
            (if truthy (if truthy (nextPageToken data) then nextPageToken data else None)
             then pagesLoop fuel cfg env q
                    (if truthy (nextPageToken data) then nextPageToken data else None)
                    (S n) l2 (SLEEP (NEXT_PAGE_DELAY_MS cfg) g2)
             else Some (Ok l2, g2)) = Some (r0, g0) ->
            files g0 = files g /\ REQUESTS g < REQUESTS g0 /\
            GLOBAL_CLINICS g <= GLOBAL_CLINICS g0 /\
            (forall l', r0 = Ok l' ->
               GLOBAL_CLINICS g0 + length (clinics l) =
               GLOBAL_CLINICS g + length (clinics l'))) as Hnext.
  { intros r0 g0. destruct (truthy _).
    - intros H. apply IH in H as (H1 & H2 & H3 & H4). simpl in *.
      repeat split; [congruence | lia | lia |].
      intros l' ->. specialize (H4 l' eq_refl). lia.
    - intros [= <- <-]. repeat split; [congruence | lia | lia |].
      intros l' [= <-]. lia. }
  destruct ex as [| |msg]; [by apply Hnext | by apply Hnext |].
  intros [= <- <-]. repeat split; [congruence | lia | lia | done].
Qed.

Lemma forQueries_run (fuel : nat) (qs : list jsstring) :
  forall (l : Local) (g : Globals) (r : exc Local) (g' : Globals),
    forQueries fuel cfg env qs l g = Some (r, g') ->
    files g' = files g /\ REQUESTS g <= REQUESTS g' /\
    GLOBAL_CLINICS g <= GLOBAL_CLINICS g' /\
    (forall l', r = Ok l' ->
       REQUESTS g + length qs <= REQUESTS g' /\
       GLOBAL_CLINICS g' + length (clinics l) = GLOBAL_CLINICS g + length (clinics l')).
Proof.
  induction qs as [|q qs IH]; intros l g r g'; simpl.
  - intros [= <- <-]. split; [done|]. split; [lia|]. split; [lia|].
    intros l' [= <-]. lia.
  - destruct (pagesLoop fuel cfg env q None 0 l g) as [[[l1|msg] g1]|] eqn:E; [| |done].
    + apply pagesLoop_run in E as (H1 & H2 & H3 & H4). specialize (H4 l1 eq_refl).
      intros H. apply IH in H as (H5 & H6 & H7 & H8).
      split; [congruence|]. split; [lia|]. split; [lia|].
      intros l' ->. destruct (H8 l' eq_refl). lia.
    + apply pagesLoop_run in E as (H1 & H2 & H3 & _).
      intros [= <- <-]. split; [done|]. split; [lia|]. split; [lia | done].
Qed.

End CollectorRun.

Section CollectorCommit.
Variables (cfg : Config) (env : Env).

Lemma collectState_throw_files (fuel : nat) (stateCode : jsstring)
    (g g' : Globals) (msg : jsstring) :
  collectState fuel cfg env stateCode g = Some (Throw msg, g') ->
  files g' = files g.
Proof.
  unfold collectState.
  destruct (forQueries fuel cfg env (queriesOf stateCode) _ g)
    as [[[l1|msg'] g1]|] eqn:E; [| |done];
    apply forQueries_run in E as (Hf & _); by intros [= <- <-].
Qed.

(** When a query has gone through, each of its requests was answered. *)
Lemma pagesLoop_answered (fuel : nat) (q : jsstring) :
  forall (tok : option jsstring) (n : nat) (l l' : Local) (g g' : Globals),
    pagesLoop fuel cfg env q tok n l g = Some (Ok l', g') ->
    REQUESTS g < REQUESTS g' /\
    forall k, REQUESTS g <= k < REQUESTS g' -> Listing.answered env q k.
Proof.
  induction fuel as [|fuel IH]; intros tok n l l' g g'; [done|].
  intros H. split; [by apply pagesLoop_run in H as (_ & H & _)|]. revert H.
  cbn [pagesLoop]. unfold searchTextOnce.
  destruct (upstream env (REQUESTS g) q (if truthy tok then tok else None))
    as [msg|s t [data|]] eqn:Eup; [done | | by destruct (negb (ok s))].
  destruct (ok s) eqn:Eok; [|done]. cbn [negb].
  assert (Listing.answered env q (REQUESTS g)) as Hfirst by (by eexists _, s, t, data).
  destruct (default (PlacesArray []) (places data)) as [ps|]; [|done].
  pose proof (forPlaces_run cfg env ps l (gate cfg g)) as Hfor.
  destruct (forPlaces cfg env ps l (gate cfg g)) as [[l2 g2] ex].
  destruct Hfor as (_ & Hr & _). cbn [gate SLEEP REQUESTS] in Hr.
  assert (forall tok',
            (if truthy tok'
             then pagesLoop fuel cfg env q tok' (S n) l2 (SLEEP (NEXT_PAGE_DELAY_MS cfg) g2)
             else Some (Ok l2, g2)) = Some (Ok l', g') ->
            forall k, REQUESTS g <= k < REQUESTS g' -> Listing.answered env q k) as Hnext.
  { intros tok'. destruct (truthy tok').
    - intros H. apply IH in H as [_ H]. cbn [SLEEP REQUESTS] in H. rewrite Hr in H.
      intros k Hk. destruct (decide (k = REQUESTS g)) as [-> | Hne]; [done|].
      apply H. lia.
    - intros [= <- <-] k Hk. replace k with (REQUESTS g) by lia. done. }
  destruct ex as [| |msg]; [apply Hnext | apply Hnext | done].
Qed.

Lemma forQueries_answered (fuel : nat) (qs : list jsstring) :
  forall (l l' : Local) (g g' : Globals),
    forQueries fuel cfg env qs l g = Some (Ok l', g') ->
    (forall q, q ∈ qs ->
       exists k, REQUESTS g <= k < REQUESTS g' /\ Listing.answered env q k) /\
    (forall k, REQUESTS g <= k < REQUESTS g' ->
       exists q, q ∈ qs /\ Listing.answered env q k).
Proof.
  induction qs as [|q qs IH]; intros l l' g g'; cbn [forQueries].
  - intros [= <- <-]. split; [by intros q ?%elem_of_nil | intros k Hk; lia].
  - destruct (pagesLoop fuel cfg env q None 0 l g) as [[[l1|msg] g1]|] eqn:E; [| |done];
      [|done].
    apply pagesLoop_answered in E as [Hlt Hq]. intros H.
    pose proof (forQueries_run cfg env _ _ _ _ _ _ H) as (_ & Hle & _).
    apply IH in H as [H1 H2]. split.
    + intros q' [-> | Hin]%elem_of_cons.
      * exists (REQUESTS g). split; [lia|]. apply Hq. lia.
      * destruct (H1 q' Hin) as (k & Hk & Hans). exists k. split; [lia | done].
    + intros k Hk. destruct (decide (k < REQUESTS g1)) as [Hlow | Hhigh].
      * exists q. split; [constructor|]. apply Hq. lia.
      * destruct (H2 k ltac:(lia)) as (q' & Hin & Hans). exists q'.
        split; [by constructor | done].
Qed.

(** X1: [collectState] writes the file of its state only when each of the
    three queries has gone through: every request that the call has made,
    at least one for each query, was answered with an OK response whose body
    is JSON.  Then it writes that one file, with the code of the state and
    with [total] the number of its clinics.  A call that throws leaves every
    file as it was. *)
Theorem collectState_commits_last (fuel : nat) (stateCode : jsstring)
    (g g' : Globals) (r : exc unit) :
  collectState fuel cfg env stateCode g = Some (r, g') ->
  match r with
  | Throw _ => files g' = files g
  | Ok _ =>
      (forall q, q ∈ queriesOf stateCode ->
         exists k, REQUESTS g <= k < REQUESTS g' /\ Listing.answered env q k) /\
      (forall k, REQUESTS g <= k < REQUESTS g' ->
         exists q, q ∈ queriesOf stateCode /\ Listing.answered env q k) /\
      exists payload,
        files g' = <[ outPath env stateCode := payload ]> (files g) /\
        pl_state payload = stateCode /\
        pl_total payload = length (pl_clinics payload)
  end.
Proof.
  unfold collectState.
  destruct (forQueries fuel cfg env (queriesOf stateCode) _ g)
    as [[[l1|msg] g1]|] eqn:E; [| |done].
  - pose proof (forQueries_answered _ _ _ _ _ _ E) as [H1 H2].
    apply forQueries_run in E as (Hf & _). intros [= <- <-].
    cbn [writeFile REQUESTS files]. split; [done|]. split; [done|].
    eexists. rewrite Hf. by repeat split.
  - apply forQueries_run in E as (Hf & _). by intros [= <- <-].
Qed.

(** X2: a successful [collectState] has made at least one request for each
    of its three queries, and has raised the global count of clinics by the
    number of clinics it wrote. *)
Theorem collectState_counts (fuel : nat) (stateCode : jsstring) (g g' : Globals) :
  collectState fuel cfg env stateCode g = Some (Ok tt, g') ->
  exists payload,
    files g' !! outPath env stateCode = Some payload /\
    GLOBAL_CLINICS g' = GLOBAL_CLINICS g + pl_total payload /\
    REQUESTS g + 3 <= REQUESTS g'.
Proof.
  unfold collectState.
  destruct (forQueries fuel cfg env (queriesOf stateCode) _ g)
    as [[[l1|msg] g1]|] eqn:E; [| |done]; [|done].
  apply forQueries_run in E as (_ & _ & _ & H). destruct (H l1 eq_refl) as [Hr Hc].
  intros [= <-]. eexists. split; [apply lookup_insert_eq|]. simpl in *. lia.
Qed.

(** X3: in [main], a state whose collection throws writes no file; the run
    goes on with the next state, unless the message is that of a cap, which
    ends the run there. *)
Theorem main_isolates_failures (fuel : nat) (stateCode : jsstring)
    (rest : list jsstring) (g g1 : Globals) (msg : jsstring) :
  collectState fuel cfg env stateCode g = Some (Throw msg, g1) ->
  files g1 = files g /\
  main fuel cfg env (stateCode :: rest) g =
    (if includes msg (js "Global clinic cap hit") ||
        includes msg (js "Daily request cap hit")
     then Some g1 else main fuel cfg env rest g1).
Proof.
  intros H. split; [exact (collectState_throw_files _ _ _ _ _ H)|].
  cbn [main]. rewrite H. destruct msg as [|c msg]; [|done].
  cbn [truthy]. reflexivity.
Qed.

End CollectorCommit.

Lemma collectState_commits_last_witness :
  exists g',
    collectState 1 (Scenario.config 800) Scenario.sameEverywhere (js "AL") initial
      = Some (Ok tt, g') /\
    (forall q, q ∈ queriesOf (js "AL") ->
       exists k, REQUESTS initial <= k < REQUESTS g' /\
                 Listing.answered Scenario.sameEverywhere q k) /\
    (forall k, REQUESTS initial <= k < REQUESTS g' ->
       exists q, q ∈ queriesOf (js "AL") /\ Listing.answered Scenario.sameEverywhere q k) /\
    exists payload,
      files g' = <[ Scenario.stateFile (js "AL") := payload ]> (files initial) /\
      pl_state payload = js "AL" /\
      pl_total payload = length (pl_clinics payload).
Proof.
  eexists. split; [vm_compute; reflexivity|].
  apply (collectState_commits_last (Scenario.config 800) Scenario.sameEverywhere 1
           (js "AL") initial _ (Ok tt)).
  vm_compute; reflexivity.
Defined.

Lemma collectState_counts_witness :
  exists g',
    collectState 1 (Scenario.config 800) Scenario.sameEverywhere (js "AL") initial
      = Some (Ok tt, g') /\
    exists payload,
      files g' !! Scenario.stateFile (js "AL") = Some payload /\
      GLOBAL_CLINICS g' = GLOBAL_CLINICS initial + pl_total payload /\
      REQUESTS initial + 3 <= REQUESTS g'.
Proof.
  eexists. split; [vm_compute; reflexivity|].
  apply (collectState_counts (Scenario.config 800) Scenario.sameEverywhere 1
           (js "AL") initial).
  vm_compute; reflexivity.
Defined.

Lemma main_isolates_failures_witness :
  exists g1,
    collectState 1 (Scenario.config 800) Runs.failsOnce (js "AL") initial
      = Some (Throw (js "searchText failed: 500"), g1) /\
    files g1 = files initial /\
    main 1 (Scenario.config 800) Runs.failsOnce [js "AL"; js "GA"] initial =
      (if includes (js "searchText failed: 500") (js "Global clinic cap hit") ||
          includes (js "searchText failed: 500") (js "Daily request cap hit")
       then Some g1
       else main 1 (Scenario.config 800) Runs.failsOnce [js "GA"] g1).
Proof.
  eexists. split; [vm_compute; reflexivity|].
  apply (main_isolates_failures (Scenario.config 800) Runs.failsOnce 1 (js "AL")
           [js "GA"] initial).
  vm_compute; reflexivity.
Defined.

(** After the failure of Alabama the run collects Georgia. *)
Example main_goes_on :
  exists g,
    main 1 (Scenario.config 800) Runs.failsOnce [js "AL"; js "GA"] initial = Some g /\
    files g !! Scenario.stateFile (js "AL") = None /\
    pl_clinics <$> files g !! Scenario.stateFile (js "GA") =
      Some [toClinic Runs.failsOnce (Scenario.practice "x")] /\
    REQUESTS g = 4.
Proof.
  eexists. split; [vm_compute; reflexivity|]. repeat split; vm_compute; reflexivity.
Qed.

Section CollectorAccepted.
Variables (cfg : Config) (env : Env).

Lemma forPlaces_accepted (ps : list (option Place)) (l : Local) (g : Globals) :
  Forall (fun c => exists p, c = toClinic env p /\ acceptByDermHeuristics p = true /\
                             truthy (id p) = true) (clinics l) ->
  Forall (fun c => exists p, c = toClinic env p /\ acceptByDermHeuristics p = true /\
                             truthy (id p) = true)
    (clinics (fst (fst (forPlaces cfg env ps l g)))).
Proof.
  revert l g. induction ps as [|[p|] ps IH]; intros l g Hl; simpl; [done| |done].
  destruct (acceptByDermHeuristics p) eqn:Hacc; simpl; [|by apply IH].
  assert (Forall (fun c => exists p, c = toClinic env p /\
                            acceptByDermHeuristics p = true /\ truthy (id p) = true)
            (clinics (fst (add env p l)))) as Hadd.
  { unfold add. destruct (id p) as [i|] eqn:Hid; [|done].
    destruct (truthy (Some i)) eqn:Ht; [|done].
    destruct (negb _); simpl; [|done].
    apply Forall_app. split; [done|]. constructor; [|constructor].
    exists p. by rewrite Hid. }
  destruct (add env p l) as [l1 [|]]; simpl in Hadd; [|by apply IH].
  repeat match goal with |- context [if ?b then _ else _] => destruct b end;
    simpl; auto.
Qed.

Lemma pagesLoop_accepted (fuel : nat) (q : jsstring) (tok : option jsstring)
    (n : nat) (l l' : Local) (g g' : Globals) :
  Forall (fun c => exists p, c = toClinic env p /\ acceptByDermHeuristics p = true /\
                             truthy (id p) = true) (clinics l) ->
  pagesLoop fuel cfg env q tok n l g = Some (Ok l', g') ->
  Forall (fun c => exists p, c = toClinic env p /\ acceptByDermHeuristics p = true /\
                             truthy (id p) = true) (clinics l').
Proof.
  revert tok n l g. induction fuel as [|fuel IH]; intros tok n l g Hl; simpl; [done|].
  destruct (searchTextOnce cfg env q tok g) as [[data|msg] g1]; [|done].
  destruct (default (PlacesArray []) (places data)) as [ps|]; [|done].
  pose proof (forPlaces_accepted ps l g1 Hl) as Hfor.
  destruct (forPlaces cfg env ps l g1) as [[l2 g2] ex]; simpl in Hfor.
  destruct ex; try done;
    (destruct (truthy (if truthy (nextPageToken data) then nextPageToken data else None));
     [by apply IH | by intros [= <- <-]]).
Qed.

Lemma forQueries_accepted (fuel : nat) (qs : list jsstring)
    (l l' : Local) (g g' : Globals) :
  Forall (fun c => exists p, c = toClinic env p /\ acceptByDermHeuristics p = true /\
                             truthy (id p) = true) (clinics l) ->
  forQueries fuel cfg env qs l g = Some (Ok l', g') ->
  Forall (fun c => exists p, c = toClinic env p /\ acceptByDermHeuristics p = true /\
                             truthy (id p) = true) (clinics l').
Proof.
  revert l g. induction qs as [|q qs IH]; intros l g Hl; simpl.
  - by intros [= <- <-].
  - destruct (pagesLoop fuel cfg env q None 0 l g) as [[[l1|msg] g1]|] eqn:E; try done.
    apply IH. eapply pagesLoop_accepted; [exact Hl | exact E].
Qed.

(** X4: every clinic that [collectState] writes is the normalization of a
    candidate that the classifier accepted and that carries a non-empty
    identifier, which is the clinic's [place_id]. *)
Theorem collectState_stores_accepted (fuel : nat) (stateCode : jsstring)
    (g g' : Globals) :
  collectState fuel cfg env stateCode g = Some (Ok tt, g') ->
  exists payload,
    files g' !! outPath env stateCode = Some payload /\
    Forall (fun c => exists p,
              c = toClinic env p /\ acceptByDermHeuristics p = true /\
              truthy (place_id c) = true /\ place_id c = id p)
      (pl_clinics payload).
Proof.
  unfold collectState.
  destruct (forQueries fuel cfg env (queriesOf stateCode) _ g)
    as [[[l1|msg] g1]|] eqn:E; [| |done]; [|done].
  intros [= <-]. eexists. split; [apply lookup_insert_eq|]. simpl.
  apply forQueries_accepted in E; [|constructor].
  eapply Forall_impl; [exact E|]. intros c (p & -> & Hacc & Hid). by exists p.
Qed.

(** With a global cap and no cap per state, the count of clinics stays
    below the cap until the push that reaches it, which throws. *)
Section GlobalCap.
Hypothesis no_state_cap : MAX_CLINICS_PER_STATE cfg = 0.
Hypothesis cap_set : 0 < MAX_CLINICS_GLOBAL cfg.

Lemma forPlaces_global_cap (ps : list (option Place)) (l : Local) (g : Globals) :
  GLOBAL_CLINICS g < MAX_CLINICS_GLOBAL cfg ->
  let '(_, g', ex) := forPlaces cfg env ps l g in
  GLOBAL_CLINICS g' < MAX_CLINICS_GLOBAL cfg \/
  (GLOBAL_CLINICS g' = MAX_CLINICS_GLOBAL cfg /\
   ex = Thrown (js "Global clinic cap hit")).
Proof.
  revert l g. induction ps as [|[p|] ps IH]; intros l g Hg; simpl; [by left| |by left].
  destruct (acceptByDermHeuristics p); simpl; [|by apply IH].
  destruct (add env p l) as [l1 [|]]; [|by apply IH].
  rewrite no_state_cap. simpl.
  destruct (MAX_CLINICS_GLOBAL cfg =? 0)%nat eqn:E0; [apply Nat.eqb_eq in E0; lia|].
  simpl. destruct (MAX_CLINICS_GLOBAL cfg <=? S (GLOBAL_CLINICS g))%nat eqn:E.
  - apply Nat.leb_le in E. right. split; [simpl; lia | done].
  - apply Nat.leb_gt in E. by apply IH.
Qed.

Lemma pagesLoop_global_cap (fuel : nat) (q : jsstring) :
  forall (tok : option jsstring) (n : nat) (l : Local) (g : Globals)
         (r : exc Local) (g' : Globals),
    GLOBAL_CLINICS g < MAX_CLINICS_GLOBAL cfg ->
    pagesLoop fuel cfg env q tok n l g = Some (r, g') ->
    GLOBAL_CLINICS g' < MAX_CLINICS_GLOBAL cfg \/
    (GLOBAL_CLINICS g' = MAX_CLINICS_GLOBAL cfg /\
     r = Throw (js "Global clinic cap hit")).
Proof.
  induction fuel as [|fuel IH]; intros tok n l g r g' Hg; simpl; [done|].
  destruct (searchTextOnce_run cfg env q tok g) as (_ & _ & Hc).
  destruct (searchTextOnce cfg env q tok g) as [[data|msg] g1]; simpl in Hc.
  2: { intros [= <- <-]. left. lia. }
  destruct (default (PlacesArray []) (places data)) as [ps|].
  2: { intros [= <- <-]. left. lia. }
  pose proof (forPlaces_global_cap ps l g1 ltac:(lia)) as Hfor.
  destruct (forPlaces cfg env ps l g1) as [[l2 g2] ex].
  destruct Hfor as [Hlt | [Heq ->]].
  - destruct ex as [| |msg]; [| |intros [= <- <-]; by left];
      (destruct (truthy _); [by apply IH | intros [= <- <-]; by left]).
  - intros [= <- <-]. by right.
Qed.

Lemma forQueries_global_cap (fuel : nat) (qs : list jsstring) :
  forall (l : Local) (g : Globals) (r : exc Local) (g' : Globals),
    GLOBAL_CLINICS g < MAX_CLINICS_GLOBAL cfg ->
    forQueries fuel cfg env qs l g = Some (r, g') ->
    GLOBAL_CLINICS g' < MAX_CLINICS_GLOBAL cfg \/
    (GLOBAL_CLINICS g' = MAX_CLINICS_GLOBAL cfg /\
     r = Throw (js "Global clinic cap hit")).
Proof.
  induction qs as [|q qs IH]; intros l g r g' Hg; simpl.
  - intros [= <- <-]. by left.
  - destruct (pagesLoop fuel cfg env q None 0 l g) as [[[l1|msg] g1]|] eqn:E; [| |done];
      apply pagesLoop_global_cap in E; try done.
    + destruct E as [E | [_ E]]; [by apply IH | done].
    + intros [= <- <-]. destruct E as [E | [E1 [= E2]]]; [by left | right]. by subst.
Qed.

Lemma main_global_cap (fuel : nat) (states : list jsstring) :
  forall (g g' : Globals),
    GLOBAL_CLINICS g < MAX_CLINICS_GLOBAL cfg ->
    main fuel cfg env states g = Some g' ->
    GLOBAL_CLINICS g' <= MAX_CLINICS_GLOBAL cfg.
Proof.
  induction states as [|st states IH]; intros g g' Hg; simpl.
  - intros [= <-]. lia.
  - unfold collectState.
    destruct (forQueries fuel cfg env (queriesOf st) _ g)
      as [[[l1|msg] g1]|] eqn:E; [| |done];
      apply forQueries_global_cap in E; try done.
    + destruct E as [E | [_ E]]; [|done]. by apply IH.
    + destruct E as [E | [E1 [= ->]]].
      * destruct (_ || _); [intros [= <-]; lia | by apply IH].
      * change (truthy (Some (js "Global clinic cap hit"))) with true. cbn iota.
        change (includes (js "Global clinic cap hit") (js "Global clinic cap hit"))
          with true.
        intros [= <-]. lia.
Qed.

End GlobalCap.

End CollectorAccepted.

(** X5: when only the global cap is set, a run that starts below the cap
    never counts more clinics than the cap: the push that reaches it throws
    "Global clinic cap hit", and [main] stops the run on that message. *)
Theorem global_cap_holds (fuel : nat) (cfg : Config) (env : Env)
    (states : list jsstring) (g g' : Globals) :
  MAX_CLINICS_PER_STATE cfg = 0 ->
  GLOBAL_CLINICS g < MAX_CLINICS_GLOBAL cfg ->
  main fuel cfg env states g = Some g' ->
  GLOBAL_CLINICS g' <= MAX_CLINICS_GLOBAL cfg.
Proof.
  intros Hstate Hg. apply main_global_cap; [done | lia | done].
Qed.

Lemma collectState_stores_accepted_witness :
  exists g',
    collectState 1 (Scenario.config 800) Scenario.sameEverywhere (js "AL") initial
      = Some (Ok tt, g') /\
    exists payload,
      files g' !! Scenario.stateFile (js "AL") = Some payload /\
      Forall (fun c => exists p,
                c = toClinic Scenario.sameEverywhere p /\
                acceptByDermHeuristics p = true /\
                truthy (place_id c) = true /\ place_id c = id p)
        (pl_clinics payload).
Proof.
  eexists. split; [vm_compute; reflexivity|].
  apply (collectState_stores_accepted (Scenario.config 800) Scenario.sameEverywhere 1
           (js "AL") initial).
  vm_compute; reflexivity.
Defined.

Lemma global_cap_holds_witness :
  exists g',
    MAX_CLINICS_PER_STATE (Runs.capped 2) = 0 /\
    GLOBAL_CLINICS initial < MAX_CLINICS_GLOBAL (Runs.capped 2) /\
    main 1 (Runs.capped 2) Runs.three [js "AL"; js "GA"] initial = Some g' /\
    GLOBAL_CLINICS g' <= MAX_CLINICS_GLOBAL (Runs.capped 2).
Proof.
  eexists. split; [reflexivity|]. split; [vm_compute; lia|].
  split; [vm_compute; reflexivity|].
  apply (global_cap_holds 1 (Runs.capped 2) Runs.three [js "AL"; js "GA"] initial);
    [reflexivity | vm_compute; lia | vm_compute; reflexivity].
Defined.

(** With a cap of two and three practices on the first page, the run stops
    after one request, has counted two clinics and has written nothing. *)
Example global_cap_stops_run :
  exists g',
    main 1 (Runs.capped 2) Runs.three [js "AL"; js "GA"] initial = Some g' /\
    GLOBAL_CLINICS g' = 2 /\ REQUESTS g' = 1 /\ stored g' = [].
Proof.
  eexists. split; [vm_compute; reflexivity|]. repeat split; vm_compute; reflexivity.
Qed.

Section StateCap.
Variables (cfg : Config) (env : Env).
Hypothesis state_cap_set : 0 < MAX_CLINICS_PER_STATE cfg.

(** One page fills the list up to the cap, or adds one clinic to a list that
    has reached it. *)
Lemma forPlaces_state_cap (ps : list (option Place)) (l : Local) (g : Globals) :
  length (clinics (fst (fst (forPlaces cfg env ps l g)))) <=
    Nat.max (MAX_CLINICS_PER_STATE cfg) (S (length (clinics l))).
Proof.
  revert l g. induction ps as [|[p|] ps IH]; intros l g; simpl; [lia| |lia].
  destruct (acceptByDermHeuristics p); simpl; [|apply IH].
  pose proof (add_inserted env p l) as Hadd.
  pose proof (add_not_inserted env p l) as Hnot.
  destruct (add env p l) as [l1 [|]]; simpl in Hadd, Hnot.
  - destruct (Hadd eq_refl) as (i & _ & _ & ->). simpl. rewrite length_app. simpl.
    destruct (MAX_CLINICS_PER_STATE cfg =? 0)%nat eqn:E0; [apply Nat.eqb_eq in E0; lia|].
    simpl.
    destruct (MAX_CLINICS_PER_STATE cfg <=? length (clinics l) + 1)%nat eqn:E.
    + simpl. rewrite length_app. simpl. lia.
    + apply Nat.leb_gt in E.
      destruct (negb _ && _).
      * simpl. rewrite length_app. simpl. lia.
      * match goal with |- context [forPlaces cfg env ps ?l1 ?g1] =>
          specialize (IH l1 g1) end.
        simpl in IH. rewrite length_app in IH. simpl in IH. lia.
  - rewrite (Hnot eq_refl). apply IH.
Qed.

Lemma pagesLoop_state_cap (fuel : nat) (q : jsstring) :
  forall (tok : option jsstring) (n : nat) (l l' : Local) (g g' : Globals),
    pagesLoop fuel cfg env q tok n l g = Some (Ok l', g') ->
    length (clinics l') + REQUESTS g + 1 <=
      Nat.max (MAX_CLINICS_PER_STATE cfg) (S (length (clinics l))) + REQUESTS g'.
Proof.
  induction fuel as [|fuel IH]; intros tok n l l' g g'; simpl; [done|].
  destruct (searchTextOnce_run cfg env q tok g) as (_ & Hr & _).
  destruct (searchTextOnce cfg env q tok g) as [[data|msg] g1]; simpl in Hr; [|done].
  destruct (default (PlacesArray []) (places data)) as [ps|]; [|done].
  pose proof (forPlaces_state_cap ps l g1) as Hcap.
  pose proof (forPlaces_run cfg env ps l g1) as Hrun.
  destruct (forPlaces cfg env ps l g1) as [[l2 g2] ex]; simpl in Hcap.
  destruct Hrun as (_ & Hr2 & _).
  assert (forall tok',
            (if truthy tok'
             then pagesLoop fuel cfg env q tok' (S n) l2 (SLEEP (NEXT_PAGE_DELAY_MS cfg) g2)
             else Some (Ok l2, g2)) = Some (Ok l', g') ->
            length (clinics l') + REQUESTS g + 1 <=
              Nat.max (MAX_CLINICS_PER_STATE cfg) (S (length (clinics l))) + REQUESTS g')
    as Hnext.
  { intros tok'. destruct (truthy tok').
    - intros H. pose proof (pagesLoop_run cfg env _ _ _ _ _ _ _ _ H) as (_ & Hlt & _).
      apply IH in H. simpl in *. lia.
    - intros [= <- <-]. lia. }
  destruct ex as [| |msg]; [apply Hnext | apply Hnext | done].
Qed.

Lemma forQueries_state_cap (fuel : nat) (qs : list jsstring) :
  forall (l l' : Local) (g g' : Globals),
    forQueries fuel cfg env qs l g = Some (Ok l', g') ->
    length (clinics l') + REQUESTS g + 1 <=
      Nat.max (MAX_CLINICS_PER_STATE cfg) (S (length (clinics l))) + REQUESTS g'.
Proof.
  induction qs as [|q qs IH]; intros l l' g g'; simpl.
  - intros [= <- <-]. lia.
  - destruct (pagesLoop fuel cfg env q None 0 l g) as [[[l1|msg] g1]|] eqn:E; try done.
    pose proof (pagesLoop_run cfg env _ _ _ _ _ _ _ _ E) as (_ & Hlt & _).
    apply pagesLoop_state_cap in E. intros H.
    pose proof (forQueries_run cfg env _ _ _ _ _ _ H) as (_ & Hle & _).
    apply IH in H. lia.
Qed.

End StateCap.

(** X6: the cap per state is not a bound on what the file of a state
    holds: its [break] leaves the loop over the places of one page, and the
    pagination and the other queries go on, each page adding one more
    clinic.  With a cap of 1 and a service that lists new practices on every
    page, the three requests of a state store 3 clinics.  What does hold is
    that a state collected in [k] requests holds at most [cap + k - 1]
    clinics, and that run attains it. *)
Theorem state_cap_is_per_page :
  (forall (fuel : nat) (cfg : Config) (env : Env) (stateCode : jsstring)
          (g g' : Globals),
     0 < MAX_CLINICS_PER_STATE cfg ->
     collectState fuel cfg env stateCode g = Some (Ok tt, g') ->
     exists payload,
       files g' !! outPath env stateCode = Some payload /\
       pl_total payload + REQUESTS g + 1 <= MAX_CLINICS_PER_STATE cfg + REQUESTS g') /\
  (exists g' payload,
     collectState 1 (Runs.cappedPerState 1) Runs.alwaysNew (js "AL") initial
       = Some (Ok tt, g') /\
     files g' !! outPath Runs.alwaysNew (js "AL") = Some payload /\
     MAX_CLINICS_PER_STATE (Runs.cappedPerState 1) = 1 /\
     REQUESTS g' = 3 /\
     pl_total payload = 3 /\
     length (pl_clinics payload) = 3).
Proof.
  split.
  - intros fuel cfg env stateCode g g' Hcap. unfold collectState.
    destruct (forQueries fuel cfg env (queriesOf stateCode) _ g)
      as [[[l1|msg] g1]|] eqn:E; [| |done]; [|done].
    apply forQueries_state_cap in E; [|done]. simpl in E.
    intros [= <-]. eexists. split; [apply lookup_insert_eq|]. simpl. lia.
  - eexists _, _. split; [vm_compute; reflexivity|].
    split; [vm_compute; reflexivity|]. repeat split; reflexivity.
Qed.

Lemma state_cap_is_per_page_witness :
  exists g',
    0 < MAX_CLINICS_PER_STATE (Runs.cappedPerState 1) /\
    collectState 1 (Runs.cappedPerState 1) Runs.alwaysNew (js "AL") initial
      = Some (Ok tt, g') /\
    exists payload,
      files g' !! Scenario.stateFile (js "AL") = Some payload /\
      pl_total payload + REQUESTS initial + 1 <=
        MAX_CLINICS_PER_STATE (Runs.cappedPerState 1) + REQUESTS g'.
Proof.
  eexists. split; [vm_compute; lia|]. split; [vm_compute; reflexivity|].
  apply (proj1 state_cap_is_per_page 1 (Runs.cappedPerState 1) Runs.alwaysNew (js "AL")
           initial); [vm_compute; lia | vm_compute; reflexivity].
Defined.

(* ===================================================================== *)
(** * Further properties of the classifiers *)
(* ===================================================================== *)

Lemma includes_app_l (a b t : jsstring) :
  includes a t = true -> includes (a ++ b) t = true.
Proof.
  rewrite !includes_spec. intros (pre & post & ->).
  exists pre, (post ++ b). by rewrite <- !app_assoc.
Qed.

Lemma includes_app_r (a b t : jsstring) :
  includes b t = true -> includes (a ++ b) t = true.
Proof.
  rewrite !includes_spec. intros (pre & post & ->).
  exists (a ++ pre), post. by rewrite <- !app_assoc.
Qed.

Lemma searchText_name (p : Place) (t : jsstring) :
  includes (nameOf p) t = true -> includes (searchText p) t = true.
Proof. apply includes_app_l. Qed.

Lemma searchText_website (p : Place) (t : jsstring) :
  includes (websiteOf p) t = true -> includes (searchText p) t = true.
Proof.
  intros H. unfold searchText. apply includes_app_r, includes_app_r.
  by apply includes_app_l.
Qed.

Lemma searchText_types (p : Place) (t : jsstring) :
  includes (typesOf p) t = true -> includes (searchText p) t = true.
Proof.
  intros H. unfold searchText. by do 4 apply includes_app_r.
Qed.

(** X7: the script accepts no candidate whose name, website and type tags
    mention neither "derm" nor "skin" nor "mohs surgery". *)
Theorem accepted_mentions_skin (p : Place) :
  acceptByDermHeuristics p = true ->
  includes (searchText p) (js "derm") = true \/
  includes (searchText p) (js "skin") = true \/
  includes (searchText p) (js "mohs surgery") = true.
Proof.
  unfold acceptByDermHeuristics.
  destruct (existsb (includes (searchText p)) excludeTerms); [done|].
  destruct (includes (typesOf p) (js "skin_care_clinic")) eqn:E2.
  { intros _. right; left. apply searchText_types.
    apply includes_trans with (js "skin_care_clinic"); [done | by vm_compute]. }
  destruct (existsb (includes (searchText p)) coreTerms) eqn:E3.
  { intros _. left. apply existsb_exists in E3 as (t & Ht & Hin).
    apply includes_trans with t; [done|].
    vm_compute in Ht. repeat (destruct Ht as [<- | Ht]; [by vm_compute|]). destruct Ht. }
  destruct (existsb _ relatedTerms) eqn:E4.
  { intros _. apply existsb_exists in E4 as (t & Ht & Hin).
    assert (includes (searchText p) t = true) as Hs.
    { apply orb_true_iff in Hin as [Hin | Hin];
        [by apply searchText_name | by apply searchText_website]. }
    assert (includes t (js "derm") = true \/ includes t (js "skin") = true \/
            t = js "mohs surgery") as [Ht' | [Ht' | ->]].
    { vm_compute in Ht.
      repeat (destruct Ht as [<- | Ht];
              [first [ by left; vm_compute | by right; left; vm_compute
                     | by right; right ]|]).
      destruct Ht. }
    - left. by apply includes_trans with t.
    - right; left. by apply includes_trans with t.
    - by right; right. }
  destruct (includes (searchText p) (js "derm")) eqn:E5; [by left|].
  destruct (includes (nameOf p) (js "skin")) eqn:E6.
  { intros _. right; left. by apply searchText_name. }
  destruct (includes (websiteOf p) (js "skin")) eqn:E7.
  { intros _. right; left. by apply searchText_website. }
  done.
Qed.

Lemma accepted_mentions_skin_witness :
  acceptByDermHeuristics (named "Coastal Mohs Surgery" []) = true /\
  (includes (searchText (named "Coastal Mohs Surgery" [])) (js "derm") = true \/
   includes (searchText (named "Coastal Mohs Surgery" [])) (js "skin") = true \/
   includes (searchText (named "Coastal Mohs Surgery" [])) (js "mohs surgery") = true).
Proof.
  split; [by vm_compute|].
  apply (accepted_mentions_skin (named "Coastal Mohs Surgery" [])). by vm_compute.
Defined.

(** X8: the library keeps a place exactly when it has an identifier and
    either carries the type tag skin_care_clinic or has "derm" or "skin" in
    its lower-case name or website; the list [DERM_TERMS] adds nothing to
    that, since each of its terms contains one of the two; and there is no
    exclude list. *)
Theorem transformSinglePlace_keeps (host : GP.Host) (p : Place) :
  is_Some (GP.transformSinglePlace host (Some p)) <->
  truthy (id p) = true /\
  (In (js "skin_care_clinic") (default [] (types p)) \/
   includes (nameOf p) (js "derm") = true \/
   includes (nameOf p) (js "skin") = true \/
   includes (websiteOf p) (js "derm") = true \/
   includes (websiteOf p) (js "skin") = true).
Proof.
  unfold GP.transformSinglePlace, nameOf, websiteOf.
  set (name := toLowerCase (orEmpty (displayName p))).
  set (site := toLowerCase (orEmpty (websiteUri p))).
  assert (existsb (includes name) GP.DERM_TERMS = true ->
          includes name (js "derm") = true \/ includes name (js "skin") = true) as Hterms.
  { intros (t & Ht & Hin)%existsb_exists. vm_compute in Ht.
    repeat (destruct Ht as [<- | Ht];
            [first [ by left; apply (includes_trans _ _ (js "derm") Hin); vm_compute
                   | by right; apply (includes_trans _ _ (js "skin") Hin); vm_compute ]|]).
    destruct Ht. }
  assert (existsb (JsString.eqb (js "skin_care_clinic")) (default [] (types p)) = true <->
          In (js "skin_care_clinic") (default [] (types p))) as Htypes.
  { rewrite existsb_exists. unfold JsString.eqb. split.
    - intros (t & Hin & Ht). apply bool_decide_eq_true in Ht. by subst t.
    - intros Hin. eexists. split; [exact Hin | by apply bool_decide_eq_true]. }
  destruct (id p) as [[|c i]|]; cbv beta iota zeta.
  - split; [by intros [? ?] | by intros [? _]].
  - cbn [truthy].
    destruct (existsb (JsString.eqb _) _) eqn:Ety; cbn [orb negb].
    { split; [|intros _; eexists; reflexivity]. intros _. split; [done|]. left.
      by apply Htypes. }
    destruct (existsb (includes name) GP.DERM_TERMS) eqn:Et; cbn [orb negb].
    { split; [|intros _; eexists; reflexivity]. intros _. split; [done|]. right.
      destruct (Hterms eq_refl) as [H | H]; tauto. }
    destruct (includes name (js "derm")) eqn:E1; cbn [orb negb].
    { split; [|intros _; eexists; reflexivity]. intros _. tauto. }
    destruct (includes name (js "skin")) eqn:E2; cbn [orb negb].
    { split; [|intros _; eexists; reflexivity]. intros _. tauto. }
    destruct (includes site (js "derm")) eqn:E3; cbn [orb negb].
    { split; [|intros _; eexists; reflexivity]. intros _. tauto. }
    destruct (includes site (js "skin")) eqn:E4; cbn [orb negb].
    { split; [|intros _; eexists; reflexivity]. intros _. tauto. }
    split; [by intros [? ?]|].
    intros [_ [H | [H | [H | [H | H]]]]]; try discriminate.
    apply Htypes in H. discriminate.
  - split; [by intros [? ?] | by intros [? _]].
Qed.

(** X9: [transformPlacesResponse] drops places and keeps the order: the
    identifiers of the clinics are, in order, identifiers of the places, and
    none is empty. *)
Theorem transformPlacesResponse_filters (host : GP.Host) (l : list (option Place)) :
  exists cs,
    GP.transformPlacesResponse host (PlacesArray l) = Ok cs /\
    (place_id <$> cs) `sublist_of` ((fun p => p ≫= id) <$> l) /\
    Forall (fun c => truthy (place_id c) = true) cs /\
    length cs <= length l.
Proof.
  eexists. split; [reflexivity|].
  induction l as [|p l (IH1 & IH2 & IH3)]; simpl.
  - split; [done|]. split; [constructor | lia].
  - destruct (GP.transformSinglePlace host p) as [c|] eqn:E.
    + assert (place_id c = p ≫= id /\ truthy (place_id c) = true) as [Hid Htr].
      { revert E. unfold GP.transformSinglePlace.
        destruct p as [p|]; [|done]. simpl.
        destruct (id p) as [[|x i]|]; try done.
        destruct (negb _); [done|]. by intros [= <-]. }
      simpl. rewrite Hid. split; [by apply sublist_skip|].
      split; [by constructor | apply le_n_S, IH3].
    + split; [by apply sublist_cons|]. split; [done | apply le_S, IH3].
Qed.

(* ===================================================================== *)
(** * Further properties of the library *)
(* ===================================================================== *)

Section Budget.
Variable host : GP.Host.

Lemma bind_inv {A B} (m : GP.M A) (f : A -> GP.M B) (st st' : GP.Net) (r : exc B) :
  GP.bind m f st = Some (r, st') ->
  (exists msg, m st = Some (Throw msg, st') /\ r = Throw msg) \/
  (exists a st1, m st = Some (Ok a, st1) /\ f a st1 = Some (r, st')).
Proof.
  unfold GP.bind. destruct (m st) as [[[a|msg] st1]|]; [| |done].
  - intros H. right. eauto.
  - intros [= <- <-]. left. eauto.
Qed.

Lemma fetchWithBackoff_budget (req : GP.Request) (maxRetries : nat) (st st' : GP.Net)
    (r : exc GP.Response) :
  GP.fetchWithBackoff host req maxRetries st = Some (r, st') ->
  GP.calls st < GP.calls st' <= GP.calls st + maxRetries + 1.
Proof.
  destruct (fetchWithBackoff_runs host req maxRetries st)
    as (n & st1 & Hle & _ & _ & Hrun & Hcalls & _).
  rewrite Hrun. intros [= _ <-]. lia.
Qed.

Lemma searchDermClinicsTextPage_budget (q : jsstring) (tok : option jsstring)
    (st st' : GP.Net) (r : exc (JsPlaces * option jsstring)) :
  GP.searchDermClinicsTextPage host q tok st = Some (r, st') ->
  GP.calls st' <= GP.calls st + (GP.defaultMaxRetries + 1) /\
  (truthy (GP.apiKey host) = false ->
   r = Throw (js "Missing GOOGLE_PLACES_API_KEY") /\ st' = st).
Proof.
  unfold GP.searchDermClinicsTextPage, GP.haveKey.
  destruct (truthy (GP.apiKey host)).
  - intros H. split; [|done].
    apply bind_inv in H as [(msg & [= ] & _) | (u & st0 & [= _ <-] & Ha)].
    apply bind_inv in Ha as [(msg & Hb & _) | (resp & st1 & H1 & Hb)].
    { apply fetchWithBackoff_budget in Hb. lia. }
    apply fetchWithBackoff_budget in H1.
    assert (st' = st1) as ->; [|lia].
    apply bind_inv in Hb as [(msg & Hc & _) | (u' & st2 & H2 & Hc)].
    { destruct (negb _); by injection Hc as _ <-. }
    assert (st2 = st1) as -> by (destruct (negb _); by injection H2 as _ <-).
    apply bind_inv in Hc as [(msg & Hd & _) | (data & st3 & H3 & Hd)];
      unfold GP.json in *; destruct (GP.body resp); try done.
    + by injection Hd as _ <-.
    + injection H3 as _ <-. by injection Hd as _ <-.
  - unfold GP.bind, GP.throw. intros [= <- <-]. split; [lia | done].
Qed.

(** The pages of one query: each is one call of [fetchWithBackoff], and
    after the first there are as many as the limit leaves. *)
Lemma textPages_budget (q : jsstring) (limit : nat) :
  forall (fuel : nat) (tok : option jsstring) (n : nat) (a : GP.Acc)
         (st st' : GP.Net) (r : exc GP.Acc),
    GP.textPages fuel host q limit tok n a st = Some (r, st') ->
    GP.calls st' <=
      GP.calls st + (Nat.max (n + 1) limit - n) * (GP.defaultMaxRetries + 1).
Proof.
  induction fuel as [|fuel IH]; intros tok n a st st' r; [done|].
  cbn [GP.textPages]. intros H.
  assert (1 <= Nat.max (n + 1) limit - n) as Hone by lia.
  apply bind_inv in H as [(msg & Ha & _) | ([ps next] & st1 & H1 & Ha)].
  { apply searchDermClinicsTextPage_budget in Ha as [Ha _]. nia. }
  apply searchDermClinicsTextPage_budget in H1 as [Hc1 _].
  apply bind_inv in Ha as [(msg & Hb & _) | (batch & st2 & H2 & Hb)].
  { destruct (GP.transformPlacesResponse host ps); [done|].
    injection Hb as _ <-. nia. }
  assert (st2 = st1) as ->.
  { destruct (GP.transformPlacesResponse host ps); [|done]. by injection H2 as _ <-. }
  destruct (truthy next && (n + 1 <? limit)) eqn:E.
  - apply andb_true_iff in E as [_ E]. apply Nat.ltb_lt in E.
    apply IH in Hb.
    replace (Nat.max (n + 1 + 1) limit - (n + 1)) with (limit - (n + 1)) in Hb by lia.
    replace (Nat.max (n + 1) limit - n) with (S (limit - (n + 1))) by lia.
    lia.
  - injection Hb as _ <-. nia.
Qed.

Lemma textQueries_budget (limit : nat) :
  forall (queries : list jsstring) (a : GP.Acc) (st st' : GP.Net) (r : exc GP.Acc),
    GP.textQueries host queries limit a st = Some (r, st') ->
    GP.calls st' <=
      GP.calls st + length queries * (Nat.max 1 limit * (GP.defaultMaxRetries + 1)).
Proof.
  induction queries as [|q queries IH]; intros a st st' r; cbn [GP.textQueries].
  - intros [= _ <-]. lia.
  - intros H. apply bind_inv in H as [(msg & Ha & _) | (a1 & st1 & H1 & Ha)].
    + apply textPages_budget in Ha. simpl in *. lia.
    + apply textPages_budget in H1. apply IH in Ha. simpl in *. lia.
Qed.

Lemma searchDermClinics_run (loc : Location) (radius : Z) (rank : GP.Rank)
    (st : GP.Net) :
  exists cs st',
    GP.searchDermClinics host loc radius rank st = Some (Ok cs, st') /\
    GP.calls st' <= GP.calls st + (GP.defaultMaxRetries + 1) /\
    (truthy (GP.apiKey host) = false -> cs = [] /\ st' = st).
Proof.
  destruct (searchDermClinics_catches host loc radius rank st) as (cs & st' & Hrun & _).
  exists cs, st'. split; [done|]. revert Hrun.
  unfold GP.searchDermClinics, GP.catch, GP.haveKey.
  destruct (truthy (GP.apiKey host)).
  - intros Hrun. split; [|done].
    destruct (GP.bind _ _ st) as [[r st1]|] eqn:H; [|done].
    assert (st1 = st') as -> by (destruct r; by injection Hrun as _ <-).
    clear Hrun.
    apply bind_inv in H as [(msg & [= ] & _) | (u & st0 & [= _ <-] & Ha)].
    apply bind_inv in Ha as [(msg & Hb & _) | (resp & st1 & H1 & Hb)].
    { apply fetchWithBackoff_budget in Hb. lia. }
    apply fetchWithBackoff_budget in H1.
    assert (st' = st1) as ->; [|lia].
    apply bind_inv in Hb as [(msg & Hc & _) | (u' & st2 & H2 & Hc)].
    { destruct (negb _); by injection Hc as _ <-. }
    assert (st2 = st1) as -> by (destruct (negb _); by injection H2 as _ <-).
    apply bind_inv in Hc as [(msg & Hd & _) | (data & st3 & H3 & Hd)];
      unfold GP.json in *; destruct (GP.body resp); try done.
    + by injection Hd as _ <-.
    + injection H3 as _ <-.
      destruct (GP.transformPlacesResponse host _); by injection Hd as _ <-.
  - unfold GP.bind, GP.throw. intros [= <- <-]. split; [lia | done].
Qed.

Lemma gridPoints_run (radius : Z) :
  forall (points : list Location) (a : GP.Acc) (st : GP.Net),
  exists a' st',
    GP.gridPoints host points radius a st = Some (Ok a', st') /\
    GP.calls st' <= GP.calls st + length points * (GP.defaultMaxRetries + 1) /\
    (truthy (GP.apiKey host) = false -> a' = a /\ st' = st).
Proof.
  induction points as [|p points IH]; intros a st; cbn [GP.gridPoints].
  - exists a, st. split; [done|]. split; [lia | done].
  - destruct (searchDermClinics_run p radius GP.DISTANCE st)
      as (batch & st1 & H1 & Hc1 & Hk1).
    destruct (IH (GP.addBatch batch a) st1) as (a' & st' & H & Hc & Hk).
    exists a', st'. unfold GP.bind. rewrite H1. split; [done|].
    split; [simpl in *; lia|].
    intros Hkey. destruct (Hk1 Hkey) as [-> ->]. by apply Hk.
Qed.

End Budget.

(** X10: a multi-query text search ends, and it has fetched at most six
    times (a fetch and five retries) for each page, and at most
    [pageLimitPerQuery] pages for each query, a limit below one counting as
    one. *)
Theorem searchDermClinicsText_budget (host : GP.Host) (queries : list jsstring)
    (pageLimitPerQuery : nat) (st : GP.Net) :
  exists r st',
    GP.searchDermClinicsText host queries pageLimitPerQuery st = Some (r, st') /\
    GP.calls st' <=
      GP.calls st + length queries * (Nat.max 1 pageLimitPerQuery * 6).
Proof.
  destruct (searchDermClinicsText_total host queries pageLimitPerQuery st)
    as (r & st' & Hrun).
  exists r, st'. split; [done|]. revert Hrun. unfold GP.searchDermClinicsText.
  intros H. apply bind_inv in H as [(msg & Ha & _) | (a & st1 & H1 & [= _ <-])].
  - by apply textQueries_budget in Ha.
  - by apply textQueries_budget in H1.
Qed.

(** X11: without an API key a text search throws before it fetches
    anything, where the nearby search returns the empty list. *)
Theorem searchDermClinicsText_needs_key (host : GP.Host) (q : jsstring)
    (queries : list jsstring) (pageLimitPerQuery : nat) (st : GP.Net) :
  truthy (GP.apiKey host) = false ->
  GP.searchDermClinicsText host (q :: queries) pageLimitPerQuery st =
    Some (Throw (js "Missing GOOGLE_PLACES_API_KEY"), st) /\
  forall loc radius rank,
    GP.searchDermClinics host loc radius rank st = Some (Ok [], st).
Proof.
  intros Hkey. split.
  - unfold GP.searchDermClinicsText. cbn [GP.textQueries GP.textPages].
    unfold GP.bind at 1. unfold GP.bind at 1. unfold GP.bind at 1.
    destruct (searchDermClinicsTextPage_total host q None st) as (r & st' & H).
    rewrite H.
    apply searchDermClinicsTextPage_budget in H as [_ H].
    by destruct (H Hkey) as [-> ->].
  - intros loc radius rank.
    destruct (searchDermClinics_run host loc radius rank st) as (cs & st' & H & _ & Hk).
    by destruct (Hk Hkey) as [-> ->].
Qed.

Lemma searchDermClinicsText_needs_key_witness :
  truthy (GP.apiKey Runs.noKey) = false /\
  GP.searchDermClinicsText Runs.noKey [js "dermatologist in Ohio"] 10 Scenario.fresh =
    Some (Throw (js "Missing GOOGLE_PLACES_API_KEY"), Scenario.fresh).
Proof.
  split; [reflexivity|].
  apply (searchDermClinicsText_needs_key Runs.noKey (js "dermatologist in Ohio") [] 10
           Scenario.fresh).
  reflexivity.
Defined.

(** X12: a grid search never throws: whatever the service does, it returns
    a list after at most six fetches for each point of the grid; without an
    API key it fetches nothing and the list is empty. *)
Theorem searchDermClinicsGrid_never_throws (fuel : nat) (host : GP.Host)
    (bounds : Bounds) (radiusMeters : Z) (stepDeg : spec_float)
    (points : list Location) (st : GP.Net) :
  Grid.generateGridPoints fuel bounds stepDeg = Some points ->
  exists cs st',
    GP.searchDermClinicsGrid fuel host bounds radiusMeters stepDeg st
      = Some (Ok cs, st') /\
    GP.calls st' <= GP.calls st + length points * 6 /\
    (truthy (GP.apiKey host) = false -> cs = [] /\ st' = st).
Proof.
  intros Hgrid. unfold GP.searchDermClinicsGrid. rewrite Hgrid.
  destruct (gridPoints_run host radiusMeters points {| GP.all := []; GP.seen := ∅ |} st)
    as (a & st' & H & Hc & Hk).
  exists (GP.all a), st'. unfold GP.bind. rewrite H. split; [done|].
  split; [done|]. intros Hkey. by destruct (Hk Hkey) as [-> ->].
Qed.

Lemma searchDermClinicsGrid_never_throws_witness :
  Grid.generateGridPoints 4 Grid.specBox Grid.specStep = Some Grid.specGrid /\
  exists cs st',
    GP.searchDermClinicsGrid 4 Scenario.down Grid.specBox 25000 Grid.specStep
      Scenario.fresh = Some (Ok cs, st') /\
    GP.calls st' <= GP.calls Scenario.fresh + length Grid.specGrid * 6 /\
    (truthy (GP.apiKey Scenario.down) = false -> cs = [] /\ st' = Scenario.fresh).
Proof.
  split; [by vm_compute|].
  apply (searchDermClinicsGrid_never_throws 4 Scenario.down Grid.specBox 25000
           Grid.specStep Grid.specGrid Scenario.fresh).
  by vm_compute.
Defined.

(** With the service down, the nine points of the example grid cost 54
    fetches, and the result is the empty list. *)
Example searchDermClinicsGrid_down :
  exists st',
    GP.searchDermClinicsGrid 4 Scenario.down Grid.specBox 25000 Grid.specStep
      Scenario.fresh = Some (Ok [], st') /\
    GP.calls st' = 54.
Proof. eexists. split; [vm_compute; reflexivity | reflexivity]. Qed.

Section Spacing.
Variables (host : GP.Host) (req : GP.Request) (maxRetries : nat).
Hypothesis timers_not_early : forall k t ms, (t + ms <= GP.wake host k t ms)%Z.

(** The loop stamps [lastCallAt] after each fetch, and time does not go
    back. *)
Lemma backoffLoop_stamps (fuel : nat) :
  forall (attempt : nat) (st st' : GP.Net) (resp : GP.Response),
    GP.backoffLoop fuel host req maxRetries attempt st = Some (Ok resp, st') ->
    GP.lastCallAt st' = GP.clock st' /\ (GP.clock st <= GP.clock st')%Z.
Proof.
  induction fuel as [|fuel IH]; intros attempt st st' resp; [done|].
  cbn [GP.backoffLoop]. unfold GP.bind at 1, GP.fetch.
  destruct (GP.upstream host (GP.calls st) req) as [msg|s t b]; [done|].
  unfold GP.bind at 1, GP.stamp. cbn [GP.status].
  destruct (ok s).
  { intros [= _ <-]. simpl. lia. }
  destruct (GP.retryable s && (attempt <? maxRetries)).
  - unfold GP.bind at 1, GP.jitter. unfold GP.bind at 1, GP.sleep.
    intros H. apply IH in H as [H1 H2]. split; [done|]. cbn [GP.clock GP.sleeps GP.calls] in H2.
    match type of H2 with (GP.wake host ?k ?t ?ms <= _)%Z =>
      pose proof (timers_not_early k t ms) as Hw;
      assert (0 <= ms)%Z as Hms
    end.
    { pose proof (Z.mod_pos_bound (GP.random host (S (GP.calls st))) 250 ltac:(lia)).
      pose proof (Z.pow_nonneg 2 (Z.of_nat attempt) ltac:(lia)). cbn [GP.calls]. lia. }
    lia.
  - intros [= _ <-]. simpl. lia.
Qed.

Lemma fetchWithBackoff_stamps (st st' : GP.Net) (resp : GP.Response) :
  GP.fetchWithBackoff host req maxRetries st = Some (Ok resp, st') ->
  GP.lastCallAt st' = GP.clock st' /\
  (GP.lastCallAt st + GP.MIN_INTERVAL_MS <= GP.lastCallAt st')%Z.
Proof.
  unfold GP.fetchWithBackoff.
  unfold GP.bind at 1, GP.now. unfold GP.bind at 1, GP.getLastCallAt.
  unfold GP.bind at 1.
  destruct (GP.clock st - GP.lastCallAt st <? GP.MIN_INTERVAL_MS)%Z eqn:E;
    [unfold GP.sleep | unfold GP.ret]; intros H;
    apply backoffLoop_stamps in H as [H1 H2]; cbn [GP.clock GP.lastCallAt] in *.
  - match type of H2 with (GP.wake host ?k ?t ?ms <= _)%Z =>
      pose proof (timers_not_early k t ms) end.
    lia.
  - apply Z.ltb_ge in E. lia.
Qed.

End Spacing.

(** X13: the client-side rate limit, and what it rests on.  On a host none
    of whose timers fires before [Date.now()] has advanced by the delay,
    when [fetchWithBackoff] returns a response the time stamp of the last
    call is the time of the return, and it is at least [MIN_INTERVAL_MS] =
    334 ms later than it was on entry.  The timers are needed for that: on a
    host that answers at once and whose timers fire one millisecond early, a
    call made 100 ms after the last one returns 333 ms after it. *)
Theorem fetchWithBackoff_spacing :
  (forall (host : GP.Host) (req : GP.Request) (maxRetries : nat)
          (st st' : GP.Net) (resp : GP.Response),
     (forall k t ms, (t + ms <= GP.wake host k t ms)%Z) ->
     GP.fetchWithBackoff host req maxRetries st = Some (Ok resp, st') ->
     GP.lastCallAt st' = GP.clock st' /\
     (GP.lastCallAt st + 334 <= GP.lastCallAt st')%Z) /\
  (exists resp st',
     GP.fetchWithBackoff Runs.hasty (GP.SearchText (js "q") None) 5 Runs.justCalled
       = Some (Ok resp, st') /\
     GP.lastCallAt st' = (GP.lastCallAt Runs.justCalled + 333)%Z).
Proof.
  split.
  - intros host req maxRetries st st' resp Htimers H.
    exact (fetchWithBackoff_stamps host req maxRetries Htimers st st' resp H).
  - eexists _, _. split; [vm_compute; reflexivity | reflexivity].
Qed.

Lemma fetchWithBackoff_spacing_witness :
  exists resp st',
    (forall k t ms, (t + ms <= GP.wake Scenario.nothingFound k t ms)%Z) /\
    GP.fetchWithBackoff Scenario.nothingFound (GP.SearchText (js "q") None) 5
      Runs.justCalled = Some (Ok resp, st') /\
    GP.lastCallAt st' = GP.clock st' /\
    (GP.lastCallAt Runs.justCalled + 334 <= GP.lastCallAt st')%Z.
Proof.
  assert (forall k t ms, (t + ms <= GP.wake Scenario.nothingFound k t ms)%Z) as Htimers.
  { intros k t ms. cbn. unfold Scenario.onTime. lia. }
  eexists _, _. split; [exact Htimers|]. split; [vm_compute; reflexivity|].
  eapply (proj1 fetchWithBackoff_spacing Scenario.nothingFound
            (GP.SearchText (js "q") None) 5 Runs.justCalled); [exact Htimers|].
  vm_compute; reflexivity.
Defined.

(* ===================================================================== *)
(** * Further properties of the grid *)
(* ===================================================================== *)

Section GridShapes.
Variables (bounds : Bounds) (stepDeg : spec_float).

Lemma steps_length (n : nat) (x : spec_float) :
  length (GridShape.steps n x stepDeg) = n.
Proof. revert x. induction n as [|n IH]; intros x; simpl; [done | by rewrite IH]. Qed.

Lemma rect_length (lats lngs : list spec_float) :
  length (GridShape.rect lats lngs) = length lats * length lngs.
Proof.
  unfold GridShape.rect. induction lats as [|la lats IH]; [done|].
  cbn [mbind list_bind]. change (list_bind _ _ ?f ?l) with (l ≫= f).
  rewrite length_app, length_fmap, IH. simpl. lia.
Qed.

(** A row ends, and how many columns it has does not depend on the
    latitude or on the points pushed so far. *)
Lemma lngLoop_shape (fuel : nat) :
  forall (la ln : spec_float) (points result : list Location),
    Grid.lngLoop fuel bounds stepDeg la ln points = Some result ->
    exists cols,
      Forall (fun x => Num.leb x (Num.add (maxLng bounds) (Num.lit 1 9)) = true)
        (GridShape.steps cols ln stepDeg) /\
      forall la' points',
        Grid.lngLoop fuel bounds stepDeg la' ln points' =
          Some (points' ++ (GridShape.point la' <$> GridShape.steps cols ln stepDeg)).
Proof.
  induction fuel as [|fuel IH]; intros la ln points result; [done|]. cbn [Grid.lngLoop].
  destruct (Num.leb ln _) eqn:E.
  - intros H. apply IH in H as (cols & Hall & Hrow). exists (S cols). split.
    + by constructor.
    + intros la' points'. rewrite Hrow, <- app_assoc. reflexivity.
  - intros _. exists 0. split; [constructor|].
    intros la' points'. by rewrite app_nil_r.
Qed.

Lemma latLoop_shape (row cols : nat) :
  (forall la points,
     Grid.lngLoop row bounds stepDeg la (minLng bounds) points =
       Some (points ++
             (GridShape.point la <$> GridShape.steps cols (minLng bounds) stepDeg))) ->
  forall (fuel : nat) (la : spec_float) (points result : list Location),
    Grid.latLoop fuel row bounds stepDeg la points = Some result ->
    exists rows,
      Forall (fun x => Num.leb x (Num.add (maxLat bounds) (Num.lit 1 9)) = true)
        (GridShape.steps rows la stepDeg) /\
      result =
        points ++ GridShape.rect (GridShape.steps rows la stepDeg)
                    (GridShape.steps cols (minLng bounds) stepDeg).
Proof.
  intros Hrow. induction fuel as [|fuel IH]; intros la points result; [done|].
  cbn [Grid.latLoop]. destruct (Num.leb la _) eqn:E.
  - rewrite Hrow. intros H. apply IH in H as (rows & Hall & ->).
    exists (S rows). split; [by constructor|]. by rewrite <- app_assoc.
  - intros [= <-]. exists 0. split; [constructor|]. by rewrite app_nil_r.
Qed.

(** With a step of zero a row that has begun does not end. *)
Lemma add_zero_leb (x b : spec_float) (s : bool) :
  Num.leb x b = true -> Num.leb (Num.add x (S754_zero s)) b = true.
Proof.
  unfold Num.leb, Num.add, SFleb, SFadd.
  destruct x as [sx|sx| |sx mx ex]; try done.
  destruct sx, s, b as [sb|sb| |sb mb eb]; done.
Qed.

Lemma lngLoop_zero_step (s : bool) (fuel : nat) :
  forall (la ln : spec_float) (points : list Location),
    Num.leb ln (Num.add (maxLng bounds) (Num.lit 1 9)) = true ->
    Grid.lngLoop fuel bounds (S754_zero s) la ln points = None.
Proof.
  induction fuel as [|fuel IH]; intros la ln points Hln; [done|].
  cbn [Grid.lngLoop]. rewrite Hln. apply IH. by apply add_zero_leb.
Qed.

End GridShapes.

(** X14: the grid is a rectangle.  The points come row by row, every row
    with the same longitudes: the values [minLng], [minLng + step],
    [(minLng + step) + step], ... that do not exceed [maxLng + 1e-9], each
    rounded to six decimals; and so do the latitudes of the rows.  The number
    of points is rows times columns. *)
Theorem generateGridPoints_rectangle (fuel : nat) (bounds : Bounds)
    (stepDeg : spec_float) (points : list Location) :
  Grid.generateGridPoints fuel bounds stepDeg = Some points ->
  exists rows cols,
    points = GridShape.rect (GridShape.steps rows (minLat bounds) stepDeg)
                            (GridShape.steps cols (minLng bounds) stepDeg) /\
    length points = rows * cols /\
    Forall (fun x => Num.leb x (Num.add (maxLat bounds) (Num.lit 1 9)) = true)
      (GridShape.steps rows (minLat bounds) stepDeg) /\
    Forall (fun x => Num.leb x (Num.add (maxLng bounds) (Num.lit 1 9)) = true)
      (GridShape.steps cols (minLng bounds) stepDeg).
Proof.
  unfold Grid.generateGridPoints. intros H.
  assert (exists cols,
            Forall (fun x => Num.leb x (Num.add (maxLng bounds) (Num.lit 1 9)) = true)
              (GridShape.steps cols (minLng bounds) stepDeg) /\
            exists rows,
              Forall (fun x => Num.leb x (Num.add (maxLat bounds) (Num.lit 1 9)) = true)
                (GridShape.steps rows (minLat bounds) stepDeg) /\
              points = GridShape.rect (GridShape.steps rows (minLat bounds) stepDeg)
                         (GridShape.steps cols (minLng bounds) stepDeg))
    as (cols & Hcols & rows & Hrows & ->).
  { destruct (Grid.lngLoop fuel bounds stepDeg (minLat bounds) (minLng bounds) [])
      as [row|] eqn:Erow.
    - apply lngLoop_shape in Erow as (cols & Hcols & Hrow).
      exists cols. split; [done|].
      eapply latLoop_shape in H as (rows & Hrows & ->); [|exact Hrow]. eauto.
    - destruct fuel as [|fuel']; [done|]. revert H.
      cbn [Grid.latLoop]. destruct (Num.leb _ _); [by rewrite Erow|].
      intros [= <-]. exists 0. split; [constructor|]. exists 0. split; [constructor | done]. }
  exists rows, cols. split; [done|]. split; [|done].
  by rewrite rect_length, !steps_length.
Qed.

Lemma generateGridPoints_rectangle_witness :
  Grid.generateGridPoints 4 Grid.specBox Grid.specStep = Some Grid.specGrid /\
  exists rows cols,
    Grid.specGrid =
      GridShape.rect (GridShape.steps rows (minLat Grid.specBox) Grid.specStep)
                     (GridShape.steps cols (minLng Grid.specBox) Grid.specStep) /\
    length Grid.specGrid = rows * cols /\
    Forall (fun x => Num.leb x (Num.add (maxLat Grid.specBox) (Num.lit 1 9)) = true)
      (GridShape.steps rows (minLat Grid.specBox) Grid.specStep) /\
    Forall (fun x => Num.leb x (Num.add (maxLng Grid.specBox) (Num.lit 1 9)) = true)
      (GridShape.steps cols (minLng Grid.specBox) Grid.specStep).
Proof.
  split; [by vm_compute|].
  apply (generateGridPoints_rectangle 4 Grid.specBox Grid.specStep Grid.specGrid).
  by vm_compute.
Defined.

(** X15: with a step of zero (of either sign) over a box that is not empty,
    the loops never end: whatever the number of iterations allowed, the inner
    loop is still pushing the first point. *)
Theorem generateGridPoints_zero_step (fuel : nat) (bounds : Bounds) (s : bool) :
  Num.leb (minLat bounds) (Num.add (maxLat bounds) (Num.lit 1 9)) = true ->
  Num.leb (minLng bounds) (Num.add (maxLng bounds) (Num.lit 1 9)) = true ->
  Grid.generateGridPoints fuel bounds (S754_zero s) = None.
Proof.
  intros Hlat Hlng. unfold Grid.generateGridPoints.
  destruct fuel as [|fuel']; [done|].
  cbn [Grid.latLoop]. rewrite Hlat. by rewrite lngLoop_zero_step.
Qed.

Lemma generateGridPoints_zero_step_witness :
  Num.leb (minLat Grid.specBox) (Num.add (maxLat Grid.specBox) (Num.lit 1 9)) = true /\
  Num.leb (minLng Grid.specBox) (Num.add (maxLng Grid.specBox) (Num.lit 1 9)) = true /\
  Grid.generateGridPoints 1000 Grid.specBox (S754_zero false) = None.
Proof.
  split; [by vm_compute|]. split; [by vm_compute|].
  apply (generateGridPoints_zero_step 1000 Grid.specBox false); by vm_compute.
Defined.

(* ===================================================================== *)
(** * Further properties of the open-now resolver *)
(* ===================================================================== *)

Lemma findToday_elem (weekday : jsstring) (lines : list (option jsstring))
    (line : jsstring) :
  findToday weekday lines = Ok (Some line) -> Some line ∈ lines.
Proof.
  induction lines as [|[text|] lines IH]; simpl; [done| |done].
  destruct (startsWith text weekday).
  - intros [= ->]. constructor.
  - intros H. apply elem_of_cons. right. by apply IH.
Qed.

Lemma renderRange_dash (r : RangeText) (before after : jsstring) :
  rangeOk r ->
  ~ Forall (fun c => isDash c = false) (before ++ renderRange r ++ after).
Proof.
  intros (_ & _ & Hdash & _) H. unfold renderRange in H.
  rewrite !Forall_app in H. destruct H as (_ & (_ & _ & H & _) & _).
  apply Forall_cons in H as [H _]. congruence.
Qed.

Lemma fridayNight_carries :
  carries Hours.fridayNight Hours.tenToTwo /\ rangeOk Hours.tenToTwo.
Proof.
  split.
  - exists (js "Friday: "), []. split; [reflexivity|].
    repeat constructor.
  - unfold rangeOk, timeOk, digits, spaces. simpl.
    repeat split; auto; repeat constructor.
Qed.

(** X16: a range that ends at or before the minute at which it begins, as a
    range that runs over midnight does, is never open: from 10:00 PM to
    2:00 AM the answer is false at every time of the day. *)
Theorem openNow_overnight_is_closed (intl : jsstring -> exc (list Part))
    (lines : list (option jsstring)) (tz : jsstring) (parts : list Part)
    (line : jsstring) (r : RangeText) :
  intl tz = Ok parts ->
  todaysLine (partValue parts (js "weekday") []) lines line ->
  carries line r -> rangeOk r ->
  (timeMinutes (r_close r) <= timeMinutes (r_open r))%Z ->
  calculateOpenNowFromWeekdayText intl (Some lines) tz = false.
Proof.
  intros Hintl Hline Hcarries Hr Hle.
  assert (lines <> []) as Hne.
  { destruct Hline as (before & after & -> & _). by destruct before. }
  unfold calculateOpenNowFromWeekdayText. destruct lines as [|l0 lines]; [done|].
  unfold body. rewrite Hintl, (findToday_todaysLine _ _ _ Hline).
  destruct (truthy (Some line)); [|done]. cbn [negb].
  destruct (includes (toLowerCase line) (js "closed")); [done|].
  rewrite (stringMatch_carries _ _ Hcarries Hr).
  destruct Hr as (Ho & _ & _ & _ & Hc).
  rewrite (toMinutes_timeOk _ Ho), (toMinutes_timeOk _ Hc).
  destruct (parseInt (partValue parts (js "hour") (js "0"))) as [hh|]; [|done].
  destruct (parseInt (partValue parts (js "minute") (js "0"))) as [mm|]; [|done].
  apply andb_false_iff.
  destruct (Z.leb_spec (timeMinutes (r_open r)) (hh * 60 + mm)); [right | by left].
  apply Z.ltb_ge. lia.
Qed.

Lemma openNow_overnight_is_closed_witness :
  (timeMinutes (r_close Hours.tenToTwo) <= timeMinutes (r_open Hours.tenToTwo))%Z /\
  calculateOpenNowFromWeekdayText (clockAt "Friday" 23 0)
    (Some [Some Hours.fridayNight]) (js "America/Chicago") = false.
Proof.
  split; [by vm_compute|].
  eapply (openNow_overnight_is_closed (clockAt "Friday" 23 0) [Some Hours.fridayNight]
            (js "America/Chicago") _ Hours.fridayNight Hours.tenToTwo).
  - reflexivity.
  - exists [], []. split; [reflexivity|]. split; [constructor | reflexivity].
  - exact (proj1 fridayNight_carries).
  - exact (proj2 fridayNight_carries).
  - by vm_compute.
Defined.

(** X17: hours that are written without a hyphen, an en dash or an em dash
    never count as open, whatever the time and the time zone: "Open 24
    hours" is answered with false. *)
Theorem openNow_needs_dash (intl : jsstring -> exc (list Part))
    (lines : list (option jsstring)) (tz : jsstring) :
  (forall line, Some line ∈ lines -> Forall (fun c => isDash c = false) line) ->
  calculateOpenNowFromWeekdayText intl (Some lines) tz = false.
Proof.
  intros Hlines. unfold calculateOpenNowFromWeekdayText.
  destruct lines as [|l0 lines]; [done|].
  unfold body. destruct (intl tz) as [parts|msg]; [|done].
  destruct (findToday _ _) as [[line|]|msg] eqn:Efind; [| done | done].
  apply findToday_elem, Hlines in Efind.
  destruct (truthy (Some line)); [|done]. cbn [negb].
  destruct (includes (toLowerCase line) (js "closed")); [done|].
  destruct (stringMatch hoursPattern line) as [caps|] eqn:Ematch; [|done].
  apply stringMatch_hoursPattern in Ematch as (r & Hr & (before & after & ->) & _).
  by destruct (renderRange_dash r before after Hr).
Qed.

Lemma openNow_needs_dash_witness :
  (forall line, Some line ∈ [Some (js "Monday: Open 24 hours")] ->
     Forall (fun c => isDash c = false) line) /\
  calculateOpenNowFromWeekdayText (clockAt "Monday" 10 0)
    (Some [Some (js "Monday: Open 24 hours")]) (js "America/Chicago") = false.
Proof.
  assert (forall line, Some line ∈ [Some (js "Monday: Open 24 hours")] ->
            Forall (fun c => isDash c = false) line) as H.
  { intros line Hin. apply list_elem_of_singleton in Hin. injection Hin as ->.
    repeat constructor. }
  split; [exact H|].
  exact (openNow_needs_dash (clockAt "Monday" 10 0) [Some (js "Monday: Open 24 hours")]
           (js "America/Chicago") H).
Defined.

(* ===================================================================== *)
(** * The duplicate check *)
(* ===================================================================== *)

Section Check.
Import DedupeCheck.

Lemma check_entries (files : list (jsstring * list Clinic)) (r : Report) :
  foldl visitFile r files = foldl visitEntry r (entries files).
Proof.
  revert r. induction files as [|[file cs] files IH]; intros r; [done|].
  unfold entries. cbn [foldl mbind list_bind].
  change (list_bind _ _ ?f ?l) with (l ≫= f). fold (entries files).
  rewrite foldl_app, <- IH. f_equal. unfold visitFile. simpl.
  clear. revert r. induction cs as [|c cs IH]; intros r; [done|]. simpl. apply IH.
Qed.

Lemma entries_clinics (files : list (jsstring * list Clinic)) :
  snd <$> entries files = files ≫= snd.
Proof.
  unfold entries. induction files as [|[file cs] files IH]; [done|].
  cbn [mbind list_bind]. change (list_bind _ _ ?f ?l) with (l ≫= f).
  rewrite fmap_app, IH. f_equal. simpl.
  rewrite <- list_fmap_compose. by rewrite list_fmap_id.
Qed.

Lemma visitEntry_run (es : list (jsstring * Clinic)) :
  forall r : Report,
    let r' := foldl visitEntry r es in
    let ids := (fun e => place_id (snd e)) <$> es in
    total r' = total r + length es /\
    allIds r' = allIds r ∪ list_to_set ids /\
    size (allIds r') + length (duplicates r') =
      size (allIds r) + length (duplicates r) + length es /\
    length (duplicates r) <= length (duplicates r') /\
    (length (duplicates r') = length (duplicates r) <->
     NoDup ids /\ forall i, i ∈ ids -> i ∉ allIds r).
Proof.
  induction es as [|[file c] es IH]; intros r.
  - simpl. split; [lia|]. split; [set_solver|]. split; [lia|]. split; [lia|].
    split; [intros _; split; [constructor | set_solver] | done].
  - cbn [foldl fmap list_fmap]. simpl snd.
    destruct (IH (visitEntry r (file, c))) as (Ht & Hids & Hsz & Hle & Hiff).
    remember (visitEntry r (file, c)) as r1 eqn:Hr1.
    unfold visitEntry, visit in Hr1. cbn [fst snd] in Hr1.
    destruct (bool_decide_reflect (place_id c ∈ allIds r)) as [Hin | Hout];
      subst r1; cbn [total allIds duplicates] in *.
    + rewrite length_app in *. cbn [length] in *.
      split; [lia|]. split; [set_solver|]. split; [lia|]. split; [lia|].
      split; [lia|]. intros [_ H]. exfalso. apply (H (place_id c)); [constructor | done].
    + rewrite size_union in Hsz by set_solver. rewrite size_singleton in Hsz.
      split; [simpl; lia|]. split; [set_solver|]. split; [simpl; lia|]. split; [lia|].
      rewrite Hiff, NoDup_cons. split.
      * intros [Hnd H]. split.
        -- split; [|done]. intros Hc. apply (H _ Hc). set_solver.
        -- intros i [-> | Hi]%elem_of_cons; [done|]. specialize (H i Hi). set_solver.
      * intros [[Hc Hnd] H]. split; [done|].
        intros i Hi. apply not_elem_of_union. split.
        -- intros ->%elem_of_singleton. done.
        -- apply H. by constructor.
Qed.

End Check.

(** X18: the duplicate check counts right: [total] is the number of clinics
    in all files, it is the number of distinct identifiers plus the number of
    duplicates reported, [allIds] holds the identifiers of all clinics, and
    no duplicate is reported exactly when no identifier occurs twice, within
    a file or across files. *)
Theorem check_counts (files : list (jsstring * list Clinic)) :
  let r := DedupeCheck.check files in
  let ids := place_id <$> (files ≫= snd) in
  DedupeCheck.total r = length ids /\
  DedupeCheck.total r =
    size (DedupeCheck.allIds r) + length (DedupeCheck.duplicates r) /\
  DedupeCheck.allIds r = list_to_set ids /\
  (DedupeCheck.duplicates r = [] <-> NoDup ids).
Proof.
  intros r ids. subst r ids. unfold DedupeCheck.check. rewrite check_entries.
  destruct (visitEntry_run (DedupeCheck.entries files) DedupeCheck.start)
    as (Ht & Hids & Hsz & _ & Hiff).
  rewrite <- entries_clinics, <- list_fmap_compose.
  change (place_id ∘ snd) with (fun e : jsstring * Clinic => place_id (snd e)).
  cbn [DedupeCheck.start DedupeCheck.total DedupeCheck.allIds DedupeCheck.duplicates
       length] in *.
  rewrite size_empty in Hsz. rewrite length_fmap.
  split; [lia|]. split; [lia|]. split; [by rewrite Hids, union_empty_l_L|].
  rewrite <- length_zero_iff_nil, Hiff.
  split; [by intros [? _] | intros H; split; [done | set_solver]].
Qed.

(** The run that stores the practice "x" for Alabama and for Georgia: the
    check over its files reports the second copy. *)
Example check_finds_cross_state_copy :
  exists g,
    main 1 (Scenario.config 800) Scenario.sameEverywhere [js "AL"; js "GA"] initial
      = Some g /\
    DedupeCheck.total (DedupeCheck.check (DedupeCheck.written g)) = 2 /\
    DedupeCheck.d_id <$> DedupeCheck.duplicates (DedupeCheck.check (DedupeCheck.written g))
      = [Some (js "x")].
Proof.
  eexists. split; [vm_compute; reflexivity|]. split; vm_compute; reflexivity.
Qed.

(* ===================================================================== *)
(** * The merge of a POST *)
(* ===================================================================== *)

Section Merging.
Import Merge.

Lemma set_keys (k : option jsstring) (v : Clinic) (m : JsMap) :
  m.*1 = (set k v m).*1 \/ ((k ∉ m.*1) /\ (set k v m).*1 = m.*1 ++ [k]).
Proof.
  induction m as [|[k' v'] m IH]; simpl.
  - right. split; [apply not_elem_of_nil | done].
  - destruct (bool_decide_reflect (k' = k)) as [-> | Hne]; simpl; [by left|].
    destruct IH as [IH | [Hk IH]].
    + left. simpl in *. by f_equal.
    + right. split; [|simpl in *; by f_equal].
      intros [Heq | Hin]%elem_of_cons; [by subst | done].
Qed.

Lemma set_NoDup (k : option jsstring) (v : Clinic) (m : JsMap) :
  NoDup m.*1 -> NoDup (set k v m).*1.
Proof.
  intros Hnd. destruct (set_keys k v m) as [<- | [Hk ->]]; [done|].
  apply NoDup_app. split; [done|]. split; [|apply NoDup_singleton].
  intros x Hx ->%list_elem_of_singleton. done.
Qed.

Lemma set_elem (k : option jsstring) (v : Clinic) (m : JsMap)
    (k0 : option jsstring) (c : Clinic) :
  NoDup m.*1 ->
  (k0, c) ∈ set k v m <-> (k0 = k /\ c = v) \/ (k0 <> k /\ (k0, c) ∈ m).
Proof.
  induction m as [|[k' v'] m IH]; simpl; intros Hnd.
  - rewrite list_elem_of_singleton. split.
    + intros [= -> ->]. by left.
    + intros [[-> ->] | [_ H]]; [done|]. by apply elem_of_nil in H.
  - apply NoDup_cons in Hnd as [Hk' Hnd].
    destruct (bool_decide_reflect (k' = k)) as [-> | Hne].
    + rewrite !elem_of_cons. split.
      * intros [[= -> ->] | H]; [by left|]. right. split; [|by right].
        intros ->. apply Hk'. apply list_elem_of_fmap. by exists (k, c).
      * intros [[-> ->] | [Hk0 [[= -> _] | H]]]; [by left | done | by right].
    + rewrite !elem_of_cons, IH by done. split.
      * intros [[= -> ->] | [[-> ->] | [Hk0 H]]].
        -- right. split; [done | by left].
        -- by left.
        -- right. split; [done | by right].
      * intros [[-> ->] | [Hk0 [[= -> ->] | H]]].
        -- right. by left.
        -- by left.
        -- right. right. by split.
Qed.

Lemma lastOfItsId_snoc (c x : Clinic) (l : list Clinic) :
  lastOfItsId c (l ++ [x]) <->
  c = x \/ (place_id x <> place_id c /\ lastOfItsId c l).
Proof.
  unfold lastOfItsId. split.
  - intros (l1 & l2 & Heq & Hlast).
    destruct l2 as [|y l2 _] using rev_ind.
    + apply app_inj_tail in Heq as [_ ->]. by left.
    + rewrite app_comm_cons, app_assoc in Heq. apply app_inj_tail in Heq as [-> ->].
      right. split.
      * apply Hlast. apply elem_of_app. right. constructor.
      * exists l1, l2. split; [done|]. intros c' Hc'. apply Hlast.
        apply elem_of_app. by left.
  - intros [-> | [Hne (l1 & l2 & -> & Hlast)]].
    + exists l, []. split; [done|]. intros c' H. by apply elem_of_nil in H.
    + exists l1, (l2 ++ [x]). split; [by rewrite <- app_assoc|].
      intros c' [H | ->%list_elem_of_singleton]%elem_of_app; [by apply Hlast | done].
Qed.

(** The map after the clinics of [l] have been set: its keys are distinct,
    and it holds each identifier with the last clinic of [l] that has it. *)
Lemma setAll_spec (l : list Clinic) :
  let m := foldl (fun m clinic => set (place_id clinic) clinic m) [] l in
  NoDup m.*1 /\
  forall k c, (k, c) ∈ m <-> k = place_id c /\ lastOfItsId c l.
Proof.
  induction l as [|x l IH] using rev_ind.
  - simpl. split; [constructor|]. intros k c. split.
    + intros H. by apply elem_of_nil in H.
    + intros [_ (l1 & l2 & Heq & _)]. by destruct l1.
  - rewrite foldl_app. cbn [foldl]. cbv zeta in IH. destruct IH as [Hnd IH].
    split; [by apply set_NoDup|].
    intros k c. rewrite set_elem by done. rewrite IH, lastOfItsId_snoc. split.
    + intros [[-> ->] | [Hk [-> Hlast]]]; [split; [done | by left]|].
      split; [done|]. right. split; [congruence | done].
    + intros [-> [-> | [Hne Hlast]]]; [by left|]. right. split; [congruence | done].
Qed.

End Merging.

(** X19: the merge of a POST is an upsert by identifier.  No two merged
    clinics share an identifier; the merged clinics are exactly the clinics
    that are the last of their identifier in the stored list followed by the
    posted one, so that a posted clinic replaces a stored one; and nothing
    else is added or lost. *)
Theorem mergeClinics_upsert (existingClinics clinics : list Clinic) :
  let merged := Merge.mergeClinics existingClinics clinics in
  NoDup (place_id <$> merged) /\
  (forall c, c ∈ merged <-> Merge.lastOfItsId c (existingClinics ++ clinics)) /\
  (forall i, i ∈ place_id <$> merged <-> i ∈ place_id <$> (existingClinics ++ clinics)).
Proof.
  intros merged. subst merged. unfold Merge.mergeClinics. cbv zeta.
  rewrite <- foldl_app.
  destruct (setAll_spec (existingClinics ++ clinics)) as [Hnd Hm]. cbv zeta in Hnd, Hm.
  set (m := foldl _ _ _) in *. unfold Merge.values.
  assert (place_id <$> m.*2 = m.*1) as Hkeys.
  { assert (Forall (fun e => fst e = place_id (snd e)) m) as Hall.
    { apply Forall_forall. intros [k c] H. by apply Hm in H as [-> _]. }
    clear -Hall. induction Hall as [|[k c] m Hk _ IH]; [done|].
    rewrite !fmap_cons. simpl in Hk. by rewrite IH, Hk. }
  assert (forall c, c ∈ m.*2 <-> Merge.lastOfItsId c (existingClinics ++ clinics)) as Hlast.
  { intros c. rewrite list_elem_of_fmap. split.
    - intros ([k c'] & -> & H). by apply Hm in H as [_ H].
    - intros H. exists (place_id c, c). split; [done|]. by apply Hm. }
  split; [by rewrite Hkeys|]. split; [done|].
  intros i. rewrite !list_elem_of_fmap. split.
  - intros (c & -> & (l1 & l2 & -> & _)%Hlast). exists c. split; [done|].
    apply elem_of_app. right. constructor.
  - intros (c & -> & Hc).
    assert (exists c', place_id c' = place_id c /\
                       Merge.lastOfItsId c' (existingClinics ++ clinics)) as (c' & Hid & H).
    { revert Hc. generalize (existingClinics ++ clinics). intros l.
      induction l as [|x l IH] using rev_ind; [by intros ?%elem_of_nil|].
      intros [Hc | ->%list_elem_of_singleton]%elem_of_app.
      - destruct (decide (place_id x = place_id c)) as [Heq | Hne].
        + exists x. split; [done|]. apply lastOfItsId_snoc. by left.
        + destruct (IH Hc) as (c' & Hid & H). exists c'. split; [done|].
          apply lastOfItsId_snoc. right. split; [congruence | done].
      - exists x. split; [done|]. apply lastOfItsId_snoc. by left. }
    exists c'. split; [done|]. by apply Hlast.
Qed.

(* ===================================================================== *)
(** * The files of a run *)
(* ===================================================================== *)

Lemma collectState_other_files (fuel : nat) (cfg : Config) (env : Env)
    (stateCode : jsstring) (g g' : Globals) (r : exc unit) (path : jsstring) :
  collectState fuel cfg env stateCode g = Some (r, g') ->
  path <> outPath env stateCode ->
  files g' !! path = files g !! path.
Proof.
  unfold collectState.
  destruct (forQueries fuel cfg env (queriesOf stateCode) _ g)
    as [[[l1|msg] g1]|] eqn:E; [| |done];
    apply forQueries_run in E as (Hf & _); intros [= <- <-] Hpath; [|by rewrite Hf].
  cbn [writeFile files]. rewrite lookup_insert_ne by done. by rewrite Hf.
Qed.

(** X20: a run writes no file but those of the states it is given: every
    file whose path is not the path that the platform gives to the file of
    one of the states is after the run what it was before, whichever states
    failed and wherever the run stopped. *)
Theorem main_touches_only_its_files (fuel : nat) (cfg : Config) (env : Env)
    (states : list jsstring) (g g' : Globals) (path : jsstring) :
  main fuel cfg env states g = Some g' ->
  (forall st, st ∈ states -> path <> outPath env st) ->
  files g' !! path = files g !! path.
Proof.
  revert g. induction states as [|st rest IH]; intros g; cbn [main].
  - by intros [= <-].
  - intros H Hpath.
    assert (path <> outPath env st) as Hst by (apply Hpath; constructor).
    assert (forall st', st' ∈ rest -> path <> outPath env st') as Hrest.
    { intros st' Hin. apply Hpath. by constructor. }
    destruct (collectState fuel cfg env st g) as [[[u|msg] g1]|] eqn:E; [| |done].
    + rewrite (IH _ H Hrest). by eapply collectState_other_files.
    + rewrite <- (collectState_other_files _ _ _ _ _ _ _ path E Hst).
      destruct (includes _ _ || includes _ _); [by injection H as <- | by apply IH].
Qed.

Lemma main_touches_only_its_files_witness :
  exists g',
    main 1 (Scenario.config 800) Scenario.sameEverywhere [js "AL"; js "GA"] initial
      = Some g' /\
    (forall st, st ∈ [js "AL"; js "GA"] ->
       Scenario.stateFile (js "TX") <> outPath Scenario.sameEverywhere st) /\
    files g' !! Scenario.stateFile (js "TX") = files initial !! Scenario.stateFile (js "TX").
Proof.
  assert (forall st, st ∈ [js "AL"; js "GA"] ->
            Scenario.stateFile (js "TX") <> outPath Scenario.sameEverywhere st) as H.
  { intros st [-> | [-> | H%elem_of_nil]%elem_of_cons]%elem_of_cons; done. }
  eexists. split; [vm_compute; reflexivity|]. split; [exact H|].
  apply (main_touches_only_its_files 1 (Scenario.config 800) Scenario.sameEverywhere
           [js "AL"; js "GA"] initial); [vm_compute; reflexivity | exact H].
Defined.

(* ===================================================================== *)
(** * The throttle of the collection script *)
(* ===================================================================== *)

Section Throttled.
Variables (cfg : Config) (env : Env).

Lemma timeSlept_SLEEP (ms : Z) (g : Globals) :
  Throttle.timeSlept (SLEEP ms g) = (Throttle.timeSlept g + Z.max 0 ms)%Z.
Proof.
  unfold Throttle.timeSlept, SLEEP. cbn [slept].
  induction (slept g) as [|x xs IH]; simpl; [lia|]. rewrite IH. lia.
Qed.

Lemma forPlaces_slept (ps : list (option Place)) (l : Local) (g : Globals) :
  slept (snd (fst (forPlaces cfg env ps l g))) = slept g /\
  REQUESTS (snd (fst (forPlaces cfg env ps l g))) = REQUESTS g.
Proof.
  revert l g. induction ps as [|[p|] ps IH]; intros l g; simpl; [done| |done].
  destruct (acceptByDermHeuristics p); simpl; [|apply IH].
  destruct (add env p l) as [l1 [|]]; [|apply IH].
  repeat match goal with |- context [if ?b then _ else _] => destruct b end;
    simpl; try done.
  match goal with |- context [forPlaces cfg env ps ?l1 ?g1] =>
    destruct (IH l1 g1) as [-> ->] end. done.
Qed.

Lemma searchTextOnce_throttled (q : jsstring) (tok : option jsstring) (g : Globals) :
  Throttle.throttled cfg g (snd (searchTextOnce cfg env q tok g)).
Proof.
  assert (snd (searchTextOnce cfg env q tok g) = gate cfg g) as ->.
  { unfold searchTextOnce.
    destruct (upstream env _ _ _) as [msg|st t [data|]]; simpl; [done| |];
      destruct (ok st); done. }
  unfold Throttle.throttled, gate. rewrite timeSlept_SLEEP.
  unfold Throttle.timeSlept, SLEEP. cbn [slept REQUESTS]. lia.
Qed.

Lemma throttled_trans (g1 g2 g3 : Globals) :
  Throttle.throttled cfg g1 g2 -> Throttle.throttled cfg g2 g3 -> Throttle.throttled cfg g1 g3.
Proof. unfold Throttle.throttled. nia. Qed.

Lemma forPlaces_throttled (ps : list (option Place)) (l : Local) (g : Globals) :
  Throttle.throttled cfg g (snd (fst (forPlaces cfg env ps l g))).
Proof.
  destruct (forPlaces_slept ps l g) as [Hs Hr].
  unfold Throttle.throttled, Throttle.timeSlept. rewrite Hs, Hr. lia.
Qed.

Lemma pagesLoop_throttled (fuel : nat) (q : jsstring) :
  forall (tok : option jsstring) (n : nat) (l : Local) (g : Globals)
         (r : exc Local) (g' : Globals),
    pagesLoop fuel cfg env q tok n l g = Some (r, g') -> Throttle.throttled cfg g g'.
Proof.
  induction fuel as [|fuel IH]; intros tok n l g r g'; simpl; [done|].
  pose proof (searchTextOnce_throttled q tok g) as H1.
  destruct (searchTextOnce cfg env q tok g) as [[data|msg] g1]; simpl in H1;
    [|by intros [= _ <-]].
  destruct (default (PlacesArray []) (places data)) as [ps|]; [|by intros [= _ <-]].
  pose proof (forPlaces_throttled ps l g1) as H2.
  destruct (forPlaces cfg env ps l g1) as [[l2 g2] ex]; simpl in H2.
  assert (Throttle.throttled cfg g g2) as H12 by (by apply throttled_trans with g1).
  assert (forall tok',
            (if truthy tok'
             then pagesLoop fuel cfg env q tok' (S n) l2 (SLEEP (NEXT_PAGE_DELAY_MS cfg) g2)
             else Some (Ok l2, g2)) = Some (r, g') -> Throttle.throttled cfg g g') as Hnext.
  { intros tok'. destruct (truthy tok'); [|by intros [= _ <-]].
    intros H. apply IH in H. apply throttled_trans with g2; [done|].
    apply throttled_trans with (SLEEP (NEXT_PAGE_DELAY_MS cfg) g2); [|done].
    unfold Throttle.throttled. rewrite timeSlept_SLEEP. unfold SLEEP. cbn [REQUESTS]. lia. }
  destruct ex as [| |msg]; [apply Hnext | apply Hnext | by intros [= _ <-]].
Qed.

Lemma forQueries_throttled (fuel : nat) (qs : list jsstring) :
  forall (l : Local) (g : Globals) (r : exc Local) (g' : Globals),
    forQueries fuel cfg env qs l g = Some (r, g') -> Throttle.throttled cfg g g'.
Proof.
  induction qs as [|q qs IH]; intros l g r g'; simpl.
  - intros [= _ <-]. unfold Throttle.throttled. lia.
  - destruct (pagesLoop fuel cfg env q None 0 l g) as [[[l1|msg] g1]|] eqn:E; [| |done];
      apply pagesLoop_throttled in E.
    + intros H. apply IH in H. by apply throttled_trans with g1.
    + by intros [= _ <-].
Qed.

Lemma collectState_throttled (fuel : nat) (stateCode : jsstring) (g g' : Globals)
    (r : exc unit) :
  collectState fuel cfg env stateCode g = Some (r, g') -> Throttle.throttled cfg g g'.
Proof.
  unfold collectState.
  destruct (forQueries fuel cfg env (queriesOf stateCode) _ g)
    as [[[l1|msg] g1]|] eqn:E; [| |done];
    apply forQueries_throttled in E; by intros [= _ <-].
Qed.

Lemma main_throttled (fuel : nat) (states : list jsstring) :
  forall g g' : Globals, main fuel cfg env states g = Some g' -> Throttle.throttled cfg g g'.
Proof.
  induction states as [|st rest IH]; intros g g'; cbn [main].
  - intros [= <-]. unfold Throttle.throttled. lia.
  - destruct (collectState fuel cfg env st g) as [[[u|msg] g1]|] eqn:E; [| |done];
      apply collectState_throttled in E.
    + intros H. apply IH in H. by apply throttled_trans with g1.
    + destruct (includes _ _ || includes _ _); [by intros [= <-]|].
      intros H. apply IH in H. by apply throttled_trans with g1.
Qed.

End Throttled.

(** X21: every request of a run is throttled: between the start and the end
    of [main], whatever failed on the way, the script has slept at least
    [Math.ceil(1000 / QPS)] milliseconds for each request it has counted. *)
Theorem requests_are_throttled (fuel : nat) (cfg : Config) (env : Env)
    (states : list jsstring) (g g' : Globals) :
  main fuel cfg env states g = Some g' ->
  (Throttle.timeSlept g +
   Z.max 0 (gateDelay cfg) * (Z.of_nat (REQUESTS g') - Z.of_nat (REQUESTS g))
   <= Throttle.timeSlept g')%Z.
Proof. intros H. exact (main_throttled cfg env fuel states g g' H). Qed.

Lemma requests_are_throttled_witness :
  exists g',
    main 1 (Scenario.config 800) Scenario.sameEverywhere [js "AL"; js "GA"] initial
      = Some g' /\
    gateDelay (Scenario.config 800) = 334%Z /\ REQUESTS g' = 6 /\
    (Throttle.timeSlept initial +
     Z.max 0 (gateDelay (Scenario.config 800)) *
       (Z.of_nat (REQUESTS g') - Z.of_nat (REQUESTS initial))
     <= Throttle.timeSlept g')%Z.
Proof.
  eexists. split; [vm_compute; reflexivity|]. split; [reflexivity|].
  split; [reflexivity|].
  apply (requests_are_throttled 1 (Scenario.config 800) Scenario.sameEverywhere
           [js "AL"; js "GA"] initial).
  vm_compute; reflexivity.
Defined.
